(** * Chess Royale: the move rules, the piece registry and the ability path

    A shallow embedding of the parts of the repository that decide how
    pieces move and how they are hurt:

    - [ChessRules]  : the client rule engine (ChessRules.js), which lists
                      the legal destinations of the piece on a square;
    - [Pieces]      : the ability table and the cooldown gate of a piece
                      (pieces.js, [ChessPiece.useAbility]);
    - [Game]        : loot collection and the Vine Beast collision (game.js);
    - [Server]      : the authoritative registry and its socket handlers
                      (server.js): registration, move validation, ability
                      damage, defeat, the respawn timer and disconnection;
    - [Client]      : the space-bar handler of main.js that sends the
                      ability message;
    - [Slots]       : the server's table of starting squares and their
                      reservation and release (server.js);
    - [RulesUpdate] : looking a piece up and moving it on the rule engine's
                      board (ChessRules.js);
    - [GameEvents]  : the search for an empty square, loot drops and the
                      King's Call (game.js);
    - [AnyNumber]   : the path walk of the server towards a target whose
                      coordinates are any numbers (server.js).

    JS numbers that hold board coordinates and health are integers ([Z]);
    a cooldown is a number of seconds with a fractional part ([Q]).
    Strings used as tags ('white', 'pawn', ...) are inductive types, with a
    constructor for a tag the tables do not know where the source has a
    default branch for it. *)

From Stdlib Require Import ZArith List Bool String Lia QArith.
Import ListNotations.
Open Scope Z_scope.

(** ** Shared data *)

Inductive Team : Type := white | black.

Inductive PieceType : Type :=
  | pawn | rook | knight | bishop | queen | king
  | otherType.   (* a type string outside the six: the [default] branches *)

Record Position : Type := mkPos { pos_x : Z; pos_z : Z }.

Definition team_eqb (a b : Team) : bool :=
  match a, b with
  | white, white | black, black => true
  | _, _ => false
  end.

(* position.x === other.x && position.z === other.z *)
Definition pos_eqb (p q : Position) : bool :=
  (pos_x p =? pos_x q) && (pos_z p =? pos_z q).

(** ** An insertion-ordered map with string keys (the JS [Map]) *)

Module JsMap.
Section Ops.
Context {V : Type}.

Definition t := list (string * V).

Fixpoint get (m : list (string * V)) (k : string) : option V :=
  match m with
  | [] => None
  | (k', v) :: rest => if String.eqb k' k then Some v else get rest k
  end.

Definition has (m : list (string * V)) (k : string) : bool :=
  match get m k with Some _ => true | None => false end.

(* [set] on a present key keeps the key's place in the iteration order *)
Fixpoint set (m : list (string * V)) (k : string) (v : V) : list (string * V) :=
  match m with
  | [] => [(k, v)]
  | (k', v') :: rest =>
      if String.eqb k' k then (k, v) :: rest else (k', v') :: set rest k v
  end.

Definition delete (m : list (string * V)) (k : string) : list (string * V) :=
  filter (fun kv => negb (String.eqb (fst kv) k)) m.

Definition keys (m : list (string * V)) : list string := map fst m.

Definition size (m : list (string * V)) : nat := List.length m.
End Ops.
End JsMap.

(** ** ChessRules.js: the client rule engine *)

Module ChessRules.

(* what a board cell holds: { id, type, team } *)
Record Cell : Type := mkCell {
  cell_id : string;
  cell_type : PieceType;
  cell_team : Team
}.

(* boardState[z][x]; a missing row or cell is one past the end of a list *)
Definition Board := list (list (option Cell)).

(* pieceData as main.js passes it, stored as { ...pieceData, id } *)
Record PieceData : Type := mkPieceData {
  pd_id : string;
  pd_type : PieceType;
  pd_team : Team;
  pd_position : Position;
  pd_hp : Z
}.

Record Rules : Type := mkRules {
  boardState : Board;
  pieces : list (string * PieceData)
}.

(* Array(8).fill().map(() => Array(8).fill(null)) *)
Definition emptyRow : list (option Cell) := repeat None 8.
Definition emptyBoard : Board := repeat emptyRow 8.

Definition constructor : Rules := mkRules emptyBoard [].

Definition isValidPosition (p : Position) : bool :=
  (0 <=? pos_x p) && (pos_x p <? 8) && (0 <=? pos_z p) && (pos_z p <? 8).

(* the inner loop of ensureBoardInitialized: cells 0..7 that are
   undefined become null *)
Definition ensureRow (row : list (option Cell)) : list (option Cell) :=
  map (fun x => nth x row None) (seq 0 8) ++ skipn 8 row.

Definition ensureBoardInitialized (b : Board) : Board :=
  map (fun z => match nth_error b z with
                | Some row => ensureRow row
                | None => emptyRow
                end) (seq 0 8)
  ++ skipn 8 b.

Definition readCell (b : Board) (p : Position) : option Cell :=
  nth (Z.to_nat (pos_x p)) (nth (Z.to_nat (pos_z p)) b []) None.

(* getPieceAt normalises the board and then reads boardState[z][x];
   normalising twice changes nothing and no reader sees the difference
   (lemmas [ensureBoardInitialized_idem] and [getPieceAt_ensure]), so the
   queries below are functions of the board. *)
Definition getPieceAt (b : Board) (p : Position) : option Cell :=
  if isValidPosition p then readCell (ensureBoardInitialized b) p else None.

Definition isPositionOccupied (b : Board) (p : Position) : bool :=
  if isValidPosition p
  then match getPieceAt b p with Some _ => true | None => false end
  else false.

(* piece && piece.team !== team *)
Definition isOpponentPiece (b : Board) (p : Position) (team : Team) : bool :=
  match getPieceAt b p with
  | Some piece => negb (team_eqb (cell_team piece) team)
  | None => false
  end.

(* const direction = team === 'white' ? -1 : 1 *)
Definition direction (team : Team) : Z :=
  match team with white => -1 | black => 1 end.

(* team === 'white' ? position.z === 6 : position.z === 1 *)
Definition isStartingRow (team : Team) (p : Position) : bool :=
  match team with white => pos_z p =? 6 | black => pos_z p =? 1 end.

Definition getPawnMoves (b : Board) (position : Position) (team : Team)
  : list Position :=
  let forward := mkPos (pos_x position) (pos_z position + direction team) in
  let forwardMoves :=
    if isValidPosition forward && negb (isPositionOccupied b forward)
    then forward ::
         (if isStartingRow team position
          then let doubleForward :=
                 mkPos (pos_x position) (pos_z position + 2 * direction team) in
               if isValidPosition doubleForward
                  && negb (isPositionOccupied b doubleForward)
               then [doubleForward] else []
          else [])
    else [] in
  let captureMoves :=
    [ mkPos (pos_x position - 1) (pos_z position + direction team);
      mkPos (pos_x position + 1) (pos_z position + direction team) ] in
  forwardMoves ++
  filter (fun move => isValidPosition move && isOpponentPiece b move team)
         captureMoves.

(* { x: position.x + dir.x * i, z: position.z + dir.z * i } *)
Definition step (position dir : Position) (i : Z) : Position :=
  mkPos (pos_x position + pos_x dir * i) (pos_z position + pos_z dir * i).

(* for (let i = ...; i < 8; i++) { ... } along one direction; [n] counts
   the iterations that are left, 8 - i *)
Fixpoint castRay (b : Board) (position dir : Position) (team : Team)
         (i : Z) (n : nat) : list Position :=
  match n with
  | O => []
  | S n' =>
      let move := step position dir i in
      if negb (isValidPosition move) then []                       (* break *)
      else if negb (isPositionOccupied b move)
           then move :: castRay b position dir team (i + 1) n'
           else if isOpponentPiece b move team then [move] else [] (* break *)
  end.

Definition castRays (b : Board) (position : Position) (team : Team)
           (directions : list Position) : list Position :=
  flat_map (fun dir => castRay b position dir team 1 7) directions.

Definition rookDirections : list Position :=
  [ mkPos 0 1; mkPos 0 (-1); mkPos 1 0; mkPos (-1) 0 ].

Definition bishopDirections : list Position :=
  [ mkPos 1 1; mkPos 1 (-1); mkPos (-1) 1; mkPos (-1) (-1) ].

Definition getRookMoves (b : Board) (position : Position) (team : Team) :=
  castRays b position team rookDirections.

Definition getBishopMoves (b : Board) (position : Position) (team : Team) :=
  castRays b position team bishopDirections.

Definition getQueenMoves (b : Board) (position : Position) (team : Team) :=
  getRookMoves b position team ++ getBishopMoves b position team.

Definition knightMoves : list Position :=
  [ mkPos 1 2; mkPos 2 1; mkPos 2 (-1); mkPos 1 (-2);
    mkPos (-1) (-2); mkPos (-2) (-1); mkPos (-2) 1; mkPos (-1) 2 ].

Definition kingDirections : list Position :=
  [ mkPos 0 1; mkPos 1 1; mkPos 1 0; mkPos 1 (-1);
    mkPos 0 (-1); mkPos (-1) (-1); mkPos (-1) 0; mkPos (-1) 1 ].

(* the loop shared by getKnightMoves and getKingMoves *)
Definition offsetMoves (b : Board) (position : Position) (team : Team)
           (offsets : list Position) : list Position :=
  filter (fun newPos =>
            isValidPosition newPos
            && (negb (isPositionOccupied b newPos) || isOpponentPiece b newPos team))
         (map (fun move => mkPos (pos_x position + pos_x move)
                                 (pos_z position + pos_z move)) offsets).

Definition getKnightMoves (b : Board) (position : Position) (team : Team) :=
  offsetMoves b position team knightMoves.

Definition getKingMoves (b : Board) (position : Position) (team : Team) :=
  offsetMoves b position team kingDirections.

Definition getValidMoves (b : Board) (position : Position) : list Position :=
  if negb (isValidPosition position) then []
  else match getPieceAt b position with
       | None => []
       | Some piece =>
           match cell_type piece with
           | pawn => getPawnMoves b position (cell_team piece)
           | rook => getRookMoves b position (cell_team piece)
           | knight => getKnightMoves b position (cell_team piece)
           | bishop => getBishopMoves b position (cell_team piece)
           | queen => getQueenMoves b position (cell_team piece)
           | king => getKingMoves b position (cell_team piece)
           | otherType => []
           end
       end.

(* the rows 0..7 that are missing become rows of eight nulls *)
Definition ensureRows (b : Board) : Board :=
  map (fun i => match nth_error b i with
                | Some row => row
                | None => emptyRow
                end) (seq 0 8)
  ++ skipn 8 b.

(* row[x] = v; an array shorter than x grows, and the holes it leaves
   read as null once the board is normalised *)
Fixpoint writeAt {A : Type} (hole : A) (l : list A) (n : nat) (v : A) : list A :=
  match n, l with
  | O, [] => [v]
  | O, _ :: rest => v :: rest
  | S n', [] => hole :: writeAt hole [] n' v
  | S n', h :: rest => h :: writeAt hole rest n' v
  end.

Definition placeOnBoard (b : Board) (p : Position) (c : Cell) : Board :=
  let zi := Z.to_nat (pos_z p) in
  writeAt [] b zi (writeAt None (nth zi b []) (Z.to_nat (pos_x p)) (Some c)).

(* registerPiece(id, pieceData): [None] is the early [return null] *)
Definition registerPiece (r : Rules) (id : string) (pieceData : option PieceData)
  : Rules * option PieceData :=
  match pieceData with
  | None => (r, None)
  | Some pd =>
      if String.eqb id EmptyString then (r, None)
      else
        let stored := mkPieceData id (pd_type pd) (pd_team pd)
                                  (pd_position pd) (pd_hp pd) in
        let pieces' := JsMap.set (pieces r) id stored in
        let board' :=
          if isValidPosition (pd_position pd)
          then placeOnBoard (ensureRows (boardState r)) (pd_position pd)
                            (mkCell id (pd_type pd) (pd_team pd))
          else boardState r in
        (mkRules board' pieces', JsMap.get pieces' id)
  end.

End ChessRules.

(** ** The ability message, client to server:
       socket.emit('ability', { id, target, damage }) *)

Record AbilityMsg : Type := mkAbilityMsg {
  am_id : string;
  am_target : Position;
  am_damage : option Z        (* [None]: the field is absent *)
}.

(** ** pieces.js: the ability table and the cooldown gate *)

Module Pieces.

Record Ability : Type := mkAbility {
  ab_name : string;
  ab_damage : Z;
  ab_cooldown : Q;
  ab_healing : option Z
}.

Record ChessPiece : Type := mkPiece {
  cp_id : string;
  cp_type : PieceType;
  cp_team : Team;
  cp_hp : Z;
  cp_cooldown : Q
}.

Definition getInitialHP (type : PieceType) : Z :=
  match type with
  | pawn => 5 | rook => 7 | knight => 7 | bishop => 7
  | queen => 10 | king => 15
  | otherType => 5
  end.

Definition getAbilityDetails (type : PieceType) : Ability :=
  match type with
  | pawn => mkAbility "Hop Attack" 2 (inject_Z 5) None
  | rook => mkAbility "Rock Smash" 3 (inject_Z 10) None
  | knight => mkAbility "Tail Whip" 1 (inject_Z 8) None
  | bishop => mkAbility "Leaf Gust" 2 (inject_Z 7) None
  | queen => mkAbility "Petal Storm" 3 (inject_Z 12) None
  | king => mkAbility "Royal Aura" 0 (inject_Z 15) (Some 1)
  | otherType => mkAbility "Basic Attack" 1 (inject_Z 5) None
  end.

Definition getAbilityDamage (p : ChessPiece) : Z :=
  ab_damage (getAbilityDetails (cp_type p)).

(* this.cooldown > 0 *)
Definition onCooldown (p : ChessPiece) : bool :=
  negb (Qle_bool (cp_cooldown p) 0).

Definition setCooldown (p : ChessPiece) (c : Q) : ChessPiece :=
  mkPiece (cp_id p) (cp_type p) (cp_team p) (cp_hp p) c.

(* useAbility of client/js/pieces.js: [None] is the bare [return]; the
   visual effect it creates is not part of the piece's game state *)
Definition useAbility (p : ChessPiece) (targetPos : Position)
  : ChessPiece * option Ability :=
  if onCooldown p then (p, None)
  else
    let ability := getAbilityDetails (cp_type p) in
    (setCooldown p (ab_cooldown ability), Some ability).

(* the earlier useAbility, which sends the message itself when a socket
   is defined *)
Definition useAbilityEmitting (socketDefined : bool) (p : ChessPiece)
           (targetPos : Position)
  : ChessPiece * option Ability * list AbilityMsg :=
  if onCooldown p then (p, None, [])
  else
    let ability := getAbilityDetails (cp_type p) in
    (setCooldown p (ab_cooldown ability), Some ability,
     if socketDefined
     then [mkAbilityMsg (cp_id p) targetPos (Some (ab_damage ability))]
     else []).

End Pieces.

(** ** main.js: the space-bar branch of the keydown handler *)

Module Client.

(* [board] is the square the player's mesh stands on,
   (Math.round(x + 3.5), Math.round(z + 3.5)).  The handler calls
   useAbility for the visual feedback and then sends the message, whatever
   useAbility returned. *)
Definition keydownSpace (socketId : string) (player : Pieces.ChessPiece)
           (board : Position) : Pieces.ChessPiece * AbilityMsg :=
  let targetPos := mkPos (pos_x board) (pos_z board + 1) in
  let player' := fst (Pieces.useAbility player targetPos) in
  (player',
   mkAbilityMsg socketId (mkPos (pos_x board) (pos_z board + 1))
                (Some (Pieces.getAbilityDamage player'))).

End Client.

(** ** game.js: loot collection and the Vine Beast *)

Module Game.

Inductive LootType : Type := doubleMove | petalShield | vineTrap.

Record Loot : Type := mkLoot {
  loot_id : string;
  loot_type : LootType;
  loot_position : Position;
  loot_duration : Z;
  loot_isEventLoot : bool
}.

(* an entry of this.players, with the flags collectLoot adds to it *)
Record Player : Type := mkPlayer {
  gp_id : string;
  gp_type : PieceType;
  gp_position : option Position;
  gp_hp : Z;
  gp_hasDoubleMove : bool;
  gp_hasShield : bool;
  gp_shieldDuration : option Z;
  gp_hasVineTrap : bool
}.

Record Entity : Type := mkEntity {
  en_id : string;
  en_position : Position;
  en_hp : Z;
  en_isNeutral : bool
}.

(* socket.emit('playerDamage', ...) and socket.emit('lootCollect', ...) *)
Inductive Emit : Type :=
  | PlayerDamage (id : string) (damage hp : Z)
  | LootCollect (playerId lootId : string) (lootType : LootType).

Record State : Type := mkState {
  players : list (string * Player);
  lootItems : list (string * Loot);
  entities : list (string * Entity);
  emitted : list Emit
}.

(* duration: lootType === 'petalShield' ? 10 : 5 *)
Definition lootDuration (t : LootType) : Z :=
  match t with petalShield => 10 | _ => 5 end.

Definition applyLoot (loot : Loot) (p : Player) : Player :=
  match loot_type loot with
  | doubleMove =>
      mkPlayer (gp_id p) (gp_type p) (gp_position p) (gp_hp p)
               true (gp_hasShield p) (gp_shieldDuration p) (gp_hasVineTrap p)
  | petalShield =>
      mkPlayer (gp_id p) (gp_type p) (gp_position p) (gp_hp p)
               (gp_hasDoubleMove p) true (Some (loot_duration loot))
               (gp_hasVineTrap p)
  | vineTrap =>
      mkPlayer (gp_id p) (gp_type p) (gp_position p) (gp_hp p)
               (gp_hasDoubleMove p) (gp_hasShield p) (gp_shieldDuration p) true
  end.

Definition collectLoot (socketDefined : bool) (st : State)
           (playerId lootId : string) : State :=
  match JsMap.get (players st) playerId, JsMap.get (lootItems st) lootId with
  | Some player, Some loot =>
      mkState (JsMap.set (players st) playerId (applyLoot loot player))
              (JsMap.delete (lootItems st) lootId)
              (entities st)
              (emitted st ++
               if socketDefined
               then [LootCollect playerId lootId (loot_type loot)] else [])
  | _, _ => st
  end.

Definition onSquare (p : Player) (q : Position) : bool :=
  match gp_position p with
  | Some pp => pos_eqb pp q
  | None => false
  end.

(* player.hp -= 2 *)
Definition collide (p : Player) : Player :=
  mkPlayer (gp_id p) (gp_type p) (gp_position p) (gp_hp p - 2)
           (gp_hasDoubleMove p) (gp_hasShield p) (gp_shieldDuration p)
           (gp_hasVineTrap p).

Definition adjacentSquares (q : Position) : list Position :=
  [ mkPos (pos_x q + 1) (pos_z q); mkPos (pos_x q - 1) (pos_z q);
    mkPos (pos_x q) (pos_z q + 1); mkPos (pos_x q) (pos_z q - 1) ].

Definition onBoard (q : Position) : bool :=
  (0 <=? pos_x q) && (pos_x q <? 8) && (0 <=? pos_z q) && (pos_z q <? 8).

(* [pick] is Math.floor(Math.random() * validMoves.length), an index of
   validMoves *)
Definition moveNeutralEntity (socketDefined : bool) (pick : nat) (st : State)
           (entityId : string) : State :=
  match JsMap.get (entities st) entityId with
  | None => st
  | Some entity =>
      let validMoves := filter onBoard (adjacentSquares (en_position entity)) in
      match nth_error validMoves pick with
      | None => st
      | Some newPosition =>
          let entity' := mkEntity (en_id entity) newPosition (en_hp entity)
                                  (en_isNeutral entity) in
          let hit := filter (fun kv => onSquare (snd kv) newPosition) (players st) in
          mkState
            (map (fun kv => if onSquare (snd kv) newPosition
                            then (fst kv, collide (snd kv)) else kv)
                 (players st))
            (lootItems st)
            (JsMap.set (entities st) entityId entity')
            (emitted st ++
             if socketDefined
             then map (fun kv => PlayerDamage (gp_id (snd kv)) 2
                                              (gp_hp (snd kv) - 2)) hit
             else [])
      end
  end.

End Game.

(** ** server.js: the registry and its handlers *)

Module Server.

Record Settings : Type := mkSettings {
  respawnEnabled : bool;
  respawnTime : Z;        (* seconds *)
  maxPlayers : Z;
  friendlyFire : bool
}.

Definition gameSettings : Settings := mkSettings true 5 32 false.

(* a value of the [players] map; [effects] is created empty and never
   touched by the server, so it is left out *)
Record Player : Type := mkPlayer {
  p_id : string;
  p_type : PieceType;
  p_team : Team;
  p_position : Position;
  p_hp : Z;
  p_lastMoveTime : Z;
  p_respawning : bool;
  p_respawnTime : option Z;
  p_isSpectator : bool
}.

Inductive LogEntry : Type :=
  | LogAbility (time : Z) (attacker target : string) (damage : Z)
  | LogDefeat (time : Z) (defeatedId attackerId : string)
  | LogClientEvent (time : Z) (eventData : string).

(* a pending setTimeout of handlePlayerDefeat: when it is due and the id
   its closure holds (defeatedPlayer.id) *)
Record Timer : Type := mkTimer { tm_due : Z; tm_id : string }.

Inductive Emit : Type :=
  | EmitGameState (to : string) (snapshot : list (string * Player))
                  (events : list LogEntry) (time : Z)
  | EmitUpdate (snapshot : list (string * Player))
  | EmitMoveRejected (to id : string) (correctPosition : Position)
  | EmitPlayerRespawn (id : string) (position : Position) (hp : Z)
  | EmitGameEvent (eventData : string).

(* Times are milliseconds counted from gameStartTime.  The table of
   reserved starting squares (assignedPositions) is kept beside the
   registry and is not part of this record. *)
Record State : Type := mkState {
  players : list (string * Player);
  eventLog : list LogEntry;
  timers : list Timer;
  emitted : list Emit
}.

Definition initial : State := mkState [] [] [] [].

Definition getBaseHp (type : PieceType) : Z :=
  match type with
  | pawn => 5 | rook => 7 | knight => 7 | bishop => 7
  | queen => 10 | king => 15
  | otherType => 5
  end.

(* v || d on a number that may be absent: 0 and undefined are falsy *)
Definition orDefault (v : option Z) (d : Z) : Z :=
  match v with
  | Some n => if n =? 0 then d else n
  | None => d
  end.

Record ConfirmData : Type := mkConfirm {
  cd_id : string;
  cd_type : PieceType;
  cd_team : Team;
  cd_position : Position;
  cd_hp : option Z
}.

(* eventLog.slice(-10) *)
Definition lastTen {A : Type} (l : list A) : list A :=
  skipn (List.length l - 10) l.

Definition onConfirmPieceAssignment (now : Z) (socketId : string)
           (data : ConfirmData) (st : State) : State :=
  let players' :=
    JsMap.set (players st) (cd_id data)
              (mkPlayer (cd_id data) (cd_type data) (cd_team data)
                        (cd_position data)
                        (orDefault (cd_hp data) (getBaseHp (cd_type data)))
                        now false None false) in
  mkState players' (eventLog st) (timers st)
          (emitted st ++
           [ EmitGameState socketId players' (lastTen (eventLog st)) now;
             EmitUpdate players' ]).

Definition isAnyPieceAt (ps : list (string * Player)) (position : Position)
  : bool :=
  existsb (fun kv => pos_eqb (p_position (snd kv)) position) ps.

Definition isPositionOccupied (ps : list (string * Player))
           (position : Position) (team : Team) : bool :=
  existsb (fun kv => pos_eqb (p_position (snd kv)) position
                     && negb (team_eqb (p_team (snd kv)) team)) ps.

(* end > start ? 1 : (end < start ? -1 : 0) *)
Definition dirOf (start_ end_ : Z) : Z :=
  if end_ >? start_ then 1 else if end_ <? start_ then -1 else 0.

(* the while loop of isPathBlocked; [None] when the steps run out before
   the loop leaves *)
Fixpoint pathLoop (ps : list (string * Player))
         (currX currZ dirX dirZ endX endZ : Z) (fuel : nat) : option bool :=
  match fuel with
  | O => None
  | S fuel' =>
      if negb ((currX =? endX) && (currZ =? endZ))
      then if isAnyPieceAt ps (mkPos currX currZ)
           then Some true
           else pathLoop ps (currX + dirX) (currZ + dirZ) dirX dirZ
                         endX endZ fuel'
      else Some false
  end.

(* the loop is given one step more than the longer side of the move *)
Definition isPathBlocked (ps : list (string * Player)) (start_ end_ : Position)
  : option bool :=
  let dirX := dirOf (pos_x start_) (pos_x end_) in
  let dirZ := dirOf (pos_z start_) (pos_z end_) in
  pathLoop ps (pos_x start_ + dirX) (pos_z start_ + dirZ) dirX dirZ
           (pos_x end_) (pos_z end_)
           (S (Z.to_nat (Z.max (Z.abs (pos_x end_ - pos_x start_))
                               (Z.abs (pos_z end_ - pos_z start_))))).

(* shape && !isPathBlocked(...), the path being walked only when the
   shape holds *)
Definition andNotBlocked (shape : bool) (ps : list (string * Player))
           (start_ end_ : Position) : option bool :=
  if shape then option_map negb (isPathBlocked ps start_ end_) else Some false.

(* [newPosition] is [None] when the message has no position with two
   numeric fields; the result is [None] when the path loop does not end *)
Definition validateMove (ps : list (string * Player)) (player : Player)
           (newPosition : option Position) : option bool :=
  match newPosition with
  | None => Some false
  | Some np =>
      if (pos_x np <? 0) || (pos_x np >=? 8) || (pos_z np <? 0) || (pos_z np >=? 8)
      then Some false
      else
        let distX := Z.abs (pos_x np - pos_x (p_position player)) in
        let distZ := Z.abs (pos_z np - pos_z (p_position player)) in
        match p_type player with
        | pawn =>
            let forwardDirection :=
              match p_team player with white => -1 | black => 1 end in
            let isStartingPosition :=
              match p_team player with
              | white => pos_z (p_position player) =? 6
              | black => pos_z (p_position player) =? 1
              end in
            let zChange := pos_z np - pos_z (p_position player) in
            Some
              (if distX =? 0
               then if Z.sgn zChange =? forwardDirection
                    then if Z.abs zChange =? 1 then true
                         else isStartingPosition && (Z.abs zChange =? 2)
                    else false
               else if (distX =? 1) && (distZ =? 1)
                    then if Z.sgn zChange =? forwardDirection
                         then isPositionOccupied ps np (p_team player)
                         else false
                    else false)
        | rook =>
            andNotBlocked ((distX =? 0) || (distZ =? 0))
                          ps (p_position player) np
        | knight =>
            Some (((distX =? 2) && (distZ =? 1)) || ((distX =? 1) && (distZ =? 2)))
        | bishop =>
            andNotBlocked (distX =? distZ) ps (p_position player) np
        | queen =>
            andNotBlocked (((distX =? 0) || (distZ =? 0)) || (distX =? distZ))
                          ps (p_position player) np
        | king => Some ((distX <=? 1) && (distZ <=? 1))
        | otherType => Some ((distX <=? 1) && (distZ <=? 1))
        end
  end.

Record MoveData : Type := mkMove {
  md_id : string;
  md_position : option Position
}.

Definition movedTo (p : Player) (np : Position) (now : Z) : Player :=
  mkPlayer (p_id p) (p_type p) (p_team p) np (p_hp p) now
           (p_respawning p) (p_respawnTime p) (p_isSpectator p).

(* the 'move' handler; [None] only if validateMove does not return.  A
   move that validates always carries a position. *)
Definition onMove (now : Z) (socketId : string) (data : MoveData) (st : State)
  : option State :=
  match JsMap.get (players st) (md_id data) with
  | None => Some st
  | Some player =>
      match validateMove (players st) player (md_position data),
            md_position data with
      | None, _ => None
      | Some true, Some np =>
          let players' :=
            JsMap.set (players st) (md_id data) (movedTo player np now) in
          Some (mkState players' (eventLog st) (timers st)
                        (emitted st ++ [EmitUpdate players']))
      | Some true, None => Some st
      | Some false, _ =>
          Some (mkState (players st) (eventLog st) (timers st)
                        (emitted st ++
                         [EmitMoveRejected socketId (md_id data)
                                           (p_position player)]))
      end
  end.

Definition findTargetsAtPosition (gs : Settings) (ps : list (string * Player))
           (position : Position) (attackerTeam : Team) : list string :=
  map fst
      (filter (fun kv =>
                 pos_eqb (p_position (snd kv)) position
                 && negb (negb (friendlyFire gs)
                          && team_eqb (p_team (snd kv)) attackerTeam))
              ps).

Definition withHp (p : Player) (hp : Z) : Player :=
  mkPlayer (p_id p) (p_type p) (p_team p) (p_position p) hp
           (p_lastMoveTime p) (p_respawning p) (p_respawnTime p)
           (p_isSpectator p).

(* handlePlayerDefeat(defeatedPlayer, attacker); [key] is the map key
   under which the object [defeatedPlayer] is stored *)
Definition handlePlayerDefeat (gs : Settings) (now : Z) (key : string)
           (defeatedPlayer : Player) (attackerId : string) (st : State)
  : State :=
  let log := eventLog st ++ [LogDefeat now (p_id defeatedPlayer) attackerId] in
  if respawnEnabled gs
  then
    let due := now + respawnTime gs * 1000 in
    mkState
      (JsMap.set (players st) key
         (mkPlayer (p_id defeatedPlayer) (p_type defeatedPlayer)
                   (p_team defeatedPlayer) (p_position defeatedPlayer)
                   (p_hp defeatedPlayer) (p_lastMoveTime defeatedPlayer)
                   true (Some due) (p_isSpectator defeatedPlayer)))
      log
      (timers st ++ [mkTimer due (p_id defeatedPlayer)])
      (emitted st)
  else
    mkState
      (JsMap.set (players st) key
         (mkPlayer (p_id defeatedPlayer) (p_type defeatedPlayer)
                   (p_team defeatedPlayer) (p_position defeatedPlayer)
                   0 (p_lastMoveTime defeatedPlayer)
                   (p_respawning defeatedPlayer)
                   (p_respawnTime defeatedPlayer) true))
      log (timers st) (emitted st).

(* the body of targets.forEach in the 'ability' handler; the attacker's
   id and team are read from [attacker], and neither ever changes *)
Definition hitTarget (gs : Settings) (now : Z) (attacker : Player)
           (damage : option Z) (st : State) (target : string) : State :=
  match JsMap.get (players st) target with
  | None => st
  | Some targetPlayer =>
      if negb (friendlyFire gs)
         && team_eqb (p_team targetPlayer) (p_team attacker)
      then st
      else
        let hurt := withHp targetPlayer
                           (p_hp targetPlayer - orDefault damage 1) in
        let st1 :=
          mkState (JsMap.set (players st) target hurt)
                  (eventLog st ++
                   [LogAbility now (p_id attacker) target (orDefault damage 1)])
                  (timers st) (emitted st) in
        if p_hp hurt <=? 0
        then handlePlayerDefeat gs now target hurt (p_id attacker) st1
        else st1
  end.

Definition onAbility (gs : Settings) (now : Z) (data : AbilityMsg) (st : State)
  : State :=
  match JsMap.get (players st) (am_id data) with
  | None => st
  | Some player =>
      let targets :=
        findTargetsAtPosition gs (players st) (am_target data) (p_team player) in
      let st' := fold_left (hitTarget gs now player (am_damage data)) targets st in
      mkState (players st') (eventLog st') (timers st')
              (emitted st' ++ [EmitUpdate (players st')])
  end.

Definition onDisconnect (socketId : string) (st : State) : State :=
  let players' := JsMap.delete (players st) socketId in
  mkState players' (eventLog st) (timers st)
          (emitted st ++ [EmitUpdate players']).

(* the 'gameEvent' handler: the client's event is logged and passed on *)
Definition onGameEvent (now : Z) (eventData : string) (st : State) : State :=
  mkState (players st) (eventLog st ++ [LogClientEvent now eventData])
          (timers st) (emitted st ++ [EmitGameEvent eventData]).

(* the callback handlePlayerDefeat hands to setTimeout, for the id its
   closure holds; [randomPosition] is what getRandomPosition() returns *)
Definition respawnCallback (randomPosition : Position) (id : string)
           (st : State) : State :=
  if JsMap.has (players st) id
  then match JsMap.get (players st) id with
       | None => st
       | Some player =>
           let player' :=
             mkPlayer (p_id player) (p_type player) (p_team player)
                      randomPosition (getBaseHp (p_type player))
                      (p_lastMoveTime player) false (p_respawnTime player)
                      (p_isSpectator player) in
           let players' := JsMap.set (players st) id player' in
           mkState players' (eventLog st) (timers st)
                   (emitted st ++
                    [ EmitPlayerRespawn (p_id player') randomPosition
                                        (p_hp player');
                      EmitUpdate players' ])
       end
  else st.

(* the oldest pending timer comes due (all delays are equal) *)
Definition fireTimer (randomPosition : Position) (st : State) : State :=
  match timers st with
  | [] => st
  | t :: rest =>
      respawnCallback randomPosition (tm_id t)
                      (mkState (players st) (eventLog st) rest (emitted st))
  end.

Definition pendingFor (id : string) (st : State) : nat :=
  List.length (filter (fun t => String.eqb (tm_id t) id) (timers st)).

(* Math.floor(Math.random() * 8) for both coordinates *)
Definition randomSquare (p : Position) : Prop :=
  0 <= pos_x p < 8 /\ 0 <= pos_z p < 8.

(* the states the handlers can bring the server to *)
Inductive Reachable : State -> Prop :=
  | reach_initial : Reachable initial
  | reach_confirm : forall now sid data st,
      Reachable st -> Reachable (onConfirmPieceAssignment now sid data st)
  | reach_move : forall now sid data st st',
      Reachable st -> onMove now sid data st = Some st' -> Reachable st'
  | reach_ability : forall now data st,
      Reachable st -> Reachable (onAbility gameSettings now data st)
  | reach_disconnect : forall sid st,
      Reachable st -> Reachable (onDisconnect sid st)
  | reach_event : forall now eventData st,
      Reachable st -> Reachable (onGameEvent now eventData st)
  | reach_timer : forall rp st,
      Reachable st -> randomSquare rp -> Reachable (fireTimer rp st).

(* every key is the id of the record stored under it, and no key occurs
   twice *)
Definition wellKeyed (ps : list (string * Player)) : Prop :=
  NoDup (JsMap.keys ps) /\ forall k p, In (k, p) ps -> p_id p = k.

End Server.

(** ** Notions used to state the properties *)

(* a square is free for a mover of [team]: empty, or held by the other side *)
Definition freeFor (b : ChessRules.Board) (team : Team) (p : Position) : Prop :=
  ChessRules.isPositionOccupied b p = false
  \/ ChessRules.isOpponentPiece b p team = true.

(* the directions along which a piece type casts its rays *)
Definition rayDirections (type : PieceType) : list Position :=
  match type with
  | rook => ChessRules.rookDirections
  | bishop => ChessRules.bishopDirections
  | queen => ChessRules.rookDirections ++ ChessRules.bishopDirections
  | _ => []
  end.

(* the [k]-th square from [position] along [dir] is the first occupied one *)
Definition firstOccupied (b : ChessRules.Board) (position dir : Position)
           (k : Z) : Prop :=
  1 <= k
  /\ ChessRules.isPositionOccupied b (ChessRules.step position dir k) = true
  /\ forall j, 1 <= j < k ->
       ChessRules.isPositionOccupied b (ChessRules.step position dir j) = false.

(* the 'ability' handler passes a target over: friendly fire is off and the
   target is on the attacker's team *)
Definition skips (gs : Server.Settings) (attacker p : Server.Player) : bool :=
  negb (Server.friendlyFire gs)
  && team_eqb (Server.p_team p) (Server.p_team attacker).

(* the health the registry holds after a hit of [d] on a piece with [hp] *)
Definition hpAfterHit (gs : Server.Settings) (d hp : Z) : Z :=
  if (hp - d <=? 0) && negb (Server.respawnEnabled gs) then 0 else hp - d.

(* the respawn timers one hit of [d] adds for a piece with [hp] *)
Definition timersAfterHit (gs : Server.Settings) (d hp : Z) : nat :=
  if (hp - d <=? 0) && Server.respawnEnabled gs then 1%nat else 0%nat.

(* on the server: the [k]-th square from [position] along [dir] is the
   first one on which some registered piece stands *)
Definition firstOccupiedOnServer (ps : list (string * Server.Player))
           (position dir : Position) (k : Z) : Prop :=
  1 <= k
  /\ Server.isAnyPieceAt ps (ChessRules.step position dir k) = true
  /\ forall j, 1 <= j < k ->
       Server.isAnyPieceAt ps (ChessRules.step position dir j) = false.

(** ** Positions used as examples *)

Module Examples.

(* a rule-engine board built by registering pieces on the empty one *)
Definition boardOf (l : list ChessRules.PieceData) : ChessRules.Board :=
  ChessRules.boardState
    (fold_left (fun r pd =>
                  fst (ChessRules.registerPiece r (ChessRules.pd_id pd) (Some pd)))
               l ChessRules.constructor).

(* a white rook on (0,0) and a black pawn on (0,3) *)
Definition rookBoard : ChessRules.Board :=
  boardOf [ ChessRules.mkPieceData "r" rook white (mkPos 0 0) 7;
            ChessRules.mkPieceData "bp" pawn black (mkPos 0 3) 5 ].

(* a white pawn alone on its home row, at (4,6) *)
Definition pawnBoard : ChessRules.Board :=
  boardOf [ ChessRules.mkPieceData "wp" pawn white (mkPos 4 6) 5 ].

(* a white knight on (1,7) and a white pawn on (3,6), as in the starting
   layout *)
Definition knightBoard : ChessRules.Board :=
  boardOf [ ChessRules.mkPieceData "n" knight white (mkPos 1 7) 7;
            ChessRules.mkPieceData "p" pawn white (mkPos 3 6) 5 ].

(* the same two pieces in the server's registry *)
Definition knightAndPawn : Server.State :=
  Server.onConfirmPieceAssignment 20 "p"
    (Server.mkConfirm "p" pawn white (mkPos 3 6) (Some 5))
    (Server.onConfirmPieceAssignment 10 "n"
       (Server.mkConfirm "n" knight white (mkPos 1 7) (Some 7))
       Server.initial).

Definition whiteKnight : Server.Player :=
  Server.mkPlayer "n" knight white (mkPos 1 7) 7 10 false None false.

Definition whitePawn : Server.Player :=
  Server.mkPlayer "p" pawn white (mkPos 3 6) 5 20 false None false.

(* a white pawn "a" on (4,5) facing a black pawn "b" with 5 HP on (4,4) *)
Definition pawnDuel : Server.State :=
  Server.onConfirmPieceAssignment 20 "b"
    (Server.mkConfirm "b" pawn black (mkPos 4 4) (Some 5))
    (Server.onConfirmPieceAssignment 10 "a"
       (Server.mkConfirm "a" pawn white (mkPos 4 5) (Some 5))
       Server.initial).

(* a white knight "a" on (4,5) facing a black king "k" with 15 HP on (4,4) *)
Definition kingDuel : Server.State :=
  Server.onConfirmPieceAssignment 20 "k"
    (Server.mkConfirm "k" king black (mkPos 4 4) (Some 15))
    (Server.onConfirmPieceAssignment 10 "a"
       (Server.mkConfirm "a" knight white (mkPos 4 5) (Some 7))
       Server.initial).

Definition hpOf (st : Server.State) (id : string) : option Z :=
  option_map Server.p_hp (JsMap.get (Server.players st) id).

(* a white rook "r" on (0,0) and a white pawn "p" on (0,3) *)
Definition rookAndPawn : Server.State :=
  Server.onConfirmPieceAssignment 20 "p"
    (Server.mkConfirm "p" pawn white (mkPos 0 3) (Some 5))
    (Server.onConfirmPieceAssignment 10 "r"
       (Server.mkConfirm "r" rook white (mkPos 0 0) (Some 7))
       Server.initial).

Definition whiteRook : Server.Player :=
  Server.mkPlayer "r" rook white (mkPos 0 0) 7 10 false None false.

(* a white pawn "w" on its home square (4,6) with a black pawn "b" right in
   front of it, on (4,5) *)
Definition blockedPawn : Server.State :=
  Server.onConfirmPieceAssignment 20 "b"
    (Server.mkConfirm "b" pawn black (mkPos 4 5) (Some 5))
    (Server.onConfirmPieceAssignment 10 "w"
       (Server.mkConfirm "w" pawn white (mkPos 4 6) (Some 5))
       Server.initial).

Definition homePawn : Server.Player :=
  Server.mkPlayer "w" pawn white (mkPos 4 6) 5 10 false None false.

(* "a" registered as a white pawn on (0,6) *)
Definition oneWhitePawn : Server.State :=
  Server.onConfirmPieceAssignment 10 "a"
    (Server.mkConfirm "a" pawn white (mkPos 0 6) (Some 5)) Server.initial.

(* the pawn duel after "a" has brought "b" to 0 HP, and after "b" has then
   disconnected with its respawn timer still pending *)
Definition pawnDefeated : Server.State :=
  Server.onAbility Server.gameSettings 30
    (mkAbilityMsg "a" (mkPos 4 4) (Some 5)) pawnDuel.

Definition pawnGone : Server.State := Server.onDisconnect "b" pawnDefeated.

(* a white pawn "a" on (4,5) with a black pawn "b" with 5 HP on (4,6), the
   square the space bar aims at *)
Definition spaceDuel : Server.State :=
  Server.onConfirmPieceAssignment 20 "b"
    (Server.mkConfirm "b" pawn black (mkPos 4 6) (Some 5))
    (Server.onConfirmPieceAssignment 10 "a"
       (Server.mkConfirm "a" pawn white (mkPos 4 5) (Some 5))
       Server.initial).

(* the client's piece for "a": a white pawn whose ability was used two
   seconds ago, so three seconds of its cooldown are left *)
Definition coolingPawn : Pieces.ChessPiece :=
  Pieces.mkPiece "a" pawn white 5 (inject_Z 3).

(* a Game in which "w" stands on (3,3) beside a petal-shield loot item on
   its square and a Vine Beast on (2,3) *)
Definition shieldGame : Game.State :=
  Game.mkState
    [ ("w"%string, Game.mkPlayer "w" pawn (Some (mkPos 3 3)) 5 false false None false) ]
    [ ("loot_1"%string, Game.mkLoot "loot_1" Game.petalShield (mkPos 3 3)
                             (Game.lootDuration Game.petalShield) false) ]
    [ ("vine_1"%string, Game.mkEntity "vine_1" (mkPos 2 3) 10 true) ]
    [].

End Examples.

(** ** server.js: the starting squares and their reservation *)

Module Slots.

(* the six keys of traditionalPositions[team], in the order for...in
   visits them *)
Definition pieceTypes : list PieceType :=
  [pawn; rook; knight; bishop; queen; king].

Definition type_eqb (a b : PieceType) : bool :=
  match a, b with
  | pawn, pawn | rook, rook | knight, knight | bishop, bishop
  | queen, queen | king, king | otherType, otherType => true
  | _, _ => false
  end.

(* traditionalPositions[team][type]; a type outside the six has no entry *)
Definition traditionalPositions (team : Team) (type : PieceType)
  : list Position :=
  match team, type with
  | white, pawn => map (fun x => mkPos x 6) [0; 1; 2; 3; 4; 5; 6; 7]
  | white, rook => [mkPos 0 7; mkPos 7 7]
  | white, knight => [mkPos 1 7; mkPos 6 7]
  | white, bishop => [mkPos 2 7; mkPos 5 7]
  | white, queen => [mkPos 3 7]
  | white, king => [mkPos 4 7]
  | black, pawn => map (fun x => mkPos x 1) [0; 1; 2; 3; 4; 5; 6; 7]
  | black, rook => [mkPos 0 0; mkPos 7 0]
  | black, knight => [mkPos 1 0; mkPos 6 0]
  | black, bishop => [mkPos 2 0; mkPos 5 0]
  | black, queen => [mkPos 3 0]
  | black, king => [mkPos 4 0]
  | _, otherType => []
  end.

(* assignedPositions[team][type]: [None] until the row is first created *)
Definition Table := Team -> PieceType -> option (list bool).

Definition noneAssigned : Table := fun _ _ => None.

Definition setRow (t : Table) (team : Team) (type : PieceType)
           (row : list bool) : Table :=
  fun tm ty => if team_eqb tm team && type_eqb ty type then Some row else t tm ty.

(* row.findIndex(isAssigned => !isAssigned) *)
Fixpoint findFree (row : list bool) : option nat :=
  match row with
  | [] => None
  | false :: _ => Some O
  | true :: rest => option_map S (findFree rest)
  end.

(* positions.findIndex(pos => pos.x === position.x && pos.z === position.z) *)
Fixpoint findPosition (positions : list Position) (position : Position)
  : option nat :=
  match positions with
  | [] => None
  | p :: rest =>
      if pos_eqb p position then Some O
      else option_map S (findPosition rest position)
  end.

(* row[i] = v for an index of the row *)
Fixpoint mark (row : list bool) (i : nat) (v : bool) : list bool :=
  match row, i with
  | [], _ => []
  | _ :: rest, O => v :: rest
  | b :: rest, S i' => b :: mark rest i' v
  end.

(* what assignPieceFromTraditionalPosition returns: the type and
   traditionalPositions[team][type][index] *)
Record Assigned : Type := mkAssigned {
  as_type : PieceType;
  as_position : option Position
}.

(* the for...in loop of assignPieceFromTraditionalPosition over the types
   that are left *)
Fixpoint assignFrom (t : Table) (team : Team) (types : list PieceType)
  : Table * option Assigned :=
  match types with
  | [] => (t, None)
  | pieceType :: rest =>
      let row :=
        match t team pieceType with
        | Some r => r
        | None =>
            repeat false (List.length (traditionalPositions team pieceType))
        end in
      match findFree row with
      | Some availablePositionIndex =>
          (setRow t team pieceType (mark row availablePositionIndex true),
           Some (mkAssigned pieceType
                   (nth_error (traditionalPositions team pieceType)
                              availablePositionIndex)))
      | None => assignFrom (setRow t team pieceType row) team rest
      end
  end.

Definition assignPieceFromTraditionalPosition (t : Table) (team : Team)
  : Table * option Assigned :=
  assignFrom t team pieceTypes.

Definition releaseAssignedPosition (t : Table) (team : Team)
           (pieceType : PieceType) (position : Position) : Table :=
  match t team pieceType with
  | None => t
  | Some row =>
      match findPosition (traditionalPositions team pieceType) position with
      | Some positionIndex => setRow t team pieceType (mark row positionIndex false)
      | None => t
      end
  end.

(* the 'pieceAssignment' message *)
Record PieceAssignment : Type := mkPieceAssignment {
  pa_id : string;
  pa_type : PieceType;
  pa_team : Team;
  pa_position : option Position
}.

(* the 'requestPieceAssignment' handler; [randomType] and [randomPosition]
   are what getRandomPieceType() and getRandomPosition() return *)
Definition requestPieceAssignment (socketId : string)
           (randomType : PieceType) (randomPosition : Position)
           (players : list (string * Server.Player)) (t : Table)
  : Table * PieceAssignment :=
  let team := if Nat.even (JsMap.size players) then white else black in
  match assignPieceFromTraditionalPosition t team with
  | (t', Some assignedPiece) =>
      (t', mkPieceAssignment socketId (as_type assignedPiece) team
                             (as_position assignedPiece))
  | (t', None) =>
      (t', mkPieceAssignment socketId randomType team (Some randomPosition))
  end.

(* the 'disconnect' handler with the reservation table beside the
   registry *)
Definition onDisconnect (socketId : string) (st : Server.State) (t : Table)
  : Server.State * Table :=
  (Server.onDisconnect socketId st,
   match JsMap.get (Server.players st) socketId with
   | Some player =>
       releaseAssignedPosition t (Server.p_team player) (Server.p_type player)
                               (Server.p_position player)
   | None => t
   end).

(* is slot [i] of the team's [type] row reserved? *)
Definition taken (t : Table) (team : Team) (type : PieceType) (i : nat) : bool :=
  match t team type with
  | Some row => nth i row false
  | None => false
  end.

(* every created row is as long as the list of squares it stands for *)
Definition wellSized (t : Table) : Prop :=
  forall team type row,
    t team type = Some row ->
    List.length row = List.length (traditionalPositions team type).

End Slots.

(** ** ChessRules.js: looking a piece up and moving it *)

Module RulesUpdate.

Definition getPieceById (r : ChessRules.Rules) (id : string)
  : option ChessRules.PieceData :=
  JsMap.get (ChessRules.pieces r) id.

(* boardState[z][x] = v *)
Definition writeCell (b : ChessRules.Board) (p : Position)
           (v : option ChessRules.Cell) : ChessRules.Board :=
  let zi := Z.to_nat (pos_z p) in
  ChessRules.writeAt [] b zi
    (ChessRules.writeAt None (nth zi b []) (Z.to_nat (pos_x p)) v).

(* the old square is set to null when its row exists and the cell holds
   something *)
Definition vacate (b : ChessRules.Board) (old : Position) : ChessRules.Board :=
  if ChessRules.isValidPosition old
  then match nth_error b (Z.to_nat (pos_z old)) with
       | Some row =>
           match nth (Z.to_nat (pos_x old)) row None with
           | Some _ => writeCell b old None
           | None => b
           end
       | None => b
       end
  else b.

(* updatePiecePosition(id, newPosition): the rules after the call and the
   boolean it returns *)
Definition updatePiecePosition (r : ChessRules.Rules) (id : string)
           (newPosition : Position) : ChessRules.Rules * bool :=
  match JsMap.get (ChessRules.pieces r) id with
  | None => (r, false)
  | Some piece =>
      if negb (ChessRules.isValidPosition newPosition) then (r, false)
      else
        let b1 := vacate (ChessRules.boardState r) (ChessRules.pd_position piece) in
        let piece' :=
          ChessRules.mkPieceData (ChessRules.pd_id piece) (ChessRules.pd_type piece)
                                 (ChessRules.pd_team piece) newPosition
                                 (ChessRules.pd_hp piece) in
        let b2 := ChessRules.ensureBoardInitialized b1 in
        (ChessRules.mkRules
           (writeCell b2 newPosition
              (Some (ChessRules.mkCell id (ChessRules.pd_type piece)
                                       (ChessRules.pd_team piece))))
           (JsMap.set (ChessRules.pieces r) id piece'),
         true)
  end.

(* main.js: canMove = validMoves.some(move => move.x === newPosition.x &&
   move.z === newPosition.z) *)
Definition canMove (b : ChessRules.Board) (position newPosition : Position)
  : bool :=
  existsb (fun move => pos_eqb move newPosition)
          (ChessRules.getValidMoves b position).

End RulesUpdate.

(** ** game.js: empty squares, loot drops and the King's Call *)

Module GameEvents.

Definition isPositionEmpty (st : Game.State) (position : Position) : bool :=
  if existsb (fun kv => Game.onSquare (snd kv) position) (Game.players st)
  then false
  else if existsb (fun kv => pos_eqb (Game.en_position (snd kv)) position)
                  (Game.entities st)
       then false
       else negb (existsb (fun kv => pos_eqb (Game.loot_position (snd kv)) position)
                          (Game.lootItems st)).

(* for (x = 0; x < 8; x++) for (z = 0; z < 8; z++) { x, z } *)
Definition allSquares : list Position :=
  flat_map (fun x => map (fun z => mkPos (Z.of_nat x) (Z.of_nat z)) (seq 0 8))
           (seq 0 8).

(* [probes] are the random squares the first loop draws, at most twenty of
   them being looked at; then the whole board is searched in order *)
Definition findEmptyPosition (st : Game.State) (probes : list Position)
  : option Position :=
  match find (isPositionEmpty st) (firstn 20 probes) with
  | Some position => Some position
  | None => find (isPositionEmpty st) allSquares
  end.

(* socket.emit('lootSpawn', { id, type, position }) *)
Record LootSpawn : Type := mkLootSpawn {
  ls_id : string;
  ls_type : Game.LootType;
  ls_position : Position
}.

(* spawnLoot(isEventLoot); [lootType] and [lootId] are the random type and
   the id made from the clock and a random number *)
Definition spawnLoot (socketDefined : bool) (isEventLoot : bool)
           (probes : list Position) (lootType : Game.LootType) (lootId : string)
           (st : Game.State) : Game.State * list LootSpawn :=
  match findEmptyPosition st probes with
  | None => (st, [])
  | Some position =>
      (Game.mkState (Game.players st)
         (JsMap.set (Game.lootItems st) lootId
            (Game.mkLoot lootId lootType position (Game.lootDuration lootType)
                         isEventLoot))
         (Game.entities st) (Game.emitted st),
       if socketDefined then [mkLootSpawn lootId lootType position] else [])
  end.

(* if (p.type === 'king') p.hp = Math.min(p.hp + 5, 20) *)
Definition kingsCall (p : Game.Player) : Game.Player :=
  match Game.gp_type p with
  | king =>
      Game.mkPlayer (Game.gp_id p) (Game.gp_type p) (Game.gp_position p)
                    (Z.min (Game.gp_hp p + 5) 20)
                    (Game.gp_hasDoubleMove p) (Game.gp_hasShield p)
                    (Game.gp_shieldDuration p) (Game.gp_hasVineTrap p)
  | _ => p
  end.

Definition eventKingsCall (st : Game.State) : Game.State :=
  Game.mkState (map (fun kv => (fst kv, kingsCall (snd kv))) (Game.players st))
               (Game.lootItems st) (Game.entities st) (Game.emitted st).

End GameEvents.

(** ** server.js: the path walk towards a target that is any number *)

(* validateMove tests typeof x === 'number' and the bounds and hands the
   target on as it came, so isPathBlocked can be given an end that is not a
   square.  Here the end is a pair of rationals (every finite JS number is
   one); the start is a square of the registry.  The walk adds 1, 0 or -1
   to integers, so what it visits are squares.  (A JS sum stops growing
   past 2^53; the walk is on integers all the same and still differs from
   a fractional end.) *)
Module AnyNumber.

(* end > start ? 1 : (end < start ? -1 : 0) *)
Definition dirOf (start_ : Z) (end_ : Q) : Z :=
  if negb (Qle_bool end_ (inject_Z start_)) then 1
  else if negb (Qle_bool (inject_Z start_) end_) then -1 else 0.

(* the while loop of isPathBlocked; [None] when the steps run out before
   the loop leaves *)
Fixpoint pathLoop (ps : list (string * Server.Player))
         (currX currZ dirX dirZ : Z) (endX endZ : Q) (fuel : nat)
  : option bool :=
  match fuel with
  | O => None
  | S fuel' =>
      if negb (Qeq_bool (inject_Z currX) endX && Qeq_bool (inject_Z currZ) endZ)
      then if Server.isAnyPieceAt ps (mkPos currX currZ)
           then Some true
           else pathLoop ps (currX + dirX) (currZ + dirZ) dirX dirZ
                         endX endZ fuel'
      else Some false
  end.

(* isPathBlocked(start, end) run for [fuel] turns of the loop *)
Definition isPathBlocked (ps : list (string * Server.Player))
           (start_ : Position) (endX endZ : Q) (fuel : nat) : option bool :=
  let dirX := dirOf (pos_x start_) endX in
  let dirZ := dirOf (pos_z start_) endZ in
  pathLoop ps (pos_x start_ + dirX) (pos_z start_ + dirZ) dirX dirZ
           endX endZ fuel.

(* the number is not an integer *)
Definition fractional (q : Q) : Prop := forall k : Z, ~ (q == inject_Z k)%Q.

End AnyNumber.

(** ** Notions used to state the further properties *)

(* every registered piece stands on a board square *)
Definition allOnBoard (st : Server.State) : Prop :=
  forall id p, JsMap.get (Server.players st) id = Some p ->
               ChessRules.isValidPosition (Server.p_position p) = true.

(* [p'] is the piece [p] as far as id, type and team go *)
Definition sameIdentity (p p' : Server.Player) : Prop :=
  Server.p_id p' = Server.p_id p
  /\ Server.p_type p' = Server.p_type p
  /\ Server.p_team p' = Server.p_team p.

(* one event of the server other than a registration *)
Inductive PlayStep : Server.State -> Server.State -> Prop :=
  | play_move : forall now sid data st st',
      Server.onMove now sid data st = Some st' -> PlayStep st st'
  | play_ability : forall now data st,
      PlayStep st (Server.onAbility Server.gameSettings now data st)
  | play_disconnect : forall sid st,
      PlayStep st (Server.onDisconnect sid st)
  | play_event : forall now eventData st,
      PlayStep st (Server.onGameEvent now eventData st)
  | play_timer : forall rp st,
      Server.randomSquare rp -> PlayStep st (Server.fireTimer rp st).

(* the registry of the server and the board of the rule engine show the
   same position: a square that is empty on the board holds no registered
   piece, and an opponent on the board is a registered opponent *)
Definition boardCovers (b : ChessRules.Board) (ps : list (string * Server.Player))
  : Prop :=
  (forall q, Server.isAnyPieceAt ps q = true ->
             ChessRules.isPositionOccupied b q = true)
  /\ (forall q team, ChessRules.isOpponentPiece b q team = true ->
                     Server.isPositionOccupied ps q team = true).

(* the eight jumps of a knight and the eight steps of a king *)
Definition jumpsOf (type : PieceType) : list Position :=
  match type with
  | knight => ChessRules.knightMoves
  | king => ChessRules.kingDirections
  | _ => []
  end.

(** ** Further positions used as examples *)

Module MoreExamples.

(* every starting square of both teams is reserved *)
Definition allAssigned : Slots.Table :=
  fun team type =>
    Some (repeat true (List.length (Slots.traditionalPositions team type))).

(* "w" registered as a white pawn that stands on (0,5), one step off its
   starting square *)
Definition advancedPawn : Server.State :=
  Server.onConfirmPieceAssignment 10 "w"
    (Server.mkConfirm "w" pawn white (mkPos 0 5) (Some 5)) Server.initial.

(* the table after the first white request *)
Definition firstWhiteTaken : Slots.Table :=
  fst (Slots.assignPieceFromTraditionalPosition Slots.noneAssigned white).

(* the registry after the knight of [Examples.knightAndPawn] has moved to
   (2,5) *)
Definition afterKnightMove : Server.State :=
  match Server.onMove 30 "n" (Server.mkMove "n" (Some (mkPos 2 5)))
                      Examples.knightAndPawn with
  | Some st => st
  | None => Examples.knightAndPawn
  end.

(* the registry that goes with [Examples.rookBoard]: the white rook "r" on
   (0,0) and the black pawn "bp" on (0,3) *)
Definition rookAndBlackPawn : Server.State :=
  Server.onConfirmPieceAssignment 20 "bp"
    (Server.mkConfirm "bp" pawn black (mkPos 0 3) (Some 5))
    (Server.onConfirmPieceAssignment 10 "r"
       (Server.mkConfirm "r" rook white (mkPos 0 0) (Some 7))
       Server.initial).


End MoreExamples.

(** * Properties *)

(** ** The board behind the rule engine *)

Lemma ensureRow_idem (row : list (option ChessRules.Cell)) :
  ChessRules.ensureRow (ChessRules.ensureRow row) = ChessRules.ensureRow row.
Proof. reflexivity. Qed.

(** Normalising the board a second time changes nothing. *)
Lemma ensureBoardInitialized_idem (b : ChessRules.Board) :
  ChessRules.ensureBoardInitialized (ChessRules.ensureBoardInitialized b)
  = ChessRules.ensureBoardInitialized b.
Proof.
  unfold ChessRules.ensureBoardInitialized.
  cbn [seq map app nth_error skipn].
  repeat match goal with
         | |- context [match ?x with Some _ => _ | None => _ end] => destruct x
         end;
    rewrite ?ensureRow_idem; reflexivity.
Qed.

(** A query reads the same from the board and from the normalised board
    that getPieceAt leaves behind. *)
Lemma getPieceAt_ensure (b : ChessRules.Board) (p : Position) :
  ChessRules.getPieceAt (ChessRules.ensureBoardInitialized b) p
  = ChessRules.getPieceAt b p.
Proof.
  unfold ChessRules.getPieceAt. now rewrite ensureBoardInitialized_idem.
Qed.

(** ** The rule engine: which squares a ray, a pawn and a jump reach *)

Section RuleEngine.
Import ChessRules.

Variable b : Board.

Lemma occupied_valid (p : Position) :
  isPositionOccupied b p = true -> isValidPosition p = true.
Proof.
  unfold isPositionOccupied. destruct (isValidPosition p); congruence.
Qed.

Lemma occupied_iff_piece (p : Position) :
  isPositionOccupied b p = true <-> exists c, getPieceAt b p = Some c.
Proof.
  unfold isPositionOccupied, getPieceAt.
  destruct (isValidPosition p).
  - destruct (readCell (ensureBoardInitialized b) p) as [c|].
    + split; intros _; [now exists c | reflexivity].
    + split; [discriminate | intros [c Hc]; discriminate].
  - split; [discriminate | intros [c Hc]; discriminate].
Qed.

Lemma opponent_occupied (p : Position) (team : Team) :
  isOpponentPiece b p team = true -> isPositionOccupied b p = true.
Proof.
  unfold isOpponentPiece. intros H. apply occupied_iff_piece.
  destruct (getPieceAt b p) as [c|]; [now exists c | discriminate].
Qed.

Lemma opponent_iff_team (p : Position) (team : Team) :
  isOpponentPiece b p team = true <->
  exists c, getPieceAt b p = Some c /\ cell_team c <> team.
Proof.
  unfold isOpponentPiece. destruct (getPieceAt b p) as [c|].
  - split.
    + intros H. exists c. split; [reflexivity|].
      intros E. rewrite E in H. destruct team; discriminate.
    + intros [c' [E N]]. inversion E; subst c'.
      destruct (cell_team c), team; simpl; congruence.
  - split; [discriminate | intros [c [E _]]; discriminate].
Qed.

Lemma freeFor_not_own (team : Team) (p : Position) :
  freeFor b team p ->
  forall c, getPieceAt b p = Some c -> cell_team c <> team.
Proof.
  intros [Hfree | Hopp] c Hc.
  - assert (isPositionOccupied b p = true) by (apply occupied_iff_piece; eauto).
    congruence.
  - apply opponent_iff_team in Hopp. destruct Hopp as [c' [E N]].
    congruence.
Qed.

(** What one ray of the loop collects: the squares [i..j] are on the
    board, the ones before [j] are empty, and [j] itself is empty or holds
    an opponent. *)
Lemma castRay_In (position dir : Position) (team : Team) :
  forall (n : nat) (i : Z) (m : Position),
    In m (castRay b position dir team i n) <->
    exists j, i <= j < i + Z.of_nat n /\ m = step position dir j /\
              (forall k, i <= k <= j ->
                         isValidPosition (step position dir k) = true) /\
              (forall k, i <= k < j ->
                         isPositionOccupied b (step position dir k) = false) /\
              freeFor b team (step position dir j).
Proof.
  induction n as [|n IH]; intros i m.
  - simpl. split; [tauto | intros [j [Hj _]]; lia].
  - cbn [castRay].
    destruct (isValidPosition (step position dir i)) eqn:Hv; cbn [negb].
    + destruct (isPositionOccupied b (step position dir i)) eqn:Ho; cbn [negb].
      * destruct (isOpponentPiece b (step position dir i) team) eqn:Hp.
        -- split.
           ++ intros [E | []]. subst m. exists i.
              split; [lia|]. split; [reflexivity|]. split; [|split].
              ** intros k Hk. assert (k = i) by lia. now subst.
              ** intros k Hk. lia.
              ** now right.
           ++ intros [j [Hj [E [_ [Hfree _]]]]].
              destruct (Z.eq_dec j i) as [->|Hne]; [now left|].
              specialize (Hfree i ltac:(lia)). congruence.
        -- split; [intros [] |].
           intros [j [Hj [E [_ [Hfree Hend]]]]].
           destruct (Z.eq_dec j i) as [->|Hne].
           ++ destruct Hend; congruence.
           ++ specialize (Hfree i ltac:(lia)). congruence.
      * split.
        -- intros [E | Hin].
           ++ subst m. exists i.
              split; [lia|]. split; [reflexivity|]. split; [|split].
              ** intros k Hk. assert (k = i) by lia. now subst.
              ** intros k Hk. lia.
              ** now left.
           ++ apply IH in Hin. destruct Hin as [j [Hj [E [Hval [Hfree Hend]]]]].
              exists j.
              split; [lia|]. split; [assumption|]. split; [|split].
              ** intros k Hk. destruct (Z.eq_dec k i) as [->|]; [assumption|].
                 apply Hval. lia.
              ** intros k Hk. destruct (Z.eq_dec k i) as [->|]; [assumption|].
                 apply Hfree. lia.
              ** assumption.
        -- intros [j [Hj [E [Hval [Hfree Hend]]]]].
           destruct (Z.eq_dec j i) as [->|Hne]; [left; now subst|].
           right. apply IH. exists j.
           split; [lia|]. split; [assumption|]. split; [|split].
           ++ intros k Hk. apply Hval. lia.
           ++ intros k Hk. apply Hfree. lia.
           ++ assumption.
    + split; [intros [] |].
      intros [j [Hj [_ [Hval _]]]]. specialize (Hval i ltac:(lia)). congruence.
Qed.

Lemma castRays_In (position : Position) (team : Team)
      (directions : list Position) (m : Position) :
  In m (castRays b position team directions) <->
  exists dir, In dir directions /\ In m (castRay b position dir team 1 7).
Proof. unfold castRays. apply in_flat_map. Qed.

End RuleEngine.

Section Rays.
Import ChessRules.

Lemma isValidPosition_iff (p : Position) :
  isValidPosition p = true <-> (0 <= pos_x p < 8 /\ 0 <= pos_z p < 8).
Proof.
  unfold isValidPosition.
  rewrite !andb_true_iff, !Z.leb_le, !Z.ltb_lt. lia.
Qed.

Lemma piece_on_board (b : Board) (p : Position) (c : Cell) :
  getPieceAt b p = Some c -> isValidPosition p = true.
Proof.
  unfold getPieceAt. destruct (isValidPosition p); congruence.
Qed.

(* two rays from one square share no square *)
Lemma rays_disjoint (position dir dir' : Position) (j j' : Z) :
  In dir (rookDirections ++ bishopDirections) ->
  In dir' (rookDirections ++ bishopDirections) ->
  1 <= j -> 1 <= j' ->
  step position dir j = step position dir' j' ->
  dir = dir' /\ j = j'.
Proof.
  unfold step. intros Hd Hd' Hj Hj' E.
  injection E as Ex Ez.
  cbn in Hd, Hd'.
  repeat (destruct Hd as [<-|Hd]; [|]); try contradiction;
    repeat (destruct Hd' as [<-|Hd']; [|]); try contradiction;
    cbn [pos_x pos_z] in Ex, Ez;
    first [ split; [reflexivity | lia] | exfalso; lia ].
Qed.

Lemma rayDirections_all (type : PieceType) (dir : Position) :
  In dir (rayDirections type) -> In dir (rookDirections ++ bishopDirections).
Proof.
  destruct type; cbn [rayDirections]; intros H;
    try contradiction; try assumption; apply in_or_app; auto.
Qed.

(* along a ray's direction the squares between two board squares are on
   the board *)
Lemma step_between_valid (position dir : Position) (k j : Z) :
  In dir (rookDirections ++ bishopDirections) ->
  isValidPosition position = true ->
  isValidPosition (step position dir k) = true ->
  0 <= j <= k ->
  isValidPosition (step position dir j) = true.
Proof.
  rewrite !isValidPosition_iff. unfold step. cbn [pos_x pos_z].
  intros Hd Hp Hk Hj. cbn in Hd.
  repeat (destruct Hd as [<-|Hd]; [cbn [pos_x pos_z] in *; lia|]).
  contradiction.
Qed.

Lemma step_valid_lt_8 (position dir : Position) (k : Z) :
  In dir (rookDirections ++ bishopDirections) ->
  isValidPosition position = true ->
  isValidPosition (step position dir k) = true ->
  0 <= k -> k < 8.
Proof.
  rewrite !isValidPosition_iff. unfold step. cbn [pos_x pos_z].
  intros Hd Hp Hk Hj. cbn in Hd.
  repeat (destruct Hd as [<-|Hd]; [cbn [pos_x pos_z] in *; lia|]).
  contradiction.
Qed.

(* the destinations of a rook, a bishop or a queen are what its rays
   collect *)
Lemma ray_piece_moves (b : Board) (position : Position) (piece : Cell)
      (m : Position) :
  getPieceAt b position = Some piece ->
  rayDirections (cell_type piece) <> [] ->
  (In m (getValidMoves b position) <->
   exists dir, In dir (rayDirections (cell_type piece)) /\
               In m (castRay b position dir (cell_team piece) 1 7)).
Proof.
  intros Hp Hray. unfold getValidMoves.
  rewrite (piece_on_board _ _ _ Hp), Hp. cbn [negb].
  destruct (cell_type piece); cbn [rayDirections] in *; try congruence.
  - apply castRays_In.
  - apply castRays_In.
  - unfold getQueenMoves, getRookMoves, getBishopMoves.
    rewrite in_app_iff, !castRays_In. split.
    + intros [[d [Hd Hin]] | [d [Hd Hin]]]; exists d; split; auto;
        apply in_or_app; auto.
    + intros [d [Hd Hin]]. apply in_app_or in Hd.
      destruct Hd; [left | right]; exists d; auto.
Qed.

End Rays.

(** The rule engine, for a rook, a bishop or a queen and each direction of
    its ray-cast: when the [k]-th square along the direction is the first
    occupied one, no square further along that direction is a destination,
    and that [k]-th square is a destination exactly when its occupant
    belongs to the other team. *)
Lemma rule_engine_rays :
  forall (b : ChessRules.Board) (position : Position) (piece : ChessRules.Cell)
         (dir : Position) (k : Z),
    ChessRules.getPieceAt b position = Some piece ->
    In dir (rayDirections (ChessRules.cell_type piece)) ->
    firstOccupied b position dir k ->
    (forall j, k < j ->
       ~ In (ChessRules.step position dir j) (ChessRules.getValidMoves b position))
    /\ (In (ChessRules.step position dir k) (ChessRules.getValidMoves b position)
        <-> exists occupant,
              ChessRules.getPieceAt b (ChessRules.step position dir k) = Some occupant
              /\ ChessRules.cell_team occupant <> ChessRules.cell_team piece).
Proof.
  intros b position piece dir k Hp Hdir [Hk [Hocc Hbefore]].
  assert (Hne : rayDirections (ChessRules.cell_type piece) <> [])
    by (intros E; rewrite E in Hdir; contradiction).
  pose proof (rayDirections_all _ _ Hdir) as Hall.
  pose proof (piece_on_board _ _ _ Hp) as Hvalid.
  split.
  - intros j Hj Hin.
    apply (ray_piece_moves b position piece _ Hp Hne) in Hin.
    destruct Hin as [dir' [Hdir' Hin]].
    apply castRay_In in Hin.
    destruct Hin as [j' [Hj' [E [_ [Hfree _]]]]].
    destruct (rays_disjoint position dir dir' j j' Hall
                (rayDirections_all _ _ Hdir') ltac:(lia) ltac:(lia) E)
      as [<- <-].
    specialize (Hfree k ltac:(lia)). congruence.
  - rewrite <- opponent_iff_team.
    rewrite (ray_piece_moves b position piece _ Hp Hne). split.
    + intros [dir' [Hdir' Hin]].
      apply castRay_In in Hin.
      destruct Hin as [j' [Hj' [E [_ [_ Hend]]]]].
      destruct (rays_disjoint position dir dir' k j' Hall
                  (rayDirections_all _ _ Hdir') ltac:(lia) ltac:(lia) E)
        as [<- <-].
      destruct Hend as [Hfree | Hopp]; [congruence | assumption].
    + intros Hopp. exists dir. split; [assumption|].
      apply castRay_In. exists k.
      pose proof (occupied_valid _ _ Hocc) as Hkvalid.
      pose proof (step_valid_lt_8 position dir k Hall Hvalid Hkvalid ltac:(lia)).
      split; [cbn; lia|]. split; [reflexivity|]. split; [|split].
      * intros j Hj.
        apply (step_between_valid position dir k j Hall Hvalid Hkvalid). lia.
      * intros j Hj. apply Hbefore. lia.
      * right. assumption.
Qed.

Section Pawns.
Import ChessRules.

Lemma isStartingRow_iff (team : Team) (p : Position) :
  isStartingRow team p = true <->
  pos_z p = match team with white => 6 | black => 1 end.
Proof. destruct team; cbn; apply Z.eqb_eq. Qed.

Lemma getPawnMoves_In (b : Board) (position : Position) (team : Team)
      (d : Position) :
  let one := mkPos (pos_x position) (pos_z position + direction team) in
  let two := mkPos (pos_x position) (pos_z position + 2 * direction team) in
  In d (getPawnMoves b position team) <->
  (d = one /\ isValidPosition one = true /\ isPositionOccupied b one = false)
  \/ (d = two /\ isStartingRow team position = true
      /\ isValidPosition one = true /\ isPositionOccupied b one = false
      /\ isValidPosition two = true /\ isPositionOccupied b two = false)
  \/ ((d = mkPos (pos_x position - 1) (pos_z position + direction team)
       \/ d = mkPos (pos_x position + 1) (pos_z position + direction team))
      /\ isValidPosition d = true /\ isOpponentPiece b d team = true).
Proof.
  intros one two. unfold getPawnMoves. fold one. fold two.
  rewrite in_app_iff, filter_In, andb_true_iff. cbn [In].
  destruct (isValidPosition one) eqn:V1;
    destruct (isPositionOccupied b one) eqn:O1; cbn [andb negb];
    try (destruct (isStartingRow team position) eqn:S;
         [ destruct (isValidPosition two) eqn:V2;
           destruct (isPositionOccupied b two) eqn:O2; cbn [andb negb] | ]);
    cbn [In]; intuition (subst; try congruence; auto).
Qed.

End Pawns.

(** The rule engine's destinations of a pawn are exactly: the square one
    step forward (z - 1 for white, z + 1 for black) when it is on the board
    and empty; the square two steps forward when the pawn stands on its home
    row (row 6 for white, row 1 for black) and both the square between and
    the target are empty; and a forward diagonal neighbour when an opponent
    stands on it. *)
Lemma rule_engine_pawn :
  forall (b : ChessRules.Board) (position : Position) (piece : ChessRules.Cell)
         (d : Position),
    ChessRules.getPieceAt b position = Some piece ->
    ChessRules.cell_type piece = pawn ->
    let dz := match ChessRules.cell_team piece with white => -1 | black => 1 end in
    let home := match ChessRules.cell_team piece with white => 6 | black => 1 end in
    let one := mkPos (pos_x position) (pos_z position + dz) in
    let two := mkPos (pos_x position) (pos_z position + 2 * dz) in
    In d (ChessRules.getValidMoves b position) <->
    (d = one /\ ChessRules.isValidPosition one = true
     /\ ChessRules.isPositionOccupied b one = false)
    \/ (d = two /\ pos_z position = home
        /\ ChessRules.isPositionOccupied b one = false
        /\ ChessRules.isPositionOccupied b two = false)
    \/ ((d = mkPos (pos_x position - 1) (pos_z position + dz)
         \/ d = mkPos (pos_x position + 1) (pos_z position + dz))
        /\ exists occupant,
             ChessRules.getPieceAt b d = Some occupant
             /\ ChessRules.cell_team occupant <> ChessRules.cell_team piece).
Proof.
  intros b position piece d Hp Htype dz home one two.
  pose proof (piece_on_board _ _ _ Hp) as Hvalid.
  unfold ChessRules.getValidMoves. rewrite Hvalid, Hp, Htype. cbn [negb].
  rewrite getPawnMoves_In.
  assert (Hdz : ChessRules.direction (ChessRules.cell_team piece) = dz)
    by (subst dz; destruct (ChessRules.cell_team piece); reflexivity).
  rewrite Hdz. fold one. fold two.
  rewrite isStartingRow_iff. fold home.
  rewrite opponent_iff_team.
  apply isValidPosition_iff in Hvalid.
  split.
  - intros [H | [H | H]].
    + left. exact H.
    + right. left. tauto.
    + right. right. tauto.
  - intros [H | [[E [Hhome [O1 O2]]] | [E [occ [Hocc Hteam]]]]].
    + left. exact H.
    + right. left. repeat split; try assumption;
        apply isValidPosition_iff; subst one two dz home; cbn [pos_x pos_z];
        destruct (ChessRules.cell_team piece); lia.
    + right. right. split; [assumption|]. split; [|eauto].
      exact (piece_on_board _ _ _ Hocc).
Qed.

Section Destinations.
Import ChessRules.

Lemma offsetMoves_In (b : Board) (position : Position) (team : Team)
      (offsets : list Position) (m : Position) :
  In m (offsetMoves b position team offsets) <->
  (exists o, In o offsets
             /\ m = mkPos (pos_x position + pos_x o) (pos_z position + pos_z o))
  /\ isValidPosition m = true /\ freeFor b team m.
Proof.
  unfold offsetMoves, freeFor.
  rewrite filter_In, in_map_iff, andb_true_iff, orb_true_iff, negb_true_iff.
  split.
  - intros [[o [E Ho]] H]. split; [exists o; auto | exact H].
  - intros [[o [Ho E]] H]. split; [exists o; auto | exact H].
Qed.

(** Every destination the rule engine lists is a board square that is
    empty or held by the other team. *)
Lemma valid_moves_sound (b : Board) (position : Position) (piece : Cell)
      (d : Position) :
  getPieceAt b position = Some piece ->
  In d (getValidMoves b position) ->
  isValidPosition d = true /\ freeFor b (cell_team piece) d.
Proof.
  intros Hp. unfold getValidMoves.
  rewrite (piece_on_board _ _ _ Hp), Hp. cbn [negb].
  assert (Hray : forall dirs,
             In d (castRays b position (cell_team piece) dirs) ->
             isValidPosition d = true /\ freeFor b (cell_team piece) d).
  { intros dirs Hin. apply castRays_In in Hin. destruct Hin as [dir [_ Hin]].
    apply castRay_In in Hin. destruct Hin as [j [Hj [-> [Hval [_ Hend]]]]].
    split; [apply Hval; lia | exact Hend]. }
  destruct (cell_type piece).
  - rewrite getPawnMoves_In. unfold freeFor.
    intros [[-> [V O]] | [[-> [_ [_ [_ [V O]]]]] | [_ [V O]]]]; auto.
  - apply Hray.
  - unfold getKnightMoves. rewrite offsetMoves_In. tauto.
  - apply Hray.
  - unfold getQueenMoves. rewrite in_app_iff. intros [H | H]; eapply Hray; eauto.
  - unfold getKingMoves. rewrite offsetMoves_In. tauto.
  - intros [].
Qed.

End Destinations.

Section ServerMoves.
Import Server.

Lemma validateMove_off_board (ps : list (string * Player)) (player : Player)
      (np : Position) :
  ChessRules.isValidPosition np = false ->
  validateMove ps player (Some np) = Some false.
Proof.
  intros H. unfold validateMove.
  assert (E : (pos_x np <? 0) || (pos_x np >=? 8) || (pos_z np <? 0)
              || (pos_z np >=? 8) = true).
  { destruct (ChessRules.isValidPosition np) eqn:V; [discriminate|].
    unfold ChessRules.isValidPosition in V.
    rewrite !orb_true_iff, !Z.ltb_lt, !Z.geb_le.
    rewrite !andb_false_iff, !Z.leb_gt, !Z.ltb_ge in V. lia. }
  now rewrite E.
Qed.

(* the loop leaves when the end is a whole number of steps ahead *)
Lemma pathLoop_total (ps : list (string * Player)) (dirX dirZ endX endZ : Z) :
  forall (k : nat) (currX currZ : Z) (fuel : nat),
    endX = currX + Z.of_nat k * dirX ->
    endZ = currZ + Z.of_nat k * dirZ ->
    (k < fuel)%nat ->
    exists r, pathLoop ps currX currZ dirX dirZ endX endZ fuel = Some r.
Proof.
  induction k as [|k IH]; intros currX currZ fuel EX EZ Hf;
    (destruct fuel as [|fuel]; [lia|]); cbn [pathLoop].
  - replace (currX =? endX) with true by (symmetry; apply Z.eqb_eq; lia).
    replace (currZ =? endZ) with true by (symmetry; apply Z.eqb_eq; lia).
    cbn. eauto.
  - destruct (negb ((currX =? endX) && (currZ =? endZ))); [|eauto].
    destruct (isAnyPieceAt ps (mkPos currX currZ)); [eauto|].
    apply IH; lia.
Qed.

Lemma isPathBlocked_total (ps : list (string * Player)) (start_ end_ : Position) :
  let distX := Z.abs (pos_x end_ - pos_x start_) in
  let distZ := Z.abs (pos_z end_ - pos_z start_) in
  distX = 0 \/ distZ = 0 \/ distX = distZ ->
  exists r, isPathBlocked ps start_ end_ = Some r.
Proof.
  intros distX distZ Hshape. unfold isPathBlocked.
  apply (pathLoop_total ps _ _ _ _ (Nat.pred (Z.to_nat (Z.max distX distZ))));
    subst distX distZ; unfold dirOf;
    repeat match goal with
           | |- context [?a >? ?b] => destruct (Z.gtb_spec a b)
           | |- context [?a <? ?b] => destruct (Z.ltb_spec a b)
           end; lia.
Qed.

(** validateMove returns on every board and every request. *)
Lemma validateMove_total (ps : list (string * Player)) (player : Player)
      (newPosition : option Position) :
  exists r, validateMove ps player newPosition = Some r.
Proof.
  unfold validateMove. destruct newPosition as [np|]; [|eauto].
  destruct ((pos_x np <? 0) || (pos_x np >=? 8) || (pos_z np <? 0)
            || (pos_z np >=? 8)); [eauto|].
  assert (Hand : forall shape,
             (shape = true ->
              Z.abs (pos_x np - pos_x (p_position player)) = 0
              \/ Z.abs (pos_z np - pos_z (p_position player)) = 0
              \/ Z.abs (pos_x np - pos_x (p_position player))
                 = Z.abs (pos_z np - pos_z (p_position player))) ->
             exists r, andNotBlocked shape ps (p_position player) np = Some r).
  { intros shape Hs. unfold andNotBlocked. destruct shape; [|eauto].
    destruct (isPathBlocked_total ps (p_position player) np (Hs eq_refl))
      as [r Hr].
    rewrite Hr. cbn. eauto. }
  destruct (p_type player); eauto; apply Hand;
    rewrite ?orb_true_iff, ?Z.eqb_eq; tauto.
Qed.

End ServerMoves.

(** The spec's scenarios, run on the rule engine. *)
Example rook_scenario :
  ChessRules.castRay Examples.rookBoard (mkPos 0 0) (mkPos 0 1) white 1 7
  = [mkPos 0 1; mkPos 0 2; mkPos 0 3].
Proof. reflexivity. Qed.

Example pawn_scenario :
  ChessRules.getValidMoves Examples.pawnBoard (mkPos 4 6)
  = [mkPos 4 5; mkPos 4 4].
Proof. reflexivity. Qed.

Example knight_scenario :
  ChessRules.getValidMoves Examples.knightBoard (mkPos 1 7)
  = [mkPos 2 5; mkPos 0 5].
Proof. reflexivity. Qed.

(** ** The server's move validation along a line *)

Section ServerRays.
Import Server.

Lemma off_board_fails_bounds (np : Position) :
  ChessRules.isValidPosition np = false ->
  (pos_x np <? 0) || (pos_x np >=? 8) || (pos_z np <? 0) || (pos_z np >=? 8) = true.
Proof.
  intros V. unfold ChessRules.isValidPosition in V.
  rewrite !orb_true_iff, !Z.ltb_lt, !Z.geb_le.
  rewrite !andb_false_iff, !Z.leb_gt, !Z.ltb_ge in V. lia.
Qed.

Lemma on_board_passes_bounds (np : Position) :
  ChessRules.isValidPosition np = true ->
  (pos_x np <? 0) || (pos_x np >=? 8) || (pos_z np <? 0) || (pos_z np >=? 8) = false.
Proof.
  intros H. apply isValidPosition_iff in H.
  rewrite !orb_false_iff, !Z.ltb_ge, !Z.geb_leb, !Z.leb_gt. lia.
Qed.

(* the loop reports a piece exactly when one stands on a square it visits *)
Lemma pathLoop_spec (ps : list (string * Player)) (dirX dirZ : Z) :
  dirX <> 0 \/ dirZ <> 0 ->
  forall (k : nat) (currX currZ : Z) (fuel : nat),
    (k < fuel)%nat ->
    exists r,
      pathLoop ps currX currZ dirX dirZ
               (currX + Z.of_nat k * dirX) (currZ + Z.of_nat k * dirZ) fuel
      = Some r
      /\ (r = true <->
          exists j, 0 <= j < Z.of_nat k
                    /\ isAnyPieceAt ps (mkPos (currX + j * dirX) (currZ + j * dirZ))
                       = true).
Proof.
  intros Hdir. induction k as [|k IH]; intros currX currZ fuel Hf;
    (destruct fuel as [|fuel]; [lia|]); cbn [pathLoop].
  - replace (currX + Z.of_nat 0 * dirX) with currX by (cbn; lia).
    replace (currZ + Z.of_nat 0 * dirZ) with currZ by (cbn; lia).
    rewrite !Z.eqb_refl. cbn. exists false. split; [reflexivity|].
    split; [discriminate | intros [j [Hj _]]; lia].
  - assert (Hne : (currX =? currX + Z.of_nat (S k) * dirX)
                  && (currZ =? currZ + Z.of_nat (S k) * dirZ) = false).
    { apply andb_false_iff.
      destruct Hdir as [Hx | Hz]; [left | right]; apply Z.eqb_neq; nia. }
    rewrite Hne. cbn [negb].
    destruct (isAnyPieceAt ps (mkPos currX currZ)) eqn:Hhere.
    + exists true. split; [reflexivity|]. split; [|reflexivity].
      intros _. exists 0. split; [lia|].
      now replace (currX + 0 * dirX) with currX by lia;
        replace (currZ + 0 * dirZ) with currZ by lia.
    + destruct (IH (currX + dirX) (currZ + dirZ) fuel ltac:(lia)) as [r [Hr Hspec]].
      replace (currX + dirX + Z.of_nat k * dirX)
        with (currX + Z.of_nat (S k) * dirX) in Hr by lia.
      replace (currZ + dirZ + Z.of_nat k * dirZ)
        with (currZ + Z.of_nat (S k) * dirZ) in Hr by lia.
      exists r. split; [assumption|]. rewrite Hspec. split.
      * intros [j [Hj Hp]]. exists (j + 1). split; [lia|].
        now replace (currX + (j + 1) * dirX) with (currX + dirX + j * dirX) by lia;
          replace (currZ + (j + 1) * dirZ) with (currZ + dirZ + j * dirZ) by lia.
      * intros [j [Hj Hp]].
        destruct (Z.eq_dec j 0) as [->|Hj0].
        -- replace (currX + 0 * dirX) with currX in Hp by lia.
           replace (currZ + 0 * dirZ) with currZ in Hp by lia. congruence.
        -- exists (j - 1). split; [lia|].
           now replace (currX + dirX + (j - 1) * dirX) with (currX + j * dirX) by lia;
             replace (currZ + dirZ + (j - 1) * dirZ) with (currZ + j * dirZ) by lia.
Qed.

(* isPathBlocked from a square to the [n]-th square along a direction *)
Lemma isPathBlocked_along (ps : list (string * Player)) (position dir : Position)
      (n : Z) :
  In dir (ChessRules.rookDirections ++ ChessRules.bishopDirections) ->
  1 <= n ->
  exists r,
    isPathBlocked ps position (ChessRules.step position dir n) = Some r
    /\ (r = true <->
        exists i, 1 <= i < n
                  /\ isAnyPieceAt ps (ChessRules.step position dir i) = true).
Proof.
  intros Hdir Hn.
  assert (Hd : dirOf (pos_x position) (pos_x (ChessRules.step position dir n))
               = pos_x dir
               /\ dirOf (pos_z position) (pos_z (ChessRules.step position dir n))
                  = pos_z dir
               /\ Z.max (Z.abs (pos_x (ChessRules.step position dir n) - pos_x position))
                        (Z.abs (pos_z (ChessRules.step position dir n) - pos_z position))
                  = n
               /\ (pos_x dir <> 0 \/ pos_z dir <> 0)).
  { unfold dirOf, ChessRules.step. cbn [pos_x pos_z]. cbn in Hdir.
    repeat (destruct Hdir as [<-|Hdir];
            [cbn [pos_x pos_z];
             repeat match goal with
                    | |- context [?a >? ?b] => destruct (Z.gtb_spec a b)
                    | |- context [?a <? ?b] => destruct (Z.ltb_spec a b)
                    end; lia|]).
    contradiction. }
  destruct Hd as [Hdx [Hdz [Hmax Hnz]]].
  unfold isPathBlocked. rewrite Hdx, Hdz, Hmax.
  destruct (pathLoop_spec ps (pos_x dir) (pos_z dir) Hnz (Z.to_nat (n - 1))
              (pos_x position + pos_x dir) (pos_z position + pos_z dir)
              (S (Z.to_nat n)) ltac:(lia)) as [r [Hr Hspec]].
  replace (pos_x position + pos_x dir + Z.of_nat (Z.to_nat (n - 1)) * pos_x dir)
    with (pos_x (ChessRules.step position dir n)) in Hr
    by (unfold ChessRules.step; cbn [pos_x]; rewrite Z2Nat.id by lia; ring).
  replace (pos_z position + pos_z dir + Z.of_nat (Z.to_nat (n - 1)) * pos_z dir)
    with (pos_z (ChessRules.step position dir n)) in Hr
    by (unfold ChessRules.step; cbn [pos_z]; rewrite Z2Nat.id by lia; ring).
  exists r. split; [assumption|]. rewrite Hspec. split.
  - intros [j [Hj Hp]]. exists (j + 1). split; [lia|].
    unfold ChessRules.step.
    now replace (pos_x position + pos_x dir * (j + 1))
      with (pos_x position + pos_x dir + j * pos_x dir) by lia;
      replace (pos_z position + pos_z dir * (j + 1))
        with (pos_z position + pos_z dir + j * pos_z dir) by lia.
  - intros [i [Hi Hp]]. exists (i - 1). split; [lia|].
    unfold ChessRules.step in Hp.
    now replace (pos_x position + pos_x dir + (i - 1) * pos_x dir)
      with (pos_x position + pos_x dir * i) by lia;
      replace (pos_z position + pos_z dir + (i - 1) * pos_z dir)
        with (pos_z position + pos_z dir * i) by lia.
Qed.

(* the verdict on the [n]-th square along a direction of the piece: the
   move passes exactly when no piece stands strictly between *)
Lemma validateMove_along (ps : list (string * Player)) (player : Player)
      (dir : Position) (n : Z) :
  In dir (rayDirections (p_type player)) ->
  1 <= n ->
  ChessRules.isValidPosition (ChessRules.step (p_position player) dir n) = true ->
  exists r,
    validateMove ps player (Some (ChessRules.step (p_position player) dir n))
    = Some r
    /\ (r = false <->
        exists i, 1 <= i < n
                  /\ isAnyPieceAt ps (ChessRules.step (p_position player) dir i)
                     = true).
Proof.
  intros Hdir Hn Hvalid.
  destruct (isPathBlocked_along ps (p_position player) dir n
              (rayDirections_all _ _ Hdir) Hn) as [r [Hr Hspec]].
  exists (negb r). split.
  - unfold validateMove. rewrite (on_board_passes_bounds _ Hvalid).
    assert (Hshape : forall shape,
               shape = true ->
               andNotBlocked shape ps (p_position player)
                             (ChessRules.step (p_position player) dir n)
               = Some (negb r)).
    { intros shape ->. unfold andNotBlocked. now rewrite Hr. }
    destruct (p_type player); cbn [rayDirections] in Hdir;
      try contradiction; apply Hshape;
      try apply in_app_or in Hdir;
      unfold ChessRules.step; cbn [pos_x pos_z]; cbn in Hdir;
      rewrite ?orb_true_iff, ?Z.eqb_eq;
      repeat match goal with
             | H : _ \/ _ |- _ => destruct H as [H | H]
             | H : mkPos _ _ = dir |- _ => rewrite <- H; cbn [pos_x pos_z]
             | H : False |- _ => contradiction
             end;
      lia.
  - rewrite <- Hspec. destruct r; cbn; split; congruence.
Qed.

End ServerRays.

Section ServerPawn.
Import Server.

(* what the server accepts from a pawn *)
Lemma validateMove_pawn (ps : list (string * Player)) (player : Player)
      (np : Position) :
  p_type player = pawn ->
  let dz := match p_team player with white => -1 | black => 1 end in
  let home := match p_team player with white => 6 | black => 1 end in
  let x := pos_x (p_position player) in
  let z := pos_z (p_position player) in
  validateMove ps player (Some np) = Some true <->
  ChessRules.isValidPosition np = true
  /\ ((pos_x np = x /\ pos_z np = z + dz)
      \/ (pos_x np = x /\ z = home /\ pos_z np = z + 2 * dz)
      \/ ((pos_x np = x - 1 \/ pos_x np = x + 1) /\ pos_z np = z + dz
          /\ isPositionOccupied ps np (p_team player) = true)).
Proof.
  intros Htype dz home x z. unfold validateMove. rewrite Htype.
  destruct (ChessRules.isValidPosition np) eqn:V.
  2:{ rewrite (off_board_fails_bounds np V).
      split; [discriminate | intros [H _]; discriminate]. }
  rewrite (on_board_passes_bounds np V).
  fold x z. subst dz home.
  destruct (isPositionOccupied ps np (p_team player)) eqn:Hocc;
    destruct (p_team player);
    repeat match goal with
           | |- context [?a =? ?b] => destruct (Z.eqb_spec a b)
           end; cbn [andb];
    (split; [intros H; split; [reflexivity|]; try discriminate; lia
            | intros [_ H]; try reflexivity; exfalso; lia]).
Qed.

End ServerPawn.

(** ** The move claims *)

(** C1, as the code has it.  An off-board destination is illegal for both
    judges and every piece type: the server's validateMove returns false on
    it and the rule engine never lists it.  A square held by a piece of the
    mover's own team is never listed by the rule engine; the server's
    verdict on a knight or a king does not look at the registry at all. *)
Theorem off_board_or_own_team_is_illegal :
  (forall (ps : list (string * Server.Player)) (player : Server.Player)
          (np : Position),
      ChessRules.isValidPosition np = false ->
      Server.validateMove ps player (Some np) = Some false)
  /\ (forall (b : ChessRules.Board) (position : Position)
             (piece : ChessRules.Cell) (d : Position),
         ChessRules.getPieceAt b position = Some piece ->
         (ChessRules.isValidPosition d = false
          \/ exists occupant,
               ChessRules.getPieceAt b d = Some occupant
               /\ ChessRules.cell_team occupant = ChessRules.cell_team piece) ->
         ~ In d (ChessRules.getValidMoves b position))
  /\ (forall (ps ps' : list (string * Server.Player)) (player : Server.Player)
             (np : option Position),
         Server.p_type player = knight \/ Server.p_type player = king ->
         Server.validateMove ps player np = Server.validateMove ps' player np).
Proof.
  split; [|split].
  - exact validateMove_off_board.
  - intros b position piece d Hp Hbad Hin.
    destruct (valid_moves_sound b position piece d Hp Hin) as [Hv Hfree].
    destruct Hbad as [Hoff | [occ [Hocc Hteam]]].
    + congruence.
    + exact (freeFor_not_own b _ _ Hfree occ Hocc Hteam).
  - intros ps ps' player np [H | H]; unfold Server.validateMove; now rewrite H.
Qed.

Lemma off_board_or_own_team_is_illegal_witness :
  Server.validateMove (Server.players Examples.knightAndPawn)
                      Examples.whiteKnight (Some (mkPos 3 8)) = Some false
  /\ ~ In (mkPos 3 6)
          (ChessRules.getValidMoves Examples.knightBoard (mkPos 1 7))
  /\ Server.validateMove (Server.players Examples.knightAndPawn)
                         Examples.whiteKnight (Some (mkPos 3 6))
     = Server.validateMove [] Examples.whiteKnight (Some (mkPos 3 6)).
Proof.
  split; [|split].
  - apply (proj1 off_board_or_own_team_is_illegal). reflexivity.
  - apply (proj1 (proj2 off_board_or_own_team_is_illegal) Examples.knightBoard
                 (mkPos 1 7) (ChessRules.mkCell "n" knight white) (mkPos 3 6)).
    + reflexivity.
    + right. exists (ChessRules.mkCell "p" pawn white). split; reflexivity.
  - apply (proj2 (proj2 off_board_or_own_team_is_illegal)). left. reflexivity.
Defined.

(** C1 as stated fails on the server: with a white knight on (1,7) and a
    white pawn on (3,6), both registered, validateMove accepts the knight's
    move onto the pawn's square. *)
Lemma validateMove_accepts_own_team_square :
  JsMap.get (Server.players Examples.knightAndPawn) "n" = Some Examples.whiteKnight
  /\ JsMap.get (Server.players Examples.knightAndPawn) "p" = Some Examples.whitePawn
  /\ Server.p_position Examples.whitePawn = mkPos 3 6
  /\ Server.p_team Examples.whitePawn = Server.p_team Examples.whiteKnight
  /\ Server.validateMove (Server.players Examples.knightAndPawn)
                         Examples.whiteKnight (Some (mkPos 3 6)) = Some true.
Proof. repeat split. Qed.

(** C2, as the code has it.  In the rule engine, for a rook, a bishop or a
    queen and each direction of its ray-cast, no square past the first
    occupied one is a legal destination, and the first occupied square is
    one exactly when its occupant belongs to the other team.  The server's
    validateMove also rejects every square past the first occupied one, but
    it accepts the first occupied square, if on the board, whoever holds it. *)
Theorem ray_stops_at_first_occupied :
  (forall (b : ChessRules.Board) (position : Position) (piece : ChessRules.Cell)
          (dir : Position) (k : Z),
      ChessRules.getPieceAt b position = Some piece ->
      In dir (rayDirections (ChessRules.cell_type piece)) ->
      firstOccupied b position dir k ->
      (forall j, k < j ->
         ~ In (ChessRules.step position dir j) (ChessRules.getValidMoves b position))
      /\ (In (ChessRules.step position dir k) (ChessRules.getValidMoves b position)
          <-> exists occupant,
                ChessRules.getPieceAt b (ChessRules.step position dir k)
                = Some occupant
                /\ ChessRules.cell_team occupant <> ChessRules.cell_team piece))
  /\ (forall (ps : list (string * Server.Player)) (player : Server.Player)
             (dir : Position) (k : Z),
         In dir (rayDirections (Server.p_type player)) ->
         firstOccupiedOnServer ps (Server.p_position player) dir k ->
         (forall j, k < j ->
            Server.validateMove ps player
              (Some (ChessRules.step (Server.p_position player) dir j))
            = Some false)
         /\ (ChessRules.isValidPosition
               (ChessRules.step (Server.p_position player) dir k) = true ->
             Server.validateMove ps player
               (Some (ChessRules.step (Server.p_position player) dir k))
             = Some true)).
Proof.
  split; [exact rule_engine_rays|].
  intros ps player dir k Hdir [Hk [Hocc Hbefore]]. split.
  - intros j Hj.
    destruct (ChessRules.isValidPosition
                (ChessRules.step (Server.p_position player) dir j)) eqn:V.
    + destruct (validateMove_along ps player dir j Hdir ltac:(lia) V)
        as [r [Hr Hspec]].
      rewrite Hr. f_equal. apply Hspec. exists k. split; [lia | assumption].
    + now apply validateMove_off_board.
  - intros V.
    destruct (validateMove_along ps player dir k Hdir Hk V) as [r [Hr Hspec]].
    rewrite Hr. f_equal. destruct r; [reflexivity|].
    destruct (proj1 Hspec eq_refl) as [i [Hi Hp]].
    rewrite (Hbefore i Hi) in Hp. discriminate.
Qed.

Lemma ray_stops_at_first_occupied_witness :
  ((forall j, 3 < j ->
      ~ In (ChessRules.step (mkPos 0 0) (mkPos 0 1) j)
           (ChessRules.getValidMoves Examples.rookBoard (mkPos 0 0)))
   /\ (In (ChessRules.step (mkPos 0 0) (mkPos 0 1) 3)
          (ChessRules.getValidMoves Examples.rookBoard (mkPos 0 0))
       <-> exists occupant,
             ChessRules.getPieceAt Examples.rookBoard
                                   (ChessRules.step (mkPos 0 0) (mkPos 0 1) 3)
             = Some occupant
             /\ ChessRules.cell_team occupant
                <> ChessRules.cell_team (ChessRules.mkCell "r" rook white)))
  /\ (forall j, 3 < j ->
        Server.validateMove (Server.players Examples.rookAndPawn)
                            Examples.whiteRook
                            (Some (ChessRules.step (mkPos 0 0) (mkPos 0 1) j))
        = Some false).
Proof.
  assert (Hfirst : forall j : Z, 1 <= j < 3 -> j = 1 \/ j = 2) by lia.
  split.
  - apply (proj1 ray_stops_at_first_occupied Examples.rookBoard (mkPos 0 0)
                 (ChessRules.mkCell "r" rook white) (mkPos 0 1) 3).
    + reflexivity.
    + cbn. auto.
    + split; [lia|]. split; [reflexivity|].
      intros j Hj. destruct (Hfirst j Hj); subst j; reflexivity.
  - apply (proj2 ray_stops_at_first_occupied (Server.players Examples.rookAndPawn)
                 Examples.whiteRook (mkPos 0 1) 3).
    + cbn. auto.
    + split; [lia|]. split; [reflexivity|].
      intros j Hj. destruct (Hfirst j Hj); subst j; reflexivity.
Defined.

(** C2 as stated fails on the server: a white rook on (0,0) and a white
    pawn on (0,3), nothing between them.  The pawn's square is the first
    occupied one along +z and its occupant is of the rook's own team, yet
    validateMove accepts the rook's move onto it. *)
Lemma validateMove_accepts_own_piece_at_ray_end :
  JsMap.get (Server.players Examples.rookAndPawn) "r" = Some Examples.whiteRook
  /\ Server.isAnyPieceAt (Server.players Examples.rookAndPawn) (mkPos 0 1) = false
  /\ Server.isAnyPieceAt (Server.players Examples.rookAndPawn) (mkPos 0 2) = false
  /\ JsMap.get (Server.players Examples.rookAndPawn) "p"
     = Some (Server.mkPlayer "p" pawn white (mkPos 0 3) 5 20 false None false)
  /\ Server.validateMove (Server.players Examples.rookAndPawn)
                         Examples.whiteRook (Some (mkPos 0 3)) = Some true.
Proof. repeat split. Qed.

(** C3, as the code has it.  In the rule engine the legal destinations of a
    pawn are exactly: one square forward (z - 1 for white, z + 1 for black)
    when that square is on the board and empty; two squares forward when the
    pawn stands on its home row (6 for white, 1 for black) and the square
    between and the target are both empty; a forward diagonal neighbour when
    an opponent stands on it.  The server's validateMove accepts from a pawn
    exactly the board squares one step forward, two steps forward from the
    home row, and a forward diagonal neighbour on which an opponent stands:
    it does not ask the forward squares to be empty. *)
Theorem pawn_destinations_exact :
  (forall (b : ChessRules.Board) (position : Position) (piece : ChessRules.Cell)
          (d : Position),
      ChessRules.getPieceAt b position = Some piece ->
      ChessRules.cell_type piece = pawn ->
      let dz := match ChessRules.cell_team piece with white => -1 | black => 1 end in
      let home := match ChessRules.cell_team piece with white => 6 | black => 1 end in
      let one := mkPos (pos_x position) (pos_z position + dz) in
      let two := mkPos (pos_x position) (pos_z position + 2 * dz) in
      In d (ChessRules.getValidMoves b position) <->
      (d = one /\ ChessRules.isValidPosition one = true
       /\ ChessRules.isPositionOccupied b one = false)
      \/ (d = two /\ pos_z position = home
          /\ ChessRules.isPositionOccupied b one = false
          /\ ChessRules.isPositionOccupied b two = false)
      \/ ((d = mkPos (pos_x position - 1) (pos_z position + dz)
           \/ d = mkPos (pos_x position + 1) (pos_z position + dz))
          /\ exists occupant,
               ChessRules.getPieceAt b d = Some occupant
               /\ ChessRules.cell_team occupant <> ChessRules.cell_team piece))
  /\ (forall (ps : list (string * Server.Player)) (player : Server.Player)
             (np : Position),
         Server.p_type player = pawn ->
         let dz := match Server.p_team player with white => -1 | black => 1 end in
         let home := match Server.p_team player with white => 6 | black => 1 end in
         let x := pos_x (Server.p_position player) in
         let z := pos_z (Server.p_position player) in
         Server.validateMove ps player (Some np) = Some true <->
         ChessRules.isValidPosition np = true
         /\ ((pos_x np = x /\ pos_z np = z + dz)
             \/ (pos_x np = x /\ z = home /\ pos_z np = z + 2 * dz)
             \/ ((pos_x np = x - 1 \/ pos_x np = x + 1) /\ pos_z np = z + dz
                 /\ Server.isPositionOccupied ps np (Server.p_team player) = true))).
Proof.
  split; [exact rule_engine_pawn | exact validateMove_pawn].
Qed.

Lemma pawn_destinations_exact_witness :
  In (mkPos 4 4) (ChessRules.getValidMoves Examples.pawnBoard (mkPos 4 6))
  /\ Server.validateMove (Server.players Examples.blockedPawn) Examples.homePawn
                         (Some (mkPos 4 4)) = Some true.
Proof.
  split.
  - apply (proj1 pawn_destinations_exact Examples.pawnBoard (mkPos 4 6)
                 (ChessRules.mkCell "wp" pawn white) (mkPos 4 4) eq_refl eq_refl).
    right. left. repeat split.
  - apply (proj2 pawn_destinations_exact (Server.players Examples.blockedPawn)
                 Examples.homePawn (mkPos 4 4) eq_refl).
    split; [reflexivity|]. right. left. repeat split.
Defined.

(** C3 as stated fails on the server: the white pawn "w" stands on (4,6)
    and the black pawn "b" right in front of it on (4,5).  validateMove
    accepts the step onto the occupied square (4,5) and the double step to
    (4,4) over it. *)
Lemma validateMove_accepts_blocked_pawn_steps :
  JsMap.get (Server.players Examples.blockedPawn) "w" = Some Examples.homePawn
  /\ Server.isAnyPieceAt (Server.players Examples.blockedPawn) (mkPos 4 5) = true
  /\ Server.validateMove (Server.players Examples.blockedPawn) Examples.homePawn
                         (Some (mkPos 4 5)) = Some true
  /\ Server.validateMove (Server.players Examples.blockedPawn) Examples.homePawn
                         (Some (mkPos 4 4)) = Some true.
Proof. repeat split. Qed.

(** ** The map operations *)

Section MapFacts.
Context {V : Type}.
Implicit Types (m : list (string * V)) (k : string) (v : V).

Lemma get_set_eq m k v : JsMap.get (JsMap.set m k v) k = Some v.
Proof.
  induction m as [|[k' v'] m IH]; cbn.
  - now rewrite String.eqb_refl.
  - destruct (String.eqb k' k) eqn:E; cbn.
    + now rewrite String.eqb_refl.
    + now rewrite E.
Qed.

Lemma get_set_neq m k k' v :
  k <> k' -> JsMap.get (JsMap.set m k v) k' = JsMap.get m k'.
Proof.
  intros Hne. induction m as [|[k0 v0] m IH]; cbn.
  - apply String.eqb_neq in Hne. now rewrite Hne.
  - destruct (String.eqb k0 k) eqn:E; cbn.
    + apply String.eqb_eq in E. subst k0.
      apply String.eqb_neq in Hne. now rewrite Hne.
    + destruct (String.eqb k0 k'); auto.
Qed.

Lemma set_set m k v v' : JsMap.set (JsMap.set m k v) k v' = JsMap.set m k v'.
Proof.
  induction m as [|[k0 v0] m IH]; cbn.
  - now rewrite String.eqb_refl.
  - destruct (String.eqb k0 k) eqn:E; cbn.
    + now rewrite String.eqb_refl.
    + now rewrite E, IH.
Qed.

Lemma keys_set_present m k v v0 :
  JsMap.get m k = Some v0 -> JsMap.keys (JsMap.set m k v) = JsMap.keys m.
Proof.
  unfold JsMap.keys. induction m as [|[k0 v1] m IH]; cbn; [discriminate|].
  destruct (String.eqb k0 k) eqn:E; cbn.
  - apply String.eqb_eq in E. now subst.
  - intros H. now rewrite (IH H).
Qed.

Lemma keys_set_absent m k v :
  JsMap.get m k = None -> JsMap.keys (JsMap.set m k v) = JsMap.keys m ++ [k].
Proof.
  unfold JsMap.keys. induction m as [|[k0 v1] m IH]; cbn; [reflexivity|].
  destruct (String.eqb k0 k) eqn:E; cbn; [discriminate|].
  intros H. now rewrite (IH H).
Qed.

Lemma get_None_not_key m k : JsMap.get m k = None -> ~ In k (JsMap.keys m).
Proof.
  unfold JsMap.keys. induction m as [|[k0 v0] m IH]; cbn; [tauto|].
  destruct (String.eqb k0 k) eqn:E; [discriminate|].
  apply String.eqb_neq in E. intros H [H0 | H0]; [congruence | now apply IH].
Qed.

Lemma get_In m k v : JsMap.get m k = Some v -> In (k, v) m.
Proof.
  induction m as [|[k0 v0] m IH]; cbn; [discriminate|].
  destruct (String.eqb k0 k) eqn:E.
  - apply String.eqb_eq in E. intros H. inversion H. subst. now left.
  - intros H. right. now apply IH.
Qed.

Lemma In_get m k v :
  NoDup (JsMap.keys m) -> In (k, v) m -> JsMap.get m k = Some v.
Proof.
  unfold JsMap.keys. induction m as [|[k0 v0] m IH]; cbn; [tauto|].
  intros Hnd [H | H].
  - inversion H. subst. now rewrite String.eqb_refl.
  - inversion Hnd as [|? ? Hnotin Hnd']. subst.
    destruct (String.eqb k0 k) eqn:E.
    + apply String.eqb_eq in E. subst k0. exfalso. apply Hnotin.
      change (In (fst (k, v)) (map fst m)). now apply in_map.
    + now apply IH.
Qed.

Lemma get_delete_eq m k : JsMap.get (JsMap.delete m k) k = None.
Proof.
  unfold JsMap.delete. induction m as [|[k0 v0] m IH]; cbn; [reflexivity|].
  destruct (String.eqb k0 k) eqn:E; cbn; [assumption|].
  now rewrite E.
Qed.

Lemma get_delete_neq m k k' :
  k <> k' -> JsMap.get (JsMap.delete m k) k' = JsMap.get m k'.
Proof.
  intros Hne. unfold JsMap.delete.
  induction m as [|[k0 v0] m IH]; cbn; [reflexivity|].
  destruct (String.eqb k0 k) eqn:E; cbn.
  - apply String.eqb_eq in E. subst k0.
    apply String.eqb_neq in Hne. now rewrite Hne.
  - now rewrite IH.
Qed.

Lemma set_In m k v k' v' :
  In (k', v') (JsMap.set m k v) -> (k' = k /\ v' = v) \/ In (k', v') m.
Proof.
  induction m as [|[k0 v0] m IH]; cbn.
  - intros [H | []]. inversion H. auto.
  - destruct (String.eqb k0 k) eqn:E; cbn.
    + intros [H | H]; [inversion H; auto | auto].
    + intros [H | H]; [auto | destruct (IH H); auto].
Qed.

End MapFacts.

(** ** The registry under the ability handler *)

Section AbilityFacts.
Import Server.

Lemma wellKeyed_set (m : list (string * Player)) (k : string) (v v0 : Player) :
  wellKeyed m -> JsMap.get m k = Some v0 -> p_id v = k ->
  wellKeyed (JsMap.set m k v).
Proof.
  intros [Hnd Hid] Hget Hv. split.
  - now rewrite (keys_set_present m k v v0 Hget).
  - intros k' p' Hin. apply set_In in Hin.
    destruct Hin as [[-> ->] | Hin]; [assumption | now apply Hid].
Qed.

Lemma NoDup_snoc {A : Type} (l : list A) (a : A) :
  NoDup l -> ~ In a l -> NoDup (l ++ [a]).
Proof.
  induction l as [|x l IH]; cbn; intros Hnd Hnotin.
  - constructor; [tauto | constructor].
  - inversion Hnd as [|? ? Hx Hl]. subst. constructor.
    + rewrite in_app_iff. cbn. intros [H | [H | []]]; [tauto | subst; tauto].
    + apply IH; tauto.
Qed.

Lemma wellKeyed_set_new (m : list (string * Player)) (k : string) (v : Player) :
  wellKeyed m -> JsMap.get m k = None -> p_id v = k ->
  wellKeyed (JsMap.set m k v).
Proof.
  intros [Hnd Hid] Hget Hv. split.
  - rewrite (keys_set_absent m k v Hget).
    apply NoDup_snoc; [assumption | now apply get_None_not_key].
  - intros k' p' Hin. apply set_In in Hin.
    destruct Hin as [[-> ->] | Hin]; [assumption | now apply Hid].
Qed.

Lemma wellKeyed_delete (m : list (string * Player)) (k : string) :
  wellKeyed m -> wellKeyed (JsMap.delete m k).
Proof.
  intros [Hnd Hid]. unfold JsMap.delete. split.
  - unfold JsMap.keys in *. induction m as [|[k0 v0] m IH]; cbn; [constructor|].
    inversion Hnd as [|? ? Hnotin Hnd']. subst.
    destruct (negb (String.eqb k0 k)); cbn.
    + constructor.
      * intros Hin. apply Hnotin. apply in_map_iff in Hin.
        destruct Hin as [kv [E Hin]]. apply filter_In in Hin.
        apply in_map_iff. exists kv. tauto.
      * apply IH; [assumption|]. intros k' p' Hin. apply Hid. now right.
    + apply IH; [assumption|]. intros k' p' Hin. apply Hid. now right.
  - intros k' p' Hin. apply filter_In in Hin. now apply Hid.
Qed.

Variable gs : Settings.
Variable now : Z.
Variable attacker : Player.
Variable damage : option Z.

Local Abbreviation d := (orDefault damage 1).

(* what one pass of the forEach body does to the registry and the timers *)
Lemma hitTarget_hit (st : State) (t : string) (tp : Player) :
  JsMap.get (players st) t = Some tp ->
  skips gs attacker tp = false ->
  exists tp',
    players (hitTarget gs now attacker damage st t) = JsMap.set (players st) t tp'
    /\ p_id tp' = p_id tp /\ p_type tp' = p_type tp /\ p_team tp' = p_team tp
    /\ p_position tp' = p_position tp
    /\ p_hp tp' = hpAfterHit gs d (p_hp tp)
    /\ timers (hitTarget gs now attacker damage st t)
       = timers st ++ (if (p_hp tp - d <=? 0) && respawnEnabled gs
                       then [mkTimer (now + respawnTime gs * 1000) (p_id tp)]
                       else [])
    /\ eventLog (hitTarget gs now attacker damage st t)
       = eventLog st ++ LogAbility now (p_id attacker) t d
                     :: (if p_hp tp - d <=? 0
                         then [LogDefeat now (p_id tp) (p_id attacker)] else [])
    /\ emitted (hitTarget gs now attacker damage st t) = emitted st.
Proof.
  intros Hget Hskip. unfold hitTarget, skips in *. rewrite Hget, Hskip.
  fold d. unfold hpAfterHit. cbn [withHp p_hp].
  destruct (p_hp tp - d <=? 0) eqn:Hd; cbn [andb].
  - unfold handlePlayerDefeat. cbn [players eventLog timers emitted].
    destruct (respawnEnabled gs); cbn [negb players eventLog timers emitted];
      rewrite set_set; eexists; repeat split;
      rewrite <- ?app_assoc, ?app_nil_r; reflexivity.
  - cbn [players eventLog timers emitted].
    eexists. repeat split. now rewrite app_nil_r.
Qed.

Lemma hitTarget_skip (st : State) (t : string) :
  match JsMap.get (players st) t with
  | Some tp => skips gs attacker tp = true
  | None => True
  end ->
  hitTarget gs now attacker damage st t = st.
Proof.
  unfold hitTarget, skips. destruct (JsMap.get (players st) t) as [tp|]; auto.
  intros ->. reflexivity.
Qed.

Lemma pendingFor_app (id : string) (st : State) (extra : list Timer)
      (ps : list (string * Player)) (log : list LogEntry) (em : list Emit) :
  pendingFor id (mkState ps log (timers st ++ extra) em)
  = (pendingFor id st
     + List.length (filter (fun t => String.eqb (tm_id t) id) extra))%nat.
Proof.
  unfold pendingFor. cbn [timers]. now rewrite filter_app, length_app.
Qed.

(* one pass, seen from every id of the registry *)
Lemma hitTarget_step (st : State) (t : string) :
  wellKeyed (players st) ->
  let st1 := hitTarget gs now attacker damage st t in
  wellKeyed (players st1)
  /\ (forall id p,
         JsMap.get (players st) id = Some p ->
         exists p',
           JsMap.get (players st1) id = Some p'
           /\ p_team p' = p_team p /\ p_position p' = p_position p
           /\ p_hp p' = if String.eqb id t && negb (skips gs attacker p)
                        then hpAfterHit gs d (p_hp p) else p_hp p)
  /\ (forall id, JsMap.get (players st) id = None ->
                 JsMap.get (players st1) id = None)
  /\ (forall id,
         pendingFor id st1
         = (pendingFor id st
            + match JsMap.get (players st) id with
              | Some p => if String.eqb id t && negb (skips gs attacker p)
                          then timersAfterHit gs d (p_hp p) else 0
              | None => 0
              end)%nat).
Proof.
  intros Hwk st1.
  destruct (JsMap.get (players st) t) as [tp|] eqn:Hget.
  2:{ assert (E : st1 = st)
        by (subst st1; apply hitTarget_skip; now rewrite Hget).
      rewrite E. split; [assumption|]. split; [|split].
      - intros id p Hp. exists p. repeat split; try assumption.
        destruct (String.eqb_spec id t) as [->|]; [congruence | reflexivity].
      - auto.
      - intros id. destruct (JsMap.get (players st) id) eqn:Hid; [|lia].
        destruct (String.eqb_spec id t) as [->|]; [congruence | cbn; lia]. }
  destruct (skips gs attacker tp) eqn:Hskip.
  { assert (E : st1 = st)
      by (subst st1; apply hitTarget_skip; now rewrite Hget).
    rewrite E. split; [assumption|]. split; [|split].
    - intros id p Hp. exists p. repeat split; try assumption.
      destruct (String.eqb_spec id t) as [->|]; [|reflexivity].
      assert (p = tp) by congruence. subst p. now rewrite Hskip.
    - auto.
    - intros id. destruct (JsMap.get (players st) id) as [p|] eqn:Hid; [|lia].
      destruct (String.eqb_spec id t) as [->|]; [|cbn; lia].
      assert (p = tp) by congruence. subst p. rewrite Hskip. cbn. lia. }
  destruct (hitTarget_hit st t tp Hget Hskip)
    as [tp' [Hps [Hid' [_ [Hteam [Hpos [Hhp [Htm _]]]]]]]].
  fold st1 in Hps, Htm.
  assert (Hkey : p_id tp = t) by (apply (proj2 Hwk); now apply get_In).
  split; [|split; [|split]].
  - rewrite Hps. apply (wellKeyed_set _ _ _ tp); congruence.
  - intros id p Hp. rewrite Hps.
    destruct (String.eqb_spec id t) as [->|Hne].
    + assert (p = tp) by congruence. subst p.
      exists tp'. rewrite get_set_eq, Hskip. cbn. auto.
    + exists p. rewrite get_set_neq by congruence. cbn. auto.
  - intros id Hnone. rewrite Hps.
    destruct (String.eqb_spec id t) as [->|Hne]; [congruence|].
    now rewrite get_set_neq by congruence.
  - intros id. unfold pendingFor at 1. rewrite Htm, filter_app, length_app.
    fold (pendingFor id st). f_equal.
    unfold timersAfterHit.
    destruct (String.eqb_spec id t) as [->|Hne].
    + rewrite Hget, Hskip. cbn [andb negb].
      destruct ((p_hp tp - d <=? 0) && respawnEnabled gs); cbn; [|reflexivity].
      rewrite Hkey, String.eqb_refl. reflexivity.
    + assert (E : List.length
                    (filter (fun t0 => String.eqb (tm_id t0) id)
                       (if (p_hp tp - d <=? 0) && respawnEnabled gs
                        then [mkTimer (now + respawnTime gs * 1000) (p_id tp)]
                        else [])) = 0%nat).
      { destruct ((p_hp tp - d <=? 0) && respawnEnabled gs); cbn; [|reflexivity].
        rewrite Hkey. destruct (String.eqb_spec t id); [congruence | reflexivity]. }
      rewrite E. destruct (JsMap.get (players st) id); reflexivity.
Qed.

End AbilityFacts.

Section AbilityFold.
Import Server.

Variable gs : Settings.
Variable now : Z.
Variable attacker : Player.
Variable damage : option Z.

Local Abbreviation d := (orDefault damage 1).

Lemma existsb_eqb_In (id : string) (l : list string) :
  existsb (String.eqb id) l = true <-> In id l.
Proof.
  rewrite existsb_exists. split.
  - intros [x [Hin E]]. apply String.eqb_eq in E. now subst.
  - intros Hin. exists id. split; [assumption | apply String.eqb_refl].
Qed.

Lemma existsb_eqb_notin (id : string) (l : list string) :
  ~ In id l -> existsb (String.eqb id) l = false.
Proof.
  intros H. destruct (existsb (String.eqb id) l) eqn:E; [|reflexivity].
  apply existsb_eqb_In in E. contradiction.
Qed.

(* the whole forEach, seen from every id of the registry: the ids among
   the targets that are not passed over are hit once, the others are left
   as they were *)
Lemma fold_hitTarget (targets : list string) :
  forall st : State,
    NoDup targets -> wellKeyed (players st) ->
    let st' := fold_left (hitTarget gs now attacker damage) targets st in
    wellKeyed (players st')
    /\ (forall id p,
           JsMap.get (players st) id = Some p ->
           exists p',
             JsMap.get (players st') id = Some p'
             /\ p_team p' = p_team p /\ p_position p' = p_position p
             /\ p_hp p' = if existsb (String.eqb id) targets
                             && negb (skips gs attacker p)
                          then hpAfterHit gs d (p_hp p) else p_hp p)
    /\ (forall id, JsMap.get (players st) id = None ->
                   JsMap.get (players st') id = None)
    /\ (forall id,
           pendingFor id st'
           = (pendingFor id st
              + match JsMap.get (players st) id with
                | Some p => if existsb (String.eqb id) targets
                               && negb (skips gs attacker p)
                            then timersAfterHit gs d (p_hp p) else 0
                | None => 0
                end)%nat).
Proof.
  induction targets as [|t ts IH]; intros st Hnd Hwk; cbn [fold_left].
  - split; [assumption|]. split; [|split].
    + intros id p Hp. exists p. cbn. auto.
    + auto.
    + intros id. destruct (JsMap.get (players st) id); cbn; lia.
  - inversion Hnd as [|? ? Hnotin Hnd']. subst.
    destruct (hitTarget_step gs now attacker damage st t Hwk)
      as [Hwk1 [Hp1 [Hn1 Ht1]]].
    destruct (IH (hitTarget gs now attacker damage st t) Hnd' Hwk1)
      as [Hwk' [Hp' [Hn' Ht']]].
    fold d in Hp1, Ht1.
    split; [assumption|]. split; [|split].
    + intros id p Hp.
      destruct (Hp1 id p Hp) as [p1 [Hg1 [Hteam1 [Hpos1 Hhp1]]]].
      destruct (Hp' id p1 Hg1) as [p' [Hg' [Hteam' [Hpos' Hhp']]]].
      exists p'. split; [assumption|]. split; [congruence|].
      split; [congruence|].
      assert (Hsk : skips gs attacker p1 = skips gs attacker p)
        by (unfold skips; now rewrite Hteam1).
      rewrite Hsk in Hhp'. cbn [existsb].
      destruct (String.eqb_spec id t) as [->|Hne]; cbn [orb andb] in *.
      * rewrite (existsb_eqb_notin t ts Hnotin) in Hhp'. cbn [andb] in Hhp'.
        congruence.
      * rewrite Hhp', Hhp1. reflexivity.
    + intros id Hnone. apply Hn', Hn1, Hnone.
    + intros id. rewrite Ht', Ht1. rewrite <- Nat.add_assoc. f_equal.
      destruct (JsMap.get (players st) id) as [p|] eqn:Hp.
      * destruct (Hp1 id p Hp) as [p1 [Hg1 [Hteam1 [_ Hhp1]]]].
        rewrite Hg1.
        assert (Hsk : skips gs attacker p1 = skips gs attacker p)
          by (unfold skips; now rewrite Hteam1).
        rewrite Hsk. cbn [existsb].
        destruct (String.eqb_spec id t) as [->|Hne]; cbn [orb andb] in *.
        -- rewrite (existsb_eqb_notin t ts Hnotin). cbn [andb]. lia.
        -- rewrite Hhp1. cbn. reflexivity.
      * rewrite (Hn1 id Hp). reflexivity.
Qed.

Lemma findTargets_NoDup (ps : list (string * Player)) (position : Position)
      (team : Team) :
  NoDup (JsMap.keys ps) -> NoDup (findTargetsAtPosition gs ps position team).
Proof.
  unfold findTargetsAtPosition, JsMap.keys.
  induction ps as [|[k v] ps IH]; cbn; [constructor|].
  intros Hnd. inversion Hnd as [|? ? Hnotin Hnd']. subst.
  match goal with |- context [if ?c then _ else _] => destruct c end; cbn.
  - constructor; [|now apply IH].
    intros Hin. apply Hnotin. apply in_map_iff in Hin.
    destruct Hin as [kv [E Hin]]. apply filter_In in Hin.
    apply in_map_iff. exists kv. tauto.
  - now apply IH.
Qed.

Lemma findTargets_In (ps : list (string * Player)) (position : Position)
      (team : Team) (id : string) (p : Player) :
  NoDup (JsMap.keys ps) -> JsMap.get ps id = Some p ->
  existsb (String.eqb id) (findTargetsAtPosition gs ps position team)
  = pos_eqb (p_position p) position
    && negb (negb (friendlyFire gs) && team_eqb (p_team p) team).
Proof.
  intros Hnd Hget.
  destruct (pos_eqb (p_position p) position
            && negb (negb (friendlyFire gs) && team_eqb (p_team p) team)) eqn:E.
  - apply existsb_eqb_In. unfold findTargetsAtPosition.
    apply in_map_iff. exists (id, p). split; [reflexivity|].
    apply filter_In. split; [now apply get_In | exact E].
  - apply existsb_eqb_notin. unfold findTargetsAtPosition.
    intros Hin. apply in_map_iff in Hin. destruct Hin as [[k v] [Ek Hin]].
    cbn in Ek. subst k. apply filter_In in Hin. destruct Hin as [Hin Hf].
    cbn [snd] in Hf. rewrite (In_get ps id v Hnd Hin) in Hget.
    inversion Hget. subst v. congruence.
Qed.

End AbilityFold.

Section Handlers.
Import Server.

Lemma onAbility_players (gs : Settings) (now : Z) (data : AbilityMsg) (st : State)
      (attacker : Player) :
  JsMap.get (players st) (am_id data) = Some attacker ->
  players (onAbility gs now data st)
  = players (fold_left (hitTarget gs now attacker (am_damage data))
               (findTargetsAtPosition gs (players st) (am_target data)
                                      (p_team attacker)) st)
  /\ timers (onAbility gs now data st)
     = timers (fold_left (hitTarget gs now attacker (am_damage data))
                 (findTargetsAtPosition gs (players st) (am_target data)
                                        (p_team attacker)) st).
Proof. intros H. unfold onAbility. rewrite H. split; reflexivity. Qed.

Lemma wellKeyed_initial : wellKeyed (players initial).
Proof. split; [constructor | intros k p []]. Qed.

Lemma wellKeyed_confirm (now : Z) (sid : string) (data : ConfirmData) (st : State) :
  wellKeyed (players st) ->
  wellKeyed (players (onConfirmPieceAssignment now sid data st)).
Proof.
  intros Hwk. unfold onConfirmPieceAssignment. cbn [players].
  destruct (JsMap.get (players st) (cd_id data)) as [p0|] eqn:E.
  - now apply (wellKeyed_set _ _ _ p0).
  - now apply wellKeyed_set_new.
Qed.

Lemma wellKeyed_move (now : Z) (sid : string) (data : MoveData) (st st' : State) :
  wellKeyed (players st) -> onMove now sid data st = Some st' ->
  wellKeyed (players st').
Proof.
  intros Hwk. unfold onMove.
  destruct (JsMap.get (players st) (md_id data)) as [player|] eqn:E.
  2:{ intros H. inversion H. now subst. }
  destruct (validateMove (players st) player (md_position data)) as [[|]|];
    [destruct (md_position data) as [np|] | | ]; intros H; inversion H;
    subst; cbn [players]; try assumption.
  apply (wellKeyed_set _ _ _ player); [assumption | assumption |].
  cbn. apply (proj2 Hwk). now apply get_In.
Qed.

Lemma wellKeyed_ability (gs : Settings) (now : Z) (data : AbilityMsg) (st : State) :
  wellKeyed (players st) -> wellKeyed (players (onAbility gs now data st)).
Proof.
  intros Hwk.
  destruct (JsMap.get (players st) (am_id data)) as [attacker|] eqn:E.
  - rewrite (proj1 (onAbility_players gs now data st attacker E)).
    apply fold_hitTarget; [|assumption].
    apply findTargets_NoDup, Hwk.
  - unfold onAbility. now rewrite E.
Qed.

Lemma wellKeyed_respawn (rp : Position) (id : string) (st : State) :
  wellKeyed (players st) -> wellKeyed (players (respawnCallback rp id st)).
Proof.
  intros Hwk. unfold respawnCallback.
  destruct (JsMap.has (players st) id); [|assumption].
  destruct (JsMap.get (players st) id) as [player|] eqn:E; [|assumption].
  cbn [players]. apply (wellKeyed_set _ _ _ player); [assumption | assumption |].
  cbn. apply (proj2 Hwk). now apply get_In.
Qed.

(** In every state the handlers can reach, each id keys one record, its own. *)
Lemma reachable_wellKeyed (st : State) : Reachable st -> wellKeyed (players st).
Proof.
  induction 1.
  - apply wellKeyed_initial.
  - now apply wellKeyed_confirm.
  - eapply wellKeyed_move; eauto.
  - now apply wellKeyed_ability.
  - unfold onDisconnect. cbn [players]. now apply wellKeyed_delete.
  - assumption.
  - unfold fireTimer. destruct (timers st) as [|t rest]; [assumption|].
    now apply wellKeyed_respawn.
Qed.

End Handlers.

(** C10.  For an ability message from a registered id, every piece that
    stands on the target square and belongs to the other team loses the
    damage the message carries when that is a number other than 0, and
    loses 1 when the field is 0 or absent; every other piece keeps its
    health.  The attacker's piece type does not enter. *)
Theorem ability_damage_comes_from_the_message :
  forall (now : Z) (data : AbilityMsg) (st : Server.State)
         (attacker : Server.Player),
    Server.wellKeyed (Server.players st) ->
    JsMap.get (Server.players st) (am_id data) = Some attacker ->
    forall (id : string) (p : Server.Player),
      JsMap.get (Server.players st) id = Some p ->
      exists p',
        JsMap.get (Server.players (Server.onAbility Server.gameSettings now data st)) id
        = Some p'
        /\ Server.p_hp p' =
           if pos_eqb (Server.p_position p) (am_target data)
              && negb (team_eqb (Server.p_team p) (Server.p_team attacker))
           then Server.p_hp p - match am_damage data with
                                | Some v => if v =? 0 then 1 else v
                                | None => 1
                                end
           else Server.p_hp p.
Proof.
  intros now data st attacker Hwk Hatt id p Hp.
  rewrite (proj1 (onAbility_players _ now data st attacker Hatt)).
  destruct (fold_hitTarget Server.gameSettings now attacker (am_damage data)
              (Server.findTargetsAtPosition Server.gameSettings (Server.players st)
                 (am_target data) (Server.p_team attacker))
              st (findTargets_NoDup _ _ _ _ (proj1 Hwk)) Hwk)
    as [_ [Hplayers _]].
  destruct (Hplayers id p Hp) as [p' [Hg [_ [_ Hhp]]]].
  exists p'. split; [assumption|].
  rewrite Hhp, (findTargets_In _ _ _ _ id p (proj1 Hwk) Hp).
  unfold skips, hpAfterHit, Server.orDefault. cbn.
  destruct (pos_eqb (Server.p_position p) (am_target data)); cbn; [|reflexivity].
  destruct (team_eqb (Server.p_team p) (Server.p_team attacker)); cbn;
    [reflexivity|].
  now rewrite andb_false_r.
Qed.

Lemma ability_damage_comes_from_the_message_witness :
  exists p',
    JsMap.get (Server.players
                 (Server.onAbility Server.gameSettings 30
                    (mkAbilityMsg "a" (mkPos 4 4) (Some 9)) Examples.kingDuel)) "k"
    = Some p'
    /\ Server.p_hp p' = 15 - 9.
Proof.
  apply (ability_damage_comes_from_the_message 30
           (mkAbilityMsg "a" (mkPos 4 4) (Some 9)) Examples.kingDuel
           (Server.mkPlayer "a" knight white (mkPos 4 5) 7 10 false None false)
           (reachable_wellKeyed _
              (Server.reach_confirm _ _ _ _
                 (Server.reach_confirm _ _ _ _ Server.reach_initial)))
           eq_refl "k"
           (Server.mkPlayer "k" king black (mkPos 4 4) 15 20 false None false)
           eq_refl).
Defined.

(** C5, as the code has it.  For an ability message from a registered id,
    each piece on the target square that belongs to the other team and whose
    health the hit leaves at 0 or below gets one more respawn timer, whether
    or not it was already defeated and waiting; for every other piece the
    number of pending timers stays as it was. *)
Theorem each_lethal_hit_schedules_a_respawn :
  forall (now : Z) (data : AbilityMsg) (st : Server.State)
         (attacker : Server.Player),
    Server.wellKeyed (Server.players st) ->
    JsMap.get (Server.players st) (am_id data) = Some attacker ->
    forall (id : string) (p : Server.Player),
      JsMap.get (Server.players st) id = Some p ->
      Server.pendingFor id (Server.onAbility Server.gameSettings now data st)
      = (Server.pendingFor id st
         + if pos_eqb (Server.p_position p) (am_target data)
              && negb (team_eqb (Server.p_team p) (Server.p_team attacker))
              && (Server.p_hp p - Server.orDefault (am_damage data) 1 <=? 0)%Z
           then 1 else 0)%nat.
Proof.
  intros now data st attacker Hwk Hatt id p Hp.
  unfold Server.pendingFor at 1.
  rewrite (proj2 (onAbility_players _ now data st attacker Hatt)).
  destruct (fold_hitTarget Server.gameSettings now attacker (am_damage data)
              (Server.findTargetsAtPosition Server.gameSettings (Server.players st)
                 (am_target data) (Server.p_team attacker))
              st (findTargets_NoDup _ _ _ _ (proj1 Hwk)) Hwk)
    as [_ [_ [_ Htimers]]].
  specialize (Htimers id). unfold Server.pendingFor at 1 in Htimers.
  rewrite Htimers, Hp, (findTargets_In _ _ _ _ id p (proj1 Hwk) Hp).
  unfold skips, timersAfterHit. cbn.
  destruct (pos_eqb (Server.p_position p) (am_target data)); cbn; [|reflexivity].
  destruct (team_eqb (Server.p_team p) (Server.p_team attacker)); cbn;
    [reflexivity|].
  now rewrite andb_true_r.
Qed.

Lemma each_lethal_hit_schedules_a_respawn_witness :
  Server.pendingFor "b"
    (Server.onAbility Server.gameSettings 30
       (mkAbilityMsg "a" (mkPos 4 4) (Some 5)) Examples.pawnDuel)
  = 1%nat.
Proof.
  apply (each_lethal_hit_schedules_a_respawn 30
           (mkAbilityMsg "a" (mkPos 4 4) (Some 5)) Examples.pawnDuel
           (Server.mkPlayer "a" pawn white (mkPos 4 5) 5 10 false None false)
           (reachable_wellKeyed _
              (Server.reach_confirm _ _ _ _
                 (Server.reach_confirm _ _ _ _ Server.reach_initial)))
           eq_refl "b"
           (Server.mkPlayer "b" pawn black (mkPos 4 4) 5 20 false None false)
           eq_refl).
Defined.

(** C5 as stated fails: the pawn "b" is brought to 0 HP by a first hit,
    which marks it as respawning and schedules a timer; a second hit on the
    defeated pawn runs the defeat handling again, and two respawn timers are
    pending for the one piece in a state the handlers reach. *)
Lemma second_hit_schedules_second_respawn :
  let hit := mkAbilityMsg "a" (mkPos 4 4) (Some 5) in
  let st1 := Server.onAbility Server.gameSettings 30 hit Examples.pawnDuel in
  let st2 := Server.onAbility Server.gameSettings 40 hit st1 in
  Server.Reachable st2
  /\ Examples.hpOf st1 "b" = Some 0
  /\ option_map Server.p_respawning (JsMap.get (Server.players st1) "b") = Some true
  /\ Server.pendingFor "b" st1 = 1%nat
  /\ Server.pendingFor "b" st2 = 2%nat
  /\ Server.eventLog st2
     = [ Server.LogAbility 30 "a" "b" 5; Server.LogDefeat 30 "b" "a";
         Server.LogAbility 40 "a" "b" 5; Server.LogDefeat 40 "b" "a" ].
Proof.
  cbv zeta. split; [|repeat split].
  repeat first [ apply Server.reach_ability | apply Server.reach_confirm
               | apply Server.reach_initial ].
Qed.

(** C6, as the code has it.  A hit that is not passed over stores the old
    health minus the damage: with respawn enabled, as configured, the value
    is kept as it is and is negative when the damage exceeds the health;
    with respawn disabled the defeat handler stores 0 instead. *)
Theorem stored_health_is_not_clamped :
  forall (gs : Server.Settings) (now : Z) (attacker : Server.Player)
         (damage : option Z) (st : Server.State) (target : string)
         (tp : Server.Player),
    JsMap.get (Server.players st) target = Some tp ->
    skips gs attacker tp = false ->
    exists tp',
      JsMap.get (Server.players (Server.hitTarget gs now attacker damage st target))
                target = Some tp'
      /\ (Server.respawnEnabled gs = true ->
          Server.p_hp tp' = Server.p_hp tp - Server.orDefault damage 1)
      /\ (Server.respawnEnabled gs = false ->
          Server.p_hp tp' = Z.max 0 (Server.p_hp tp - Server.orDefault damage 1)).
Proof.
  intros gs now attacker damage st target tp Hget Hskip.
  destruct (hitTarget_hit gs now attacker damage st target tp Hget Hskip)
    as [tp' [Hps [_ [_ [_ [_ [Hhp _]]]]]]].
  exists tp'. rewrite Hps, get_set_eq. split; [reflexivity|].
  rewrite Hhp. unfold hpAfterHit.
  split; intros ->; cbn [negb].
  - now rewrite andb_false_r.
  - rewrite andb_true_r.
    destruct (Z.leb_spec (Server.p_hp tp - Server.orDefault damage 1) 0); lia.
Qed.

Lemma stored_health_is_not_clamped_witness :
  exists tp',
    JsMap.get (Server.players
                 (Server.hitTarget Server.gameSettings 30
                    (Server.mkPlayer "a" knight white (mkPos 4 5) 7 10 false None false)
                    (Some 20) Examples.kingDuel "k")) "k" = Some tp'
    /\ Server.p_hp tp' = -5.
Proof.
  destruct (stored_health_is_not_clamped Server.gameSettings 30
              (Server.mkPlayer "a" knight white (mkPos 4 5) 7 10 false None false)
              (Some 20) Examples.kingDuel "k"
              (Server.mkPlayer "k" king black (mkPos 4 4) 15 20 false None false)
              eq_refl eq_refl)
    as [tp' [Hget [Henabled _]]].
  exists tp'. split; [exact Hget | exact (Henabled eq_refl)].
Defined.

(** C6 as stated fails: a king at 15 HP that takes an ability of 20 is
    stored at -5 in a state the handlers reach (one defeat is logged and one
    respawn timer is pending). *)
Lemma king_health_goes_negative :
  let st1 := Server.onAbility Server.gameSettings 30
               (mkAbilityMsg "a" (mkPos 4 4) (Some 20)) Examples.kingDuel in
  Server.Reachable st1
  /\ Examples.hpOf Examples.kingDuel "k" = Some 15
  /\ Examples.hpOf st1 "k" = Some (-5)
  /\ Server.pendingFor "k" st1 = 1%nat.
Proof.
  cbv zeta. split; [|repeat split].
  repeat first [ apply Server.reach_ability | apply Server.reach_confirm
               | apply Server.reach_initial ].
Qed.

(** The respawn callback puts the health of a piece that is still
    registered back to the base value of its type. *)
Lemma respawn_restores_base_hp (rp : Position) (id : string) (st : Server.State)
      (p : Server.Player) :
  JsMap.get (Server.players st) id = Some p ->
  exists p',
    JsMap.get (Server.players (Server.respawnCallback rp id st)) id = Some p'
    /\ Server.p_hp p' = Server.getBaseHp (Server.p_type p)
    /\ Server.p_position p' = rp
    /\ Server.p_respawning p' = false.
Proof.
  intros Hget. unfold Server.respawnCallback, JsMap.has. rewrite Hget.
  cbn [Server.players]. rewrite get_set_eq. eexists. repeat split.
Qed.

(** C8, as the code has it.  A registration is never rejected: after
    confirmPieceAssignment the registry holds, under the message's id, the
    message's type, team and position and its health (the base health of the
    type when the message carries none), whatever was stored under that id
    before; and the rule engine's registerPiece likewise stores the new data
    under a non-empty id. *)
Theorem registration_replaces_the_stored_piece :
  (forall (now : Z) (sid : string) (data : Server.ConfirmData) (st : Server.State),
      JsMap.get (Server.players (Server.onConfirmPieceAssignment now sid data st))
                (Server.cd_id data)
      = Some (Server.mkPlayer (Server.cd_id data) (Server.cd_type data)
                (Server.cd_team data) (Server.cd_position data)
                (match Server.cd_hp data with
                 | Some h => if h =? 0 then Server.getBaseHp (Server.cd_type data)
                             else h
                 | None => Server.getBaseHp (Server.cd_type data)
                 end)
                now false None false))
  /\ (forall (r : ChessRules.Rules) (id : string) (pd : ChessRules.PieceData),
         id <> EmptyString ->
         JsMap.get (ChessRules.pieces (fst (ChessRules.registerPiece r id (Some pd))))
                   id
         = Some (ChessRules.mkPieceData id (ChessRules.pd_type pd)
                   (ChessRules.pd_team pd) (ChessRules.pd_position pd)
                   (ChessRules.pd_hp pd))).
Proof.
  split.
  - intros now sid data st. unfold Server.onConfirmPieceAssignment.
    cbn [Server.players]. apply get_set_eq.
  - intros r id pd Hid. unfold ChessRules.registerPiece.
    apply String.eqb_neq in Hid. rewrite Hid. cbn [fst ChessRules.pieces].
    apply get_set_eq.
Qed.

Lemma registration_replaces_the_stored_piece_witness :
  JsMap.get
    (ChessRules.pieces
       (fst (ChessRules.registerPiece
               (fst (ChessRules.registerPiece ChessRules.constructor "a"
                       (Some (ChessRules.mkPieceData "a" pawn white (mkPos 0 6) 5))))
               "a" (Some (ChessRules.mkPieceData "a" queen black (mkPos 3 0) 10)))))
    "a"
  = Some (ChessRules.mkPieceData "a" queen black (mkPos 3 0) 10).
Proof.
  apply (proj2 registration_replaces_the_stored_piece
               (fst (ChessRules.registerPiece ChessRules.constructor "a"
                       (Some (ChessRules.mkPieceData "a" pawn white (mkPos 0 6) 5))))
               "a"%string (ChessRules.mkPieceData "a" queen black (mkPos 3 0) 10)).
  discriminate.
Defined.

(** C8 as stated fails: "a" is registered as a white pawn on (0,6) with
    5 HP; a second registration under "a" is accepted and leaves a black
    queen on (3,0) with 10 HP under that id. *)
Lemma second_registration_overwrites :
  let st2 := Server.onConfirmPieceAssignment 50 "a"
               (Server.mkConfirm "a" queen black (mkPos 3 0) (Some 10))
               Examples.oneWhitePawn in
  JsMap.get (Server.players Examples.oneWhitePawn) "a"
  = Some (Server.mkPlayer "a" pawn white (mkPos 0 6) 5 10 false None false)
  /\ JsMap.get (Server.players st2) "a"
     = Some (Server.mkPlayer "a" queen black (mkPos 3 0) 10 50 false None false)
  /\ JsMap.size (Server.players st2) = 1%nat.
Proof. repeat split. Qed.





(** ** The cooldown of a piece *)

Lemma onCooldown_true (p : Pieces.ChessPiece) :
  (0 < Pieces.cp_cooldown p)%Q -> Pieces.onCooldown p = true.
Proof.
  intros H. unfold Pieces.onCooldown.
  destruct (Qle_bool (Pieces.cp_cooldown p) 0) eqn:E; [|reflexivity].
  apply Qle_bool_iff in E. exfalso. exact (Qlt_not_le _ _ H E).
Qed.

Lemma onCooldown_false (p : Pieces.ChessPiece) :
  (Pieces.cp_cooldown p <= 0)%Q -> Pieces.onCooldown p = false.
Proof.
  intros H. unfold Pieces.onCooldown.
  apply Qle_bool_iff in H. now rewrite H.
Qed.

(** C7 fails on the code.  The pawn "a" still has three seconds of
    cooldown when the space bar is pressed.  useAbility refuses (the piece
    is left as it is and nothing is returned), but the handler of main.js
    does not look at what useAbility returned: it sends the ability message
    all the same, and the server, which keeps no cooldown, takes 2 HP from
    the black pawn on the target square.  The claim has the intent rejected
    with no damage dealt. *)
Lemma ability_on_cooldown_still_hurts :
  let press := Client.keydownSpace "a" Examples.coolingPawn (mkPos 4 5) in
  let st1 := Server.onAbility Server.gameSettings 30 (snd press)
                              Examples.spaceDuel in
  (0 < Pieces.cp_cooldown Examples.coolingPawn)%Q
  /\ fst press = Examples.coolingPawn
  /\ snd press = mkAbilityMsg "a" (mkPos 4 6) (Some 2)
  /\ Examples.hpOf Examples.spaceDuel "b" = Some 5
  /\ Examples.hpOf st1 "b" = Some 3.
Proof. repeat split. Qed.

(** ** The petal shield *)

(** The Vine Beast's collision takes 2 HP from the pieces on its new square
    and leaves every shield flag and shield duration as it was. *)
Lemma collision_ignores_the_shield (socketDefined : bool) (pick : nat)
      (st : Game.State) (entityId id : string) (p' : Game.Player) :
  In (id, p') (Game.players (Game.moveNeutralEntity socketDefined pick st entityId)) ->
  exists p,
    In (id, p) (Game.players st)
    /\ Game.gp_hasShield p' = Game.gp_hasShield p
    /\ Game.gp_shieldDuration p' = Game.gp_shieldDuration p
    /\ (Game.gp_hp p' = Game.gp_hp p \/ Game.gp_hp p' = Game.gp_hp p - 2).
Proof.
  unfold Game.moveNeutralEntity.
  destruct (JsMap.get (Game.entities st) entityId) as [entity|];
    [|intros H; exists p'; auto].
  destruct (nth_error _ pick) as [newPosition|];
    [|intros H; exists p'; auto].
  cbn [Game.players]. intros H. apply in_map_iff in H.
  destruct H as [[k p] [E Hin]]. cbn [fst snd] in E.
  destruct (Game.onSquare p newPosition); inversion E; subst.
  - exists p. cbn. auto.
  - exists p'. auto.
Qed.





(** * Further properties of the code *)

(** ** The reservation of starting squares *)

Section SlotFacts.
Import Slots.

Lemma pos_eqb_eq (p q : Position) : pos_eqb p q = true <-> p = q.
Proof.
  unfold pos_eqb. rewrite andb_true_iff, !Z.eqb_eq.
  destruct p, q; cbn. split; [intros [-> ->]; reflexivity | intros H].
  inversion H. auto.
Qed.

Lemma type_eqb_eq (a b : PieceType) : type_eqb a b = true <-> a = b.
Proof. destruct a, b; cbn; split; congruence. Qed.

Lemma team_eqb_eq (a b : Team) : team_eqb a b = true <-> a = b.
Proof. destruct a, b; cbn; split; congruence. Qed.

Lemma findFree_Some (row : list bool) (i : nat) :
  findFree row = Some i ->
  (i < List.length row)%nat /\ nth i row false = false.
Proof.
  revert i. induction row as [|b row IH]; intros i; cbn; [discriminate|].
  destruct b.
  - destruct (findFree row) as [j|]; cbn; [|discriminate].
    intros H. inversion H. subst. destruct (IH j eq_refl). split; [lia | assumption].
  - intros H. inversion H. subst. cbn. split; [lia | reflexivity].
Qed.

Lemma findFree_None (row : list bool) :
  findFree row = None <->
  forall i, (i < List.length row)%nat -> nth i row false = true.
Proof.
  induction row as [|b row IH]; cbn.
  - split; [intros _ i Hi; lia | reflexivity].
  - destruct b.
    + destruct (findFree row) as [j|] eqn:E; cbn.
      * split; [discriminate|]. intros H.
        assert (Hr : forall i, (i < List.length row)%nat -> nth i row false = true)
          by (intros i Hi; apply (H (S i)); lia).
        apply IH in Hr. discriminate.
      * split; [|reflexivity]. intros _ [|i] Hi; [reflexivity|].
        apply (proj1 IH eq_refl). lia.
    + split; [discriminate|]. intros H. specialize (H O ltac:(lia)). discriminate.
Qed.

Lemma length_mark (row : list bool) (i : nat) (v : bool) :
  List.length (mark row i v) = List.length row.
Proof.
  revert i. induction row as [|b row IH]; intros [|i]; cbn; auto.
Qed.

Lemma nth_mark (row : list bool) (i j : nat) (v : bool) :
  (i < List.length row)%nat ->
  nth j (mark row i v) false = if Nat.eqb j i then v else nth j row false.
Proof.
  revert i j. induction row as [|b row IH]; intros i j Hi; cbn in Hi; [lia|].
  destruct i as [|i], j as [|j]; cbn; auto.
  apply IH. lia.
Qed.

Lemma taken_setRow (t : Table) (team tm : Team) (type ty : PieceType)
      (row : list bool) (j : nat) :
  taken (setRow t team type row) tm ty j
  = if team_eqb tm team && type_eqb ty type then nth j row false
    else taken t tm ty j.
Proof.
  unfold taken, setRow. destruct (team_eqb tm team && type_eqb ty type); reflexivity.
Qed.

(* the row the loop works on: the stored one, or a fresh one of falses *)
Lemma taken_fresh_row (t : Table) (team : Team) (type : PieceType) (j : nat) :
  nth j match t team type with
        | Some r => r
        | None => repeat false (List.length (traditionalPositions team type))
        end false
  = taken t team type j.
Proof.
  unfold taken. destruct (t team type); [reflexivity|].
  apply nth_repeat.
Qed.

Lemma wellSized_setRow (t : Table) (team : Team) (type : PieceType)
      (row : list bool) :
  wellSized t ->
  List.length row = List.length (traditionalPositions team type) ->
  wellSized (setRow t team type row).
Proof.
  intros Hw Hl tm ty r. unfold setRow.
  destruct (team_eqb tm team && type_eqb ty type) eqn:E.
  - apply andb_true_iff in E. destruct E as [E1 E2].
    apply team_eqb_eq in E1. apply type_eqb_eq in E2. subst.
    intros H. inversion H. now subst.
  - apply Hw.
Qed.

Lemma fresh_row_length (t : Table) (team : Team) (type : PieceType) :
  wellSized t ->
  List.length match t team type with
              | Some r => r
              | None => repeat false (List.length (traditionalPositions team type))
              end
  = List.length (traditionalPositions team type).
Proof.
  intros Hw. destruct (t team type) as [r|] eqn:E; [now apply Hw|].
  apply repeat_length.
Qed.

(* creating a row does not change which slots are reserved *)
Lemma taken_after_creation (t : Table) (team tm : Team) (type ty : PieceType)
      (j : nat) :
  taken (setRow t team type
           match t team type with
           | Some r => r
           | None => repeat false (List.length (traditionalPositions team type))
           end) tm ty j
  = taken t tm ty j.
Proof.
  rewrite taken_setRow.
  destruct (team_eqb tm team && type_eqb ty type) eqn:E; [|reflexivity].
  apply andb_true_iff in E. destruct E as [E1 E2].
  apply team_eqb_eq in E1. apply type_eqb_eq in E2. subst.
  apply taken_fresh_row.
Qed.

Lemma assignFrom_Some (team : Team) (types : list PieceType) :
  forall (t t' : Table) (a : Assigned),
    wellSized t ->
    assignFrom t team types = (t', Some a) ->
    In (as_type a) types
    /\ wellSized t'
    /\ exists i square,
         as_position a = Some square
         /\ nth_error (traditionalPositions team (as_type a)) i = Some square
         /\ taken t team (as_type a) i = false
         /\ forall tm ty j,
              taken t' tm ty j
              = if team_eqb tm team && type_eqb ty (as_type a) && Nat.eqb j i
                then true else taken t tm ty j.
Proof.
  induction types as [|ty rest IH]; intros t t' a Hw; cbn [assignFrom];
    [discriminate|].
  pose proof (fresh_row_length t team ty Hw) as Hlen.
  destruct (findFree _) as [i|] eqn:Hfree.
  - intros H. inversion H. subst t' a. cbn [as_type as_position].
    destruct (findFree_Some _ _ Hfree) as [Hi Hnth].
    split; [now left|]. split.
    { apply wellSized_setRow; [assumption|]. now rewrite length_mark. }
    destruct (nth_error (traditionalPositions team ty) i) as [square|] eqn:Hsq.
    2:{ apply nth_error_None in Hsq. lia. }
    exists i, square. split; [reflexivity|]. split; [assumption|]. split.
    + now rewrite <- taken_fresh_row.
    + intros tm ty' j. rewrite taken_setRow.
      destruct (team_eqb tm team && type_eqb ty' ty) eqn:E; cbn [andb];
        [|reflexivity].
      rewrite (nth_mark _ i j true Hi).
      destruct (Nat.eqb j i); [reflexivity|].
      apply andb_true_iff in E. destruct E as [E1 E2].
      apply team_eqb_eq in E1. apply type_eqb_eq in E2. subst.
      apply taken_fresh_row.
  - intros H.
    destruct (IH _ t' a (wellSized_setRow t team ty _ Hw Hlen) H)
      as [Hin [Hw' [i [square [Hpos [Hsq [Hfreei Hall]]]]]]].
    split; [now right|]. split; [assumption|].
    exists i, square. split; [assumption|]. split; [assumption|]. split.
    + now rewrite taken_after_creation in Hfreei.
    + intros tm ty' j. rewrite Hall, taken_after_creation. reflexivity.
Qed.

Lemma assignFrom_None (team : Team) (types : list PieceType) :
  forall t : Table,
    wellSized t ->
    (snd (assignFrom t team types) = None <->
     forall ty i, In ty types ->
                  (i < List.length (traditionalPositions team ty))%nat ->
                  taken t team ty i = true).
Proof.
  induction types as [|ty rest IH]; intros t Hw; cbn [assignFrom].
  - cbn. split; [intros _ ty i [] | reflexivity].
  - pose proof (fresh_row_length t team ty Hw) as Hlen.
    destruct (findFree _) as [i|] eqn:Hfree.
    + cbn [snd]. split; [discriminate|]. intros Hfull.
      destruct (findFree_Some _ _ Hfree) as [Hi Hnth].
      rewrite taken_fresh_row in Hnth.
      rewrite (Hfull ty i (or_introl eq_refl) ltac:(lia)) in Hnth. discriminate.
    + rewrite (IH _ (wellSized_setRow t team ty _ Hw Hlen)).
      pose proof (proj1 (findFree_None _) Hfree) as Hrow.
      split.
      * intros H ty' i [<- | Hin] Hi.
        -- rewrite <- taken_fresh_row. apply Hrow. lia.
        -- rewrite <- (taken_after_creation t team team ty ty' i). now apply H.
      * intros H ty' i Hin Hi. rewrite taken_after_creation.
        apply H; [now right | assumption].
Qed.

Lemma findPosition_nth (positions : list Position) (i : nat) (square : Position) :
  NoDup positions ->
  nth_error positions i = Some square ->
  findPosition positions square = Some i.
Proof.
  revert i. induction positions as [|p rest IH]; intros i Hnd;
    [destruct i; discriminate|].
  inversion Hnd as [|? ? Hnotin Hnd']. subst.
  destruct i as [|i]; cbn.
  - intros H. inversion H. subst.
    now rewrite (proj2 (pos_eqb_eq square square) eq_refl).
  - intros H. destruct (pos_eqb p square) eqn:E.
    + apply pos_eqb_eq in E. subst. exfalso. apply Hnotin.
      eapply nth_error_In; eauto.
    + now rewrite (IH i Hnd' H).
Qed.

Lemma findPosition_None (positions : list Position) (square : Position) :
  ~ In square positions -> findPosition positions square = None.
Proof.
  induction positions as [|p rest IH]; cbn; [reflexivity|].
  intros H. destruct (pos_eqb p square) eqn:E.
  - apply pos_eqb_eq in E. subst. tauto.
  - rewrite IH; [reflexivity | tauto].
Qed.

Lemma traditionalPositions_NoDup (team : Team) (type : PieceType) :
  NoDup (traditionalPositions team type).
Proof.
  destruct team, type; cbn; repeat constructor; cbn;
    intuition discriminate.
Qed.

End SlotFacts.

(** X1.  assignPieceFromTraditionalPosition hands out a starting square of
    the team that was not reserved, reserves it, and leaves every other
    reservation as it was. *)
Theorem assignment_takes_a_free_starting_square :
  forall (t t' : Slots.Table) (team : Team) (a : Slots.Assigned),
    Slots.wellSized t ->
    Slots.assignPieceFromTraditionalPosition t team = (t', Some a) ->
    exists i square,
      Slots.as_position a = Some square
      /\ nth_error (Slots.traditionalPositions team (Slots.as_type a)) i
         = Some square
      /\ Slots.taken t team (Slots.as_type a) i = false
      /\ Slots.taken t' team (Slots.as_type a) i = true
      /\ forall tm ty j,
           tm <> team \/ ty <> Slots.as_type a \/ j <> i ->
           Slots.taken t' tm ty j = Slots.taken t tm ty j.
Proof.
  intros t t' team a Hw H.
  destruct (assignFrom_Some team Slots.pieceTypes t t' a Hw H)
    as [_ [_ [i [square [Hpos [Hsq [Hfree Hall]]]]]]].
  exists i, square. split; [assumption|]. split; [assumption|].
  split; [assumption|]. split.
  - rewrite Hall.
    rewrite (proj2 (team_eqb_eq team team) eq_refl),
            (proj2 (type_eqb_eq _ _) eq_refl), Nat.eqb_refl.
    reflexivity.
  - intros tm ty j Hne. rewrite Hall.
    destruct (team_eqb tm team) eqn:E1; cbn [andb]; [|reflexivity].
    destruct (Slots.type_eqb ty (Slots.as_type a)) eqn:E2; cbn [andb];
      [|reflexivity].
    destruct (Nat.eqb_spec j i); [|reflexivity].
    apply team_eqb_eq in E1. apply type_eqb_eq in E2. tauto.
Qed.

Lemma assignment_takes_a_free_starting_square_witness :
  exists i square,
    Some (mkPos 0 6) = Some square
    /\ nth_error (Slots.traditionalPositions white pawn) i = Some square
    /\ Slots.taken Slots.noneAssigned white pawn i = false
    /\ Slots.taken MoreExamples.firstWhiteTaken white pawn i = true
    /\ forall tm ty j,
         tm <> white \/ ty <> pawn \/ j <> i ->
         Slots.taken MoreExamples.firstWhiteTaken tm ty j
         = Slots.taken Slots.noneAssigned tm ty j.
Proof.
  apply (assignment_takes_a_free_starting_square Slots.noneAssigned
           MoreExamples.firstWhiteTaken white
           (Slots.mkAssigned pawn (Some (mkPos 0 6)))).
  - intros team type row H. discriminate.
  - reflexivity.
Defined.

(** X2.  assignPieceFromTraditionalPosition returns null exactly when all
    sixteen starting squares of the team are reserved. *)
Theorem no_assignment_only_when_the_team_is_full :
  forall (t : Slots.Table) (team : Team),
    Slots.wellSized t ->
    (snd (Slots.assignPieceFromTraditionalPosition t team) = None <->
     forall ty i,
       In ty Slots.pieceTypes ->
       (i < List.length (Slots.traditionalPositions team ty))%nat ->
       Slots.taken t team ty i = true).
Proof.
  intros t team Hw. apply assignFrom_None. assumption.
Qed.

Lemma no_assignment_only_when_the_team_is_full_witness :
  snd (Slots.assignPieceFromTraditionalPosition MoreExamples.allAssigned black)
  = None.
Proof.
  apply (proj2 (no_assignment_only_when_the_team_is_full
                  MoreExamples.allAssigned black
                  ltac:(intros team type row H; inversion H; apply repeat_length))).
  intros ty i Hin Hi. unfold Slots.taken, MoreExamples.allAssigned.
  rewrite (nth_indep _ false true) by (now rewrite repeat_length).
  apply nth_repeat.
Defined.

(* what a release does to the table when the square is the [i]-th
   starting square of a row that exists *)
Lemma release_taken (t : Slots.Table) (team : Team) (type : PieceType)
      (row : list bool) (i : nat) (square : Position) :
  Slots.wellSized t ->
  t team type = Some row ->
  nth_error (Slots.traditionalPositions team type) i = Some square ->
  forall tm ty j,
    Slots.taken (Slots.releaseAssignedPosition t team type square) tm ty j
    = if team_eqb tm team && Slots.type_eqb ty type && Nat.eqb j i
      then false else Slots.taken t tm ty j.
Proof.
  intros Hw Hrow Hsq tm ty j. unfold Slots.releaseAssignedPosition.
  rewrite Hrow, (findPosition_nth _ i square (traditionalPositions_NoDup _ _) Hsq).
  assert (Hi : (i < List.length row)%nat).
  { rewrite (Hw _ _ _ Hrow). apply nth_error_Some. congruence. }
  rewrite taken_setRow.
  destruct (team_eqb tm team && Slots.type_eqb ty type) eqn:E; [|reflexivity].
  rewrite (nth_mark row i j false Hi). cbn [andb].
  destruct (Nat.eqb j i); [reflexivity|].
  apply andb_true_iff in E. destruct E as [E1 E2].
  apply team_eqb_eq in E1. apply type_eqb_eq in E2. subst tm ty.
  unfold Slots.taken. now rewrite Hrow.
Qed.

(** X3.  Releasing the square an assignment returned brings every
    reservation back to what it was before the assignment. *)
Theorem release_undoes_the_assignment :
  forall (t t' : Slots.Table) (team : Team) (a : Slots.Assigned)
         (square : Position),
    Slots.wellSized t ->
    Slots.assignPieceFromTraditionalPosition t team = (t', Some a) ->
    Slots.as_position a = Some square ->
    forall tm ty j,
      Slots.taken (Slots.releaseAssignedPosition t' team (Slots.as_type a) square)
                  tm ty j
      = Slots.taken t tm ty j.
Proof.
  intros t t' team a square Hw H Hsquare tm ty j.
  destruct (assignFrom_Some team Slots.pieceTypes t t' a Hw H)
    as [_ [Hw' [i [square' [Hpos [Hsq [Hfree Hall]]]]]]].
  assert (square' = square) by congruence. subst square'.
  destruct (t' team (Slots.as_type a)) as [row|] eqn:Hrow.
  - rewrite (release_taken t' team _ row i square Hw' Hrow Hsq), Hall.
    destruct (team_eqb tm team && Slots.type_eqb ty (Slots.as_type a)
              && Nat.eqb j i) eqn:E; [|reflexivity].
    rewrite !andb_true_iff in E. destruct E as [[E1 E2] E3].
    apply team_eqb_eq in E1. apply type_eqb_eq in E2.
    apply Nat.eqb_eq in E3. subst tm ty j. now rewrite Hfree.
  - specialize (Hall team (Slots.as_type a) i).
    unfold Slots.taken at 1 in Hall. rewrite Hrow in Hall.
    rewrite (proj2 (team_eqb_eq team team) eq_refl),
            (proj2 (type_eqb_eq _ _) eq_refl), Nat.eqb_refl in Hall.
    discriminate.
Qed.

Lemma release_undoes_the_assignment_witness :
  Slots.taken (Slots.releaseAssignedPosition MoreExamples.firstWhiteTaken
                 white pawn (mkPos 0 6)) white pawn 0
  = Slots.taken Slots.noneAssigned white pawn 0.
Proof.
  apply (release_undoes_the_assignment Slots.noneAssigned
           MoreExamples.firstWhiteTaken white
           (Slots.mkAssigned pawn (Some (mkPos 0 6))) (mkPos 0 6)).
  - intros team type row H. discriminate.
  - reflexivity.
  - reflexivity.
Defined.

(** X4.  A piece that disconnects while it stands on a square that is not a
    starting square of its team and type frees nothing: the reservation
    table is left as it was, its starting square still reserved. *)
Theorem disconnect_off_the_starting_square_frees_nothing :
  forall (sid : string) (st : Server.State) (t : Slots.Table)
         (player : Server.Player),
    JsMap.get (Server.players st) sid = Some player ->
    ~ In (Server.p_position player)
         (Slots.traditionalPositions (Server.p_team player)
                                     (Server.p_type player)) ->
    snd (Slots.onDisconnect sid st t) = t.
Proof.
  intros sid st t player Hget Hnot. unfold Slots.onDisconnect. cbn [snd].
  rewrite Hget. unfold Slots.releaseAssignedPosition.
  destruct (t _ _); [|reflexivity].
  now rewrite (findPosition_None _ _ Hnot).
Qed.

Lemma disconnect_off_the_starting_square_frees_nothing_witness :
  snd (Slots.onDisconnect "w" MoreExamples.advancedPawn
                          MoreExamples.firstWhiteTaken)
  = MoreExamples.firstWhiteTaken
  /\ Slots.taken MoreExamples.firstWhiteTaken white pawn 0 = true.
Proof.
  split; [|reflexivity].
  apply (disconnect_off_the_starting_square_frees_nothing "w"
           MoreExamples.advancedPawn MoreExamples.firstWhiteTaken
           (Server.mkPlayer "w" pawn white (mkPos 0 5) 5 10 false None false)).
  - reflexivity.
  - cbn. intuition discriminate.
Defined.

(* within a team no square starts two pieces *)
Lemma starting_squares_distinct (team : Team) (ty1 ty2 : PieceType)
      (i1 i2 : nat) (square : Position) :
  nth_error (Slots.traditionalPositions team ty1) i1 = Some square ->
  nth_error (Slots.traditionalPositions team ty2) i2 = Some square ->
  ty1 = ty2 /\ i1 = i2.
Proof.
  intros H1 H2.
  destruct team, ty1; cbn in H1;
    repeat (destruct i1 as [|i1]; cbn in H1; try discriminate);
    inversion H1; subst square; clear H1;
    destruct ty2; cbn in H2;
    repeat (destruct i2 as [|i2]; cbn in H2; try discriminate);
    split; reflexivity.
Qed.

(** X5.  Two successive assignments for a team never return the same
    starting square. *)
Theorem successive_assignments_differ :
  forall (t t1 t2 : Slots.Table) (team : Team) (a1 a2 : Slots.Assigned),
    Slots.wellSized t ->
    Slots.assignPieceFromTraditionalPosition t team = (t1, Some a1) ->
    Slots.assignPieceFromTraditionalPosition t1 team = (t2, Some a2) ->
    Slots.as_position a1 <> Slots.as_position a2.
Proof.
  intros t t1 t2 team a1 a2 Hw H1 H2 Heq.
  destruct (assignFrom_Some team Slots.pieceTypes t t1 a1 Hw H1)
    as [_ [Hw1 [i1 [sq1 [Hpos1 [Hsq1 [_ Hall1]]]]]]].
  destruct (assignFrom_Some team Slots.pieceTypes t1 t2 a2 Hw1 H2)
    as [_ [_ [i2 [sq2 [Hpos2 [Hsq2 [Hfree2 _]]]]]]].
  assert (sq1 = sq2) by congruence. subst sq2.
  destruct (starting_squares_distinct team _ _ _ _ _ Hsq1 Hsq2) as [Ety Ei].
  rewrite <- Ety, <- Ei, Hall1 in Hfree2.
  rewrite (proj2 (team_eqb_eq team team) eq_refl),
          (proj2 (type_eqb_eq _ _) eq_refl), Nat.eqb_refl in Hfree2.
  discriminate.
Qed.

Lemma successive_assignments_differ_witness :
  Some (mkPos 0 6) <> Some (mkPos 1 6).
Proof.
  apply (successive_assignments_differ Slots.noneAssigned
           MoreExamples.firstWhiteTaken
           (fst (Slots.assignPieceFromTraditionalPosition
                   MoreExamples.firstWhiteTaken white))
           white
           (Slots.mkAssigned pawn (Some (mkPos 0 6)))
           (Slots.mkAssigned pawn (Some (mkPos 1 6)))).
  - intros team type row H. discriminate.
  - reflexivity.
  - reflexivity.
Defined.

(** ** The registry across the handlers *)

Section PlayFacts.
Import Server.

Lemma hitTarget_keeps (gs : Settings) (now : Z) (attacker : Player)
      (damage : option Z) (st : State) (t id : string) (p : Player) :
  JsMap.get (players st) id = Some p ->
  exists p',
    JsMap.get (players (hitTarget gs now attacker damage st t)) id = Some p'
    /\ sameIdentity p p' /\ p_position p' = p_position p.
Proof.
  intros Hp. unfold sameIdentity.
  destruct (JsMap.get (players st) t) as [tp|] eqn:Hget.
  2:{ rewrite hitTarget_skip by (now rewrite Hget). exists p. auto. }
  destruct (skips gs attacker tp) eqn:Hskip.
  { rewrite hitTarget_skip by (now rewrite Hget). exists p. auto. }
  destruct (hitTarget_hit gs now attacker damage st t tp Hget Hskip)
    as [tp' [Hps [Hid [Hty [Hteam [Hpos _]]]]]].
  rewrite Hps. destruct (String.eqb_spec t id) as [->|Hne].
  - assert (p = tp) by congruence. subst p.
    exists tp'. rewrite get_set_eq. auto.
  - exists p. rewrite get_set_neq by assumption. auto.
Qed.

Lemma hitTarget_absent (gs : Settings) (now : Z) (attacker : Player)
      (damage : option Z) (st : State) (t id : string) :
  JsMap.get (players st) id = None ->
  JsMap.get (players (hitTarget gs now attacker damage st t)) id = None.
Proof.
  intros Hp.
  destruct (JsMap.get (players st) t) as [tp|] eqn:Hget.
  2:{ rewrite hitTarget_skip by (now rewrite Hget). assumption. }
  destruct (skips gs attacker tp) eqn:Hskip.
  { rewrite hitTarget_skip by (now rewrite Hget). assumption. }
  destruct (hitTarget_hit gs now attacker damage st t tp Hget Hskip)
    as [tp' [Hps _]].
  rewrite Hps. destruct (String.eqb_spec t id) as [->|Hne]; [congruence|].
  now rewrite get_set_neq by assumption.
Qed.

Lemma hitTarget_log (gs : Settings) (now : Z) (attacker : Player)
      (damage : option Z) (st : State) (t : string) :
  exists more,
    eventLog (hitTarget gs now attacker damage st t) = eventLog st ++ more.
Proof.
  destruct (JsMap.get (players st) t) as [tp|] eqn:Hget.
  2:{ rewrite hitTarget_skip by (now rewrite Hget). exists []. now rewrite app_nil_r. }
  destruct (skips gs attacker tp) eqn:Hskip.
  { rewrite hitTarget_skip by (now rewrite Hget). exists []. now rewrite app_nil_r. }
  destruct (hitTarget_hit gs now attacker damage st t tp Hget Hskip)
    as [tp' [_ [_ [_ [_ [_ [_ [_ [Hlog _]]]]]]]]].
  rewrite Hlog. eauto.
Qed.

Lemma fold_hitTarget_keeps (gs : Settings) (now : Z) (attacker : Player)
      (damage : option Z) (targets : list string) :
  forall (st : State) (id : string),
    (forall p, JsMap.get (players st) id = Some p ->
               exists p',
                 JsMap.get (players (fold_left (hitTarget gs now attacker damage)
                                               targets st)) id = Some p'
                 /\ sameIdentity p p' /\ p_position p' = p_position p)
    /\ (JsMap.get (players st) id = None ->
        JsMap.get (players (fold_left (hitTarget gs now attacker damage)
                                      targets st)) id = None)
    /\ exists more,
         eventLog (fold_left (hitTarget gs now attacker damage) targets st)
         = eventLog st ++ more.
Proof.
  induction targets as [|t ts IH]; intros st id; cbn [fold_left].
  - split; [|split].
    + intros p Hp. exists p. unfold sameIdentity. auto.
    + auto.
    + exists []. now rewrite app_nil_r.
  - destruct (IH (hitTarget gs now attacker damage st t) id) as [Hk [Ha [more Hl]]].
    split; [|split].
    + intros p Hp.
      destruct (hitTarget_keeps gs now attacker damage st t id p Hp)
        as [p1 [Hg1 [[Hi1 [Hty1 Hte1]] Hpos1]]].
      destruct (Hk p1 Hg1) as [p' [Hg' [[Hi' [Hty' Hte']] Hpos']]].
      exists p'. unfold sameIdentity. repeat split; congruence.
    + intros Hnone. apply Ha. now apply hitTarget_absent.
    + destruct (hitTarget_log gs now attacker damage st t) as [more1 Hl1].
      exists (more1 ++ more). now rewrite Hl, Hl1, app_assoc.
Qed.

(* what a piece found after an event of play was before it *)
Lemma play_step_pieces (st st' : State) :
  PlayStep st st' ->
  forall id p',
    JsMap.get (players st') id = Some p' ->
    exists p,
      JsMap.get (players st) id = Some p
      /\ sameIdentity p p'
      /\ (p_position p' = p_position p
          \/ ChessRules.isValidPosition (p_position p') = true).
Proof.
  intros Hstep id p' Hp'. unfold sameIdentity.
  destruct Hstep as [now sid data st st' Hmove | now data st | sid st
                    | now eventData st | rp st Hrp].
  - unfold onMove in Hmove.
    destruct (JsMap.get (players st) (md_id data)) as [player|] eqn:Hpl.
    2:{ inversion Hmove. subst. exists p'. auto. }
    destruct (validateMove (players st) player (md_position data))
      as [[|]|] eqn:Hv; [|inversion Hmove; subst; exists p'; auto | discriminate].
    destruct (md_position data) as [np|] eqn:Hnp;
      [|inversion Hmove; subst; exists p'; auto].
    inversion Hmove. subst st'. cbn [players] in Hp'.
    destruct (String.eqb_spec (md_id data) id) as [E|Hne].
    + rewrite E, get_set_eq in Hp'. inversion Hp'. subst p'.
      exists player. rewrite <- E. split; [assumption|]. split; [cbn; auto|].
      right. cbn.
      destruct (ChessRules.isValidPosition np) eqn:V; [reflexivity|].
      rewrite (validateMove_off_board _ _ _ V) in Hv. discriminate.
    + rewrite get_set_neq in Hp' by assumption. exists p'. auto.
  - destruct (JsMap.get (players st) (am_id data)) as [attacker|] eqn:Hatt.
    2:{ unfold onAbility in Hp'. rewrite Hatt in Hp'. exists p'. auto. }
    rewrite (proj1 (onAbility_players _ now data st attacker Hatt)) in Hp'.
    destruct (fold_hitTarget_keeps gameSettings now attacker (am_damage data)
                (findTargetsAtPosition gameSettings (players st) (am_target data)
                                       (p_team attacker)) st id)
      as [Hk [Ha _]].
    destruct (JsMap.get (players st) id) as [p|] eqn:Hp.
    + destruct (Hk p eq_refl) as [p'' [Hg [Hsame Hpos]]].
      assert (p'' = p') by congruence. subst p''. exists p. auto.
    + rewrite (Ha eq_refl) in Hp'. discriminate.
  - unfold onDisconnect in Hp'. cbn [players] in Hp'.
    destruct (String.eqb_spec sid id) as [->|Hne].
    + rewrite get_delete_eq in Hp'. discriminate.
    + rewrite get_delete_neq in Hp' by assumption. exists p'. auto.
  - exists p'. auto.
  - unfold fireTimer in Hp'. destruct (timers st) as [|t rest];
      [exists p'; auto|].
    unfold respawnCallback, JsMap.has in Hp'. cbn [players] in Hp'.
    destruct (JsMap.get (players st) (tm_id t)) as [player|] eqn:Hpl;
      [|exists p'; auto].
    cbn [players] in Hp'.
    destruct (String.eqb_spec (tm_id t) id) as [E|Hne].
    + rewrite E, get_set_eq in Hp'. inversion Hp'. subst p'.
      exists player. rewrite <- E. split; [assumption|]. split; [cbn; auto|].
      right. cbn. apply isValidPosition_iff. exact Hrp.
    + rewrite get_set_neq in Hp' by assumption. exists p'. auto.
Qed.

End PlayFacts.

(** X6.  On the squares of the board model, whose coordinates are
    integers, the 'move' handler answers every request made for a piece
    whose record holds a position: the path loop of isPathBlocked is only
    entered for a move along a rank, a file or a diagonal, and there it
    reaches the destination.  (A target with a coordinate that is not an
    integer is another matter: see the walk towards any number below.) *)
Theorem move_handler_always_answers :
  forall (now : Z) (sid : string) (data : Server.MoveData) (st : Server.State),
    exists st', Server.onMove now sid data st = Some st'.
Proof.
  intros now sid data st. unfold Server.onMove.
  destruct (JsMap.get (Server.players st) (Server.md_id data)) as [player|];
    [|eauto].
  destruct (validateMove_total (Server.players st) player
                               (Server.md_position data)) as [r Hr].
  rewrite Hr. destruct r; [destruct (Server.md_position data)|]; eauto.
Qed.

(** X7.  A request to move a piece to the square it already stands on (a
    board square) passes validateMove for a rook, a bishop, a queen and a
    king, and fails for a pawn and a knight. *)
Theorem standing_still_passes_for_line_pieces_and_kings :
  forall (ps : list (string * Server.Player)) (player : Server.Player),
    ChessRules.isValidPosition (Server.p_position player) = true ->
    Server.validateMove ps player (Some (Server.p_position player))
    = Some (match Server.p_type player with
            | pawn | knight => false
            | _ => true
            end).
Proof.
  intros ps player V. unfold Server.validateMove.
  rewrite (on_board_passes_bounds _ V), !Z.sub_diag. cbn [Z.abs Z.sgn].
  destruct (Server.p_type player); cbn;
    try (unfold Server.isPathBlocked, Server.dirOf;
         rewrite !Z.gtb_ltb, !Z.ltb_irrefl, !Z.sub_diag, !Z.add_0_r;
         cbn; rewrite !Z.eqb_refl; reflexivity);
    try reflexivity.
  destruct (Server.p_team player); reflexivity.
Qed.

Lemma standing_still_passes_for_line_pieces_and_kings_witness :
  Server.validateMove (Server.players Examples.rookAndPawn) Examples.whiteRook
                      (Some (mkPos 0 0)) = Some true.
Proof.
  apply (standing_still_passes_for_line_pieces_and_kings
           (Server.players Examples.rookAndPawn) Examples.whiteRook).
  reflexivity.
Defined.

(** X8.  For a knight the server accepts exactly the board squares at the
    eight jumps of the rule engine's knight, whatever the registry holds. *)
Theorem server_knight_squares :
  forall (ps : list (string * Server.Player)) (player : Server.Player)
         (np : Position),
    Server.p_type player = knight ->
    (Server.validateMove ps player (Some np) = Some true <->
     ChessRules.isValidPosition np = true
     /\ exists jump,
          In jump ChessRules.knightMoves
          /\ np = mkPos (pos_x (Server.p_position player) + pos_x jump)
                        (pos_z (Server.p_position player) + pos_z jump)).
Proof.
  intros ps player np Htype. unfold Server.validateMove. rewrite Htype.
  destruct (ChessRules.isValidPosition np) eqn:V.
  2:{ rewrite (off_board_fails_bounds np V).
      split; [discriminate | intros [H _]; discriminate]. }
  rewrite (on_board_passes_bounds np V).
  destruct np as [nx nz]. destruct (Server.p_position player) as [x z].
  cbn [pos_x pos_z]. split.
  - intros H. injection H as Hb. split; [reflexivity|].
    rewrite orb_true_iff, !andb_true_iff, !Z.eqb_eq in Hb.
    assert (Hcase :
              (nx - x = 1 /\ nz - z = 2) \/ (nx - x = 2 /\ nz - z = 1)
              \/ (nx - x = 2 /\ nz - z = -1) \/ (nx - x = 1 /\ nz - z = -2)
              \/ (nx - x = -1 /\ nz - z = -2) \/ (nx - x = -2 /\ nz - z = -1)
              \/ (nx - x = -2 /\ nz - z = 1) \/ (nx - x = -1 /\ nz - z = 2))
      by lia.
    exists (mkPos (nx - x) (nz - z)).
    split; [|cbn [pos_x pos_z]; f_equal; lia].
    unfold ChessRules.knightMoves.
    repeat (destruct Hcase as [[-> ->] | Hcase]; [cbn; tauto|]).
    destruct Hcase as [-> ->]. cbn. tauto.
  - intros [_ [jump [Hin E]]]. f_equal.
    rewrite orb_true_iff, !andb_true_iff, !Z.eqb_eq.
    inversion E. subst nx nz. cbn in Hin.
    repeat (destruct Hin as [<-|Hin]; [cbn [pos_x pos_z]; lia|]).
    contradiction.
Qed.

Lemma server_knight_squares_witness :
  Server.validateMove (Server.players Examples.knightAndPawn)
                      Examples.whiteKnight (Some (mkPos 2 5))
  = Some true.
Proof.
  apply (server_knight_squares (Server.players Examples.knightAndPawn)
                               Examples.whiteKnight (mkPos 2 5) eq_refl).
  split; [reflexivity|].
  exists (mkPos 1 (-2)). split; [cbn; tauto | reflexivity].
Defined.

(** X9.  A move request to an off-board square from a registered piece
    changes nothing in the registry, the log or the timers; the sender alone
    is answered, with the position the registry holds. *)
Theorem off_board_move_is_rejected :
  forall (now : Z) (sid : string) (id : string) (np : Position)
         (st : Server.State) (player : Server.Player),
    JsMap.get (Server.players st) id = Some player ->
    ChessRules.isValidPosition np = false ->
    Server.onMove now sid (Server.mkMove id (Some np)) st
    = Some (Server.mkState (Server.players st) (Server.eventLog st)
              (Server.timers st)
              (Server.emitted st ++
               [Server.EmitMoveRejected sid id (Server.p_position player)])).
Proof.
  intros now sid id np st player Hget V. unfold Server.onMove.
  cbn [Server.md_id Server.md_position]. rewrite Hget.
  now rewrite (validateMove_off_board _ _ _ V).
Qed.

Lemma off_board_move_is_rejected_witness :
  Server.onMove 30 "n" (Server.mkMove "n" (Some (mkPos 3 8)))
                Examples.knightAndPawn
  = Some (Server.mkState (Server.players Examples.knightAndPawn)
            (Server.eventLog Examples.knightAndPawn)
            (Server.timers Examples.knightAndPawn)
            (Server.emitted Examples.knightAndPawn ++
             [Server.EmitMoveRejected "n" "n" (mkPos 1 7)])).
Proof.
  apply (off_board_move_is_rejected 30 "n" "n" (mkPos 3 8)
           Examples.knightAndPawn Examples.whiteKnight).
  - reflexivity.
  - reflexivity.
Defined.

(** X10.  Whatever the 'move' handler does, the log and the timers are
    untouched, every other piece is left exactly as it was, and of the
    mover only the position and the time of its last move can change. *)
Theorem a_move_changes_only_the_mover :
  forall (now : Z) (sid : string) (data : Server.MoveData)
         (st st' : Server.State),
    Server.onMove now sid data st = Some st' ->
    Server.eventLog st' = Server.eventLog st
    /\ Server.timers st' = Server.timers st
    /\ forall id p,
         JsMap.get (Server.players st) id = Some p ->
         exists p',
           JsMap.get (Server.players st') id = Some p'
           /\ sameIdentity p p'
           /\ Server.p_hp p' = Server.p_hp p
           /\ Server.p_respawning p' = Server.p_respawning p
           /\ Server.p_respawnTime p' = Server.p_respawnTime p
           /\ Server.p_isSpectator p' = Server.p_isSpectator p
           /\ (String.eqb (Server.md_id data) id = false -> p' = p).
Proof.
  intros now sid data st st' Hmove. unfold Server.onMove in Hmove.
  assert (Hsame : forall s : Server.State,
             Server.players s = Server.players st ->
             forall id p,
               JsMap.get (Server.players st) id = Some p ->
               exists p',
                 JsMap.get (Server.players s) id = Some p'
                 /\ sameIdentity p p'
                 /\ Server.p_hp p' = Server.p_hp p
                 /\ Server.p_respawning p' = Server.p_respawning p
                 /\ Server.p_respawnTime p' = Server.p_respawnTime p
                 /\ Server.p_isSpectator p' = Server.p_isSpectator p
                 /\ (String.eqb (Server.md_id data) id = false -> p' = p)).
  { intros s Hs id p Hp. exists p. rewrite Hs. unfold sameIdentity. auto 10. }
  destruct (JsMap.get (Server.players st) (Server.md_id data)) as [player|] eqn:Hpl.
  2:{ inversion Hmove. subst. auto. }
  destruct (Server.validateMove (Server.players st) player
                                (Server.md_position data)) as [[|]|];
    [|inversion Hmove; subst; cbn; auto | discriminate].
  destruct (Server.md_position data) as [np|]; [|inversion Hmove; subst; auto].
  inversion Hmove. subst st'. cbn [Server.eventLog Server.timers Server.players].
  split; [reflexivity|]. split; [reflexivity|].
  intros id p Hp. destruct (String.eqb_spec (Server.md_id data) id) as [E|Hne].
  - rewrite E in *. assert (p = player) by congruence. subst p.
    eexists. rewrite get_set_eq. split; [reflexivity|].
    unfold sameIdentity. cbn. repeat split; try reflexivity. discriminate.
  - exists p. rewrite get_set_neq by assumption. unfold sameIdentity. auto 10.
Qed.

Lemma a_move_changes_only_the_mover_witness :
  JsMap.get (Server.players MoreExamples.afterKnightMove) "p"
  = Some Examples.whitePawn
  /\ option_map Server.p_position
       (JsMap.get (Server.players MoreExamples.afterKnightMove) "n")
     = Some (mkPos 2 5).
Proof.
  destruct (a_move_changes_only_the_mover 30 "n"
              (Server.mkMove "n" (Some (mkPos 2 5))) Examples.knightAndPawn
              MoreExamples.afterKnightMove eq_refl) as [_ [_ H]].
  destruct (H "p"%string Examples.whitePawn eq_refl)
    as [p' [Hget [_ [_ [_ [_ [_ Hother]]]]]]].
  split; [|reflexivity].
  rewrite Hget. f_equal. exact (Hother eq_refl).
Defined.

(** X11.  Play never changes who a piece is: after a move, an ability, a
    disconnect, a client event or a respawn timer, every piece in the
    registry was there before under the same key, with the same id, type and
    team.  Only a registration can introduce a piece or change these. *)
Theorem identity_is_fixed_in_play :
  forall (st st' : Server.State),
    PlayStep st st' ->
    forall id p',
      JsMap.get (Server.players st') id = Some p' ->
      exists p,
        JsMap.get (Server.players st) id = Some p /\ sameIdentity p p'.
Proof.
  intros st st' Hstep id p' Hp'.
  destruct (play_step_pieces st st' Hstep id p' Hp') as [p [Hp [Hsame _]]].
  exists p. auto.
Qed.

Lemma identity_is_fixed_in_play_witness :
  exists p,
    JsMap.get (Server.players Examples.kingDuel) "k" = Some p
    /\ sameIdentity p
         (Server.mkPlayer "k" king black (mkPos 4 4) (-5) 20 true (Some 5030) false).
Proof.
  apply (identity_is_fixed_in_play Examples.kingDuel
           (Server.onAbility Server.gameSettings 30
              (mkAbilityMsg "a" (mkPos 4 4) (Some 20)) Examples.kingDuel)
           (play_ability 30 (mkAbilityMsg "a" (mkPos 4 4) (Some 20))
                         Examples.kingDuel)
           "k"%string).
  reflexivity.
Defined.

(** X12.  Play keeps the pieces on the board: if every registered piece
    stands on a board square, it still does after a move, an ability, a
    disconnect, a client event or a respawn timer. *)
Theorem play_keeps_pieces_on_the_board :
  forall (st st' : Server.State),
    allOnBoard st -> PlayStep st st' -> allOnBoard st'.
Proof.
  intros st st' Hall Hstep id p' Hp'.
  destruct (play_step_pieces st st' Hstep id p' Hp') as [p [Hp [_ [Hpos | Hv]]]].
  - rewrite Hpos. exact (Hall id p Hp).
  - exact Hv.
Qed.

Lemma play_keeps_pieces_on_the_board_witness :
  allOnBoard (Server.fireTimer (mkPos 7 0) Examples.pawnDefeated).
Proof.
  apply (play_keeps_pieces_on_the_board Examples.pawnDefeated).
  - intros id p H. apply get_In in H. vm_compute in H.
    destruct H as [H | [H | []]]; inversion H; reflexivity.
  - apply play_timer. split; cbn; lia.
Defined.

(** X13.  In every state the handlers reach, no id occurs twice in the
    registry and every record is stored under its own id. *)
Theorem registry_keys_are_the_ids :
  forall st : Server.State,
    Server.Reachable st ->
    NoDup (JsMap.keys (Server.players st))
    /\ forall k p, In (k, p) (Server.players st) -> Server.p_id p = k.
Proof.
  intros st H. exact (reachable_wellKeyed st H).
Qed.

Lemma registry_keys_are_the_ids_witness :
  NoDup (JsMap.keys (Server.players Examples.pawnGone))
  /\ forall k p, In (k, p) (Server.players Examples.pawnGone) -> Server.p_id p = k.
Proof.
  apply (registry_keys_are_the_ids Examples.pawnGone).
  apply Server.reach_disconnect, Server.reach_ability.
  apply Server.reach_confirm, Server.reach_confirm, Server.reach_initial.
Defined.

(** X14.  The 'gameState' message a confirmation sends to the newcomer
    holds the registry with the newcomer in it and the end of the event
    log: the whole log when it has at most ten entries, its last ten
    otherwise. *)
Theorem game_state_carries_the_last_ten_events :
  forall (now : Z) (sid : string) (data : Server.ConfirmData)
         (st : Server.State),
    let st' := Server.onConfirmPieceAssignment now sid data st in
    exists events time,
      In (Server.EmitGameState sid (Server.players st') events time)
         (Server.emitted st')
      /\ List.length events = Nat.min 10 (List.length (Server.eventLog st))
      /\ (exists older, Server.eventLog st = older ++ events)
      /\ exists newcomer,
           JsMap.get (Server.players st') (Server.cd_id data) = Some newcomer
           /\ Server.p_position newcomer = Server.cd_position data.
Proof.
  intros now sid data st st'. subst st'.
  exists (Server.lastTen (Server.eventLog st)), now.
  unfold Server.onConfirmPieceAssignment.
  cbn [Server.players Server.emitted]. repeat split.
  - apply in_or_app. right. now left.
  - unfold Server.lastTen. rewrite length_skipn. lia.
  - exists (firstn (List.length (Server.eventLog st) - 10) (Server.eventLog st)).
    symmetry. apply firstn_skipn.
  - eexists. split; [apply get_set_eq | reflexivity].
Qed.

(** X15.  When its timer fires, a piece that is still registered is put
    back to the base health of its type on the random square, marked as no
    longer respawning, whatever its health was; the other pieces and the log
    are as they were. *)
Theorem respawn_resets_the_piece :
  forall (rp : Position) (id : string) (st : Server.State) (p : Server.Player),
    JsMap.get (Server.players st) id = Some p ->
    JsMap.get (Server.players (Server.respawnCallback rp id st)) id
    = Some (Server.mkPlayer (Server.p_id p) (Server.p_type p) (Server.p_team p)
              rp (Server.getBaseHp (Server.p_type p))
              (Server.p_lastMoveTime p) false (Server.p_respawnTime p)
              (Server.p_isSpectator p))
    /\ (forall other,
           String.eqb id other = false ->
           JsMap.get (Server.players (Server.respawnCallback rp id st)) other
           = JsMap.get (Server.players st) other)
    /\ Server.eventLog (Server.respawnCallback rp id st) = Server.eventLog st.
Proof.
  intros rp id st p Hget. unfold Server.respawnCallback, JsMap.has.
  rewrite Hget. cbn [Server.players Server.eventLog].
  split; [apply get_set_eq|]. split; [|reflexivity].
  intros other Hne. apply get_set_neq. now apply String.eqb_neq.
Qed.

Lemma respawn_resets_the_piece_witness :
  JsMap.get (Server.players (Server.respawnCallback (mkPos 7 0) "b"
                                                    Examples.pawnDefeated)) "b"
  = Some (Server.mkPlayer "b" pawn black (mkPos 7 0) 5 20 false (Some 5030) false).
Proof.
  apply (respawn_resets_the_piece (mkPos 7 0) "b" Examples.pawnDefeated
           (Server.mkPlayer "b" pawn black (mkPos 4 4) 0 20 true (Some 5030) false)).
  reflexivity.
Defined.

(** X16.  A disconnect removes the leaver's id and nothing else: every
    other piece, the log and the pending respawn timers (the leaver's own
    among them) are as before. *)
Theorem disconnect_removes_only_the_leaver :
  forall (sid : string) (st : Server.State),
    (forall id,
        JsMap.get (Server.players (Server.onDisconnect sid st)) id
        = if String.eqb sid id then None else JsMap.get (Server.players st) id)
    /\ Server.timers (Server.onDisconnect sid st) = Server.timers st
    /\ Server.eventLog (Server.onDisconnect sid st) = Server.eventLog st.
Proof.
  intros sid st. unfold Server.onDisconnect.
  cbn [Server.players Server.timers Server.eventLog].
  split; [|split; reflexivity].
  intros id. destruct (String.eqb_spec sid id) as [->|Hne].
  - apply get_delete_eq.
  - now apply get_delete_neq.
Qed.

(** X17.  An ability aimed at a square on which no piece of the other team
    stands hurts nobody: the registry, the log and the timers are as they
    were, and the one thing done is the broadcast of the update. *)
Theorem ability_on_a_square_without_opponents :
  forall (now : Z) (data : AbilityMsg) (st : Server.State)
         (attacker : Server.Player),
    JsMap.get (Server.players st) (am_id data) = Some attacker ->
    (forall k p,
        In (k, p) (Server.players st) ->
        pos_eqb (Server.p_position p) (am_target data) = true ->
        Server.p_team p = Server.p_team attacker) ->
    Server.onAbility Server.gameSettings now data st
    = Server.mkState (Server.players st) (Server.eventLog st) (Server.timers st)
        (Server.emitted st ++ [Server.EmitUpdate (Server.players st)]).
Proof.
  intros now data st attacker Hatt Hnone. unfold Server.onAbility.
  rewrite Hatt.
  assert (E : Server.findTargetsAtPosition Server.gameSettings (Server.players st)
                (am_target data) (Server.p_team attacker) = []).
  { unfold Server.findTargetsAtPosition.
    assert (forall l,
               (forall k p, In (k, p) l ->
                            pos_eqb (Server.p_position p) (am_target data) = true ->
                            Server.p_team p = Server.p_team attacker) ->
               filter (fun kv : string * Server.Player =>
                         pos_eqb (Server.p_position (snd kv)) (am_target data)
                         && negb (negb (Server.friendlyFire Server.gameSettings)
                                  && team_eqb (Server.p_team (snd kv))
                                              (Server.p_team attacker))) l = [])
      as Hf.
    { induction l as [|[k p] l IH]; intros Hl; cbn; [reflexivity|].
      destruct (pos_eqb (Server.p_position p) (am_target data)) eqn:Ep; cbn.
      - rewrite (Hl k p (or_introl eq_refl) Ep).
        rewrite (proj2 (team_eqb_eq _ _) eq_refl). cbn.
        apply IH. intros k' p' Hin. apply (Hl k' p'). now right.
      - apply IH. intros k' p' Hin. apply (Hl k' p'). now right. }
    now rewrite (Hf _ Hnone). }
  rewrite E. reflexivity.
Qed.

Lemma ability_on_a_square_without_opponents_witness :
  Server.onAbility Server.gameSettings 30 (mkAbilityMsg "n" (mkPos 3 6) (Some 1))
                   Examples.knightAndPawn
  = Server.mkState (Server.players Examples.knightAndPawn)
      (Server.eventLog Examples.knightAndPawn)
      (Server.timers Examples.knightAndPawn)
      (Server.emitted Examples.knightAndPawn
       ++ [Server.EmitUpdate (Server.players Examples.knightAndPawn)]).
Proof.
  apply (ability_on_a_square_without_opponents 30
           (mkAbilityMsg "n" (mkPos 3 6) (Some 1)) Examples.knightAndPawn
           Examples.whiteKnight eq_refl).
  intros k p [H | [H | []]] _; inversion H; reflexivity.
Defined.

Lemma a_move_log (now : Z) (sid : string) (data : Server.MoveData)
      (st st' : Server.State) :
  Server.onMove now sid data st = Some st' ->
  Server.eventLog st' = Server.eventLog st.
Proof.
  unfold Server.onMove.
  destruct (JsMap.get (Server.players st) (Server.md_id data)) as [player|];
    [|intros H; inversion H; reflexivity].
  destruct (Server.validateMove _ _ _) as [[|]|];
    [destruct (Server.md_position data)| |discriminate];
    intros H; inversion H; reflexivity.
Qed.

(** X18.  The event log only grows: a registration leaves it as it is, and
    every event of play keeps what was logged and may add entries at the
    end. *)
Theorem the_event_log_only_grows :
  (forall now sid data st,
      Server.eventLog (Server.onConfirmPieceAssignment now sid data st)
      = Server.eventLog st)
  /\ (forall st st',
         PlayStep st st' ->
         exists more, Server.eventLog st' = Server.eventLog st ++ more).
Proof.
  split; [reflexivity|].
  intros st st' Hstep.
  destruct Hstep as [now sid data st st' Hmove | now data st | sid st
                    | now eventData st | rp st Hrp].
  - destruct (a_move_log now sid data st st' Hmove). exists [].
    now rewrite app_nil_r.
  - destruct (JsMap.get (Server.players st) (am_id data)) as [attacker|] eqn:Hatt.
    + unfold Server.onAbility. rewrite Hatt. cbn [Server.eventLog].
      destruct (fold_hitTarget_keeps Server.gameSettings now attacker
                  (am_damage data)
                  (Server.findTargetsAtPosition Server.gameSettings
                     (Server.players st) (am_target data)
                     (Server.p_team attacker)) st EmptyString)
        as [_ [_ Hlog]].
      exact Hlog.
    + unfold Server.onAbility. rewrite Hatt. exists []. now rewrite app_nil_r.
  - exists []. now rewrite app_nil_r.
  - cbn. eauto.
  - unfold Server.fireTimer. destruct (Server.timers st) as [|t rest].
    + exists []. now rewrite app_nil_r.
    + unfold Server.respawnCallback, JsMap.has. cbn [Server.players].
      destruct (JsMap.get (Server.players st) (Server.tm_id t));
        cbn [Server.eventLog]; exists []; now rewrite app_nil_r.
Qed.

Lemma the_event_log_only_grows_witness :
  exists more,
    Server.eventLog Examples.pawnDefeated
    = Server.eventLog Examples.pawnDuel ++ more.
Proof.
  apply (proj2 the_event_log_only_grows Examples.pawnDuel Examples.pawnDefeated).
  apply play_ability.
Defined.

(** ** Writing and reading the rule engine's board *)

Section BoardFacts.
Import ChessRules.

Lemma nth_writeAt {A : Type} (hole : A) (l : list A) (i j : nat) (v : A) :
  nth j (writeAt hole l i v) hole = if Nat.eqb j i then v else nth j l hole.
Proof.
  revert l j. induction i as [|i IH]; intros l j.
  - destruct l, j; cbn; try reflexivity. now destruct j.
  - destruct l as [|h l], j as [|j]; cbn [writeAt nth Nat.eqb]; try reflexivity.
    + rewrite IH. destruct (Nat.eqb j i); [reflexivity | now destruct j].
    + apply IH.
Qed.

Lemma nth_first_eight {A : Type} (f : nat -> A) (rest : list A) (d : A) (n : nat) :
  (n < 8)%nat -> nth n (map f (seq 0 8) ++ rest) d = f n.
Proof.
  intros Hn. do 8 (destruct n as [|n]; [reflexivity|]). lia.
Qed.

Lemma readCell_ensure (b : Board) (q : Position) :
  isValidPosition q = true ->
  readCell (ensureBoardInitialized b) q = readCell b q.
Proof.
  intros V. apply isValidPosition_iff in V. unfold readCell, ensureBoardInitialized.
  rewrite nth_first_eight by lia.
  destruct (nth_error b (Z.to_nat (pos_z q))) as [row|] eqn:E.
  - rewrite (nth_error_nth _ _ [] E). unfold ensureRow.
    now rewrite nth_first_eight by lia.
  - apply nth_error_None in E. rewrite (nth_overflow b [] E).
    unfold emptyRow. rewrite nth_repeat. now destruct (Z.to_nat (pos_x q)).
Qed.

Lemma readCell_ensureRows (b : Board) (q : Position) :
  isValidPosition q = true ->
  readCell (ensureRows b) q = readCell b q.
Proof.
  intros V. apply isValidPosition_iff in V. unfold readCell, ensureRows.
  rewrite nth_first_eight by lia.
  destruct (nth_error b (Z.to_nat (pos_z q))) as [row|] eqn:E.
  - now rewrite (nth_error_nth _ _ [] E).
  - apply nth_error_None in E. rewrite (nth_overflow b [] E).
    unfold emptyRow. rewrite nth_repeat. now destruct (Z.to_nat (pos_x q)).
Qed.

Lemma getPieceAt_read (b : Board) (q : Position) :
  isValidPosition q = true -> getPieceAt b q = readCell b q.
Proof.
  intros V. unfold getPieceAt. rewrite V. now apply readCell_ensure.
Qed.

(* boardState[z][x] = v, read back from any board square *)
Lemma readCell_write (b : Board) (p q : Position) (v : option Cell) :
  isValidPosition p = true -> isValidPosition q = true ->
  readCell (RulesUpdate.writeCell b p v) q
  = if pos_eqb q p then v else readCell b q.
Proof.
  intros Vp Vq. apply isValidPosition_iff in Vp. apply isValidPosition_iff in Vq.
  unfold readCell, RulesUpdate.writeCell, pos_eqb.
  rewrite (nth_writeAt [] b).
  destruct (Nat.eqb_spec (Z.to_nat (pos_z q)) (Z.to_nat (pos_z p))) as [Ez|Ez].
  - rewrite (nth_writeAt None).
    replace (pos_z q =? pos_z p) with true by (symmetry; apply Z.eqb_eq; lia).
    rewrite andb_true_r.
    destruct (Nat.eqb_spec (Z.to_nat (pos_x q)) (Z.to_nat (pos_x p))) as [Ex|Ex].
    + replace (pos_x q =? pos_x p) with true by (symmetry; apply Z.eqb_eq; lia).
      reflexivity.
    + replace (pos_x q =? pos_x p) with false by (symmetry; apply Z.eqb_neq; lia).
      now rewrite Ez.
  - replace (pos_z q =? pos_z p) with false by (symmetry; apply Z.eqb_neq; lia).
    now rewrite andb_false_r.
Qed.

Lemma placeOnBoard_is_writeCell (b : Board) (p : Position) (c : Cell) :
  placeOnBoard b p c = RulesUpdate.writeCell b p (Some c).
Proof. reflexivity. Qed.

Lemma getPieceAt_off_board (b : Board) (q : Position) :
  isValidPosition q = false -> getPieceAt b q = None.
Proof. intros V. unfold getPieceAt. now rewrite V. Qed.

(* a write on a board square, seen through getPieceAt *)
Lemma getPieceAt_write (b : Board) (p q : Position) (v : option Cell) :
  isValidPosition p = true ->
  getPieceAt (RulesUpdate.writeCell b p v) q
  = if pos_eqb q p then v else getPieceAt b q.
Proof.
  intros Vp. destruct (isValidPosition q) eqn:Vq.
  - rewrite !getPieceAt_read by assumption. now apply readCell_write.
  - rewrite !getPieceAt_off_board by assumption.
    destruct (pos_eqb q p) eqn:E; [|reflexivity].
    apply pos_eqb_eq in E. congruence.
Qed.

Lemma getPieceAt_ensureRows (b : Board) (q : Position) :
  getPieceAt (ensureRows b) q = getPieceAt b q.
Proof.
  destruct (isValidPosition q) eqn:Vq.
  - rewrite !getPieceAt_read by assumption. now apply readCell_ensureRows.
  - now rewrite !getPieceAt_off_board.
Qed.

Lemma getPieceAt_vacate (b : Board) (old q : Position) :
  getPieceAt (RulesUpdate.vacate b old) q
  = if pos_eqb q old then None else getPieceAt b q.
Proof.
  unfold RulesUpdate.vacate.
  destruct (isValidPosition old) eqn:Vold.
  - assert (Hread : forall b', b' = b ->
               readCell b old = None ->
               getPieceAt b' q = if pos_eqb q old then None else getPieceAt b q).
    { intros b' -> Hnone. destruct (pos_eqb q old) eqn:E; [|reflexivity].
      apply pos_eqb_eq in E. subst q. now rewrite getPieceAt_read. }
    destruct (nth_error b (Z.to_nat (pos_z old))) as [row|] eqn:Erow.
    + destruct (nth (Z.to_nat (pos_x old)) row None) as [c|] eqn:Ecell.
      * now apply getPieceAt_write.
      * apply Hread; [reflexivity|]. unfold readCell.
        now rewrite (nth_error_nth _ _ [] Erow).
    + apply Hread; [reflexivity|]. unfold readCell.
      apply nth_error_None in Erow. rewrite (nth_overflow b [] Erow).
      now destruct (Z.to_nat (pos_x old)).
  - destruct (pos_eqb q old) eqn:E; [|reflexivity].
    apply pos_eqb_eq in E. subst q. now apply getPieceAt_off_board.
Qed.

End BoardFacts.

(** ** The rule engine's registry and board *)

(** X19.  Registering a piece under a non-empty id on a board square puts its
    id, type and team on that square, whatever stood there, stores the data
    under the id, and leaves what every other square shows as it was. *)
Theorem registered_piece_is_on_its_square :
  forall (r : ChessRules.Rules) (id : string) (pd : ChessRules.PieceData),
    id <> EmptyString ->
    ChessRules.isValidPosition (ChessRules.pd_position pd) = true ->
    let r' := fst (ChessRules.registerPiece r id (Some pd)) in
    ChessRules.getPieceAt (ChessRules.boardState r') (ChessRules.pd_position pd)
    = Some (ChessRules.mkCell id (ChessRules.pd_type pd) (ChessRules.pd_team pd))
    /\ (forall q, q <> ChessRules.pd_position pd ->
          ChessRules.getPieceAt (ChessRules.boardState r') q
          = ChessRules.getPieceAt (ChessRules.boardState r) q)
    /\ RulesUpdate.getPieceById r' id
       = Some (ChessRules.mkPieceData id (ChessRules.pd_type pd)
                 (ChessRules.pd_team pd) (ChessRules.pd_position pd)
                 (ChessRules.pd_hp pd))
    /\ snd (ChessRules.registerPiece r id (Some pd))
       = RulesUpdate.getPieceById r' id.
Proof.
  intros r id pd Hid V r'. subst r'. unfold ChessRules.registerPiece.
  apply String.eqb_neq in Hid. rewrite Hid, V.
  cbn [fst snd ChessRules.boardState ChessRules.pieces].
  unfold RulesUpdate.getPieceById. cbn [ChessRules.pieces].
  rewrite placeOnBoard_is_writeCell.
  repeat split.
  - rewrite getPieceAt_write by assumption.
    now rewrite (proj2 (pos_eqb_eq _ _) eq_refl).
  - intros q Hq. rewrite getPieceAt_write by assumption.
    destruct (pos_eqb q (ChessRules.pd_position pd)) eqn:E.
    + apply pos_eqb_eq in E. contradiction.
    + apply getPieceAt_ensureRows.
  - apply get_set_eq.
Qed.

Lemma registered_piece_is_on_its_square_witness :
  ChessRules.getPieceAt
    (ChessRules.boardState
       (fst (ChessRules.registerPiece
               (ChessRules.mkRules Examples.pawnBoard []) "q"
               (Some (ChessRules.mkPieceData "x" queen black (mkPos 3 0) 8)))))
    (mkPos 3 0)
  = Some (ChessRules.mkCell "q" queen black)
  /\ RulesUpdate.getPieceById
       (fst (ChessRules.registerPiece
               (ChessRules.mkRules Examples.pawnBoard []) "q"
               (Some (ChessRules.mkPieceData "x" queen black (mkPos 3 0) 8))))
       "q"
     = Some (ChessRules.mkPieceData "q" queen black (mkPos 3 0) 8).
Proof.
  pose proof (registered_piece_is_on_its_square
                (ChessRules.mkRules Examples.pawnBoard []) "q"
                (ChessRules.mkPieceData "x" queen black (mkPos 3 0) 8)
                ltac:(discriminate) eq_refl) as [H1 [_ [H3 _]]].
  split; [exact H1 | exact H3].
Defined.

(** X20.  Moving a registered piece to a board square succeeds: the new
    square shows the piece, the square it is recorded to have left shows
    nothing, every other square shows what it did, and the stored data
    differ in the position only.  For an unknown id or a square off the
    board the call returns false and changes nothing. *)
Theorem update_moves_the_piece_on_the_board :
  forall (r : ChessRules.Rules) (id : string) (newPosition : Position),
    let r' := fst (RulesUpdate.updatePiecePosition r id newPosition) in
    let ok := snd (RulesUpdate.updatePiecePosition r id newPosition) in
    match RulesUpdate.getPieceById r id with
    | None => r' = r /\ ok = false
    | Some piece =>
        if ChessRules.isValidPosition newPosition
        then ok = true
             /\ ChessRules.getPieceAt (ChessRules.boardState r') newPosition
                = Some (ChessRules.mkCell id (ChessRules.pd_type piece)
                                          (ChessRules.pd_team piece))
             /\ (ChessRules.pd_position piece <> newPosition ->
                 ChessRules.getPieceAt (ChessRules.boardState r')
                                       (ChessRules.pd_position piece) = None)
             /\ (forall q, q <> newPosition ->
                           q <> ChessRules.pd_position piece ->
                   ChessRules.getPieceAt (ChessRules.boardState r') q
                   = ChessRules.getPieceAt (ChessRules.boardState r) q)
             /\ RulesUpdate.getPieceById r' id
                = Some (ChessRules.mkPieceData
                          (ChessRules.pd_id piece) (ChessRules.pd_type piece)
                          (ChessRules.pd_team piece) newPosition
                          (ChessRules.pd_hp piece))
        else r' = r /\ ok = false
    end.
Proof.
  intros r id newPosition. cbv zeta.
  unfold RulesUpdate.updatePiecePosition, RulesUpdate.getPieceById.
  destruct (JsMap.get (ChessRules.pieces r) id) as [piece|]; [|now split].
  destruct (ChessRules.isValidPosition newPosition) eqn:V; [|now split].
  cbn [negb fst snd ChessRules.boardState ChessRules.pieces].
  assert (Hread : forall q,
             ChessRules.getPieceAt
               (RulesUpdate.writeCell
                  (ChessRules.ensureBoardInitialized
                     (RulesUpdate.vacate (ChessRules.boardState r)
                                         (ChessRules.pd_position piece)))
                  newPosition
                  (Some (ChessRules.mkCell id (ChessRules.pd_type piece)
                                           (ChessRules.pd_team piece)))) q
             = if pos_eqb q newPosition
               then Some (ChessRules.mkCell id (ChessRules.pd_type piece)
                                            (ChessRules.pd_team piece))
               else if pos_eqb q (ChessRules.pd_position piece) then None
                    else ChessRules.getPieceAt (ChessRules.boardState r) q).
  { intros q. rewrite getPieceAt_write by assumption.
    destruct (pos_eqb q newPosition); [reflexivity|].
    rewrite getPieceAt_ensure. apply getPieceAt_vacate. }
  assert (Hneq : forall p q : Position, p <> q -> pos_eqb p q = false).
  { intros p q Hpq. destruct (pos_eqb p q) eqn:E; [|reflexivity].
    apply pos_eqb_eq in E. contradiction. }
  repeat split.
  - rewrite Hread. now rewrite (proj2 (pos_eqb_eq _ _) eq_refl).
  - intros Hmoved. rewrite Hread, (Hneq _ _ Hmoved).
    now rewrite (proj2 (pos_eqb_eq _ _) eq_refl).
  - intros q Hq1 Hq2. now rewrite Hread, (Hneq _ _ Hq1), (Hneq _ _ Hq2).
  - apply get_set_eq.
Qed.

(** ** Jumps in the rule engine, and the rule engine against the server *)

Lemma not_own_is_free (b : ChessRules.Board) (team : Team) (p : Position) :
  (forall c, ChessRules.getPieceAt b p = Some c -> ChessRules.cell_team c <> team) ->
  freeFor b team p.
Proof.
  intros H. unfold freeFor, ChessRules.isPositionOccupied.
  destruct (ChessRules.getPieceAt b p) as [c|] eqn:E.
  - right. apply opponent_iff_team. exists c. split; [assumption | now apply H].
  - left. now destruct (ChessRules.isValidPosition p).
Qed.

Lemma jump_piece_moves (b : ChessRules.Board) (position : Position)
      (piece : ChessRules.Cell) :
  ChessRules.getPieceAt b position = Some piece ->
  jumpsOf (ChessRules.cell_type piece) <> [] ->
  ChessRules.getValidMoves b position
  = ChessRules.offsetMoves b position (ChessRules.cell_team piece)
                           (jumpsOf (ChessRules.cell_type piece)).
Proof.
  intros Hp Hj. unfold ChessRules.getValidMoves.
  rewrite (piece_on_board b position piece Hp), Hp. cbn [negb].
  destruct (ChessRules.cell_type piece); cbn in Hj |- *;
    try reflexivity; contradiction.
Qed.

(** X21.  For a knight and for a king the rule engine lists exactly the
    squares one of the type's eight jumps away that are on the board and do
    not hold a piece of the mover's team; whatever stands in between is of
    no account. *)
Theorem jump_destinations_exact :
  forall (b : ChessRules.Board) (position : Position) (piece : ChessRules.Cell)
         (m : Position),
    ChessRules.getPieceAt b position = Some piece ->
    ChessRules.cell_type piece = knight \/ ChessRules.cell_type piece = king ->
    (In m (ChessRules.getValidMoves b position) <->
     (exists jump,
         In jump (jumpsOf (ChessRules.cell_type piece))
         /\ m = mkPos (pos_x position + pos_x jump) (pos_z position + pos_z jump))
     /\ ChessRules.isValidPosition m = true
     /\ forall occupant,
          ChessRules.getPieceAt b m = Some occupant ->
          ChessRules.cell_team occupant <> ChessRules.cell_team piece).
Proof.
  intros b position piece m Hp Htype.
  rewrite (jump_piece_moves b position piece Hp)
    by (destruct Htype as [-> | ->]; discriminate).
  rewrite offsetMoves_In. split.
  - intros [Hj [V Hfree]]. repeat split; try assumption.
    now apply freeFor_not_own.
  - intros [Hj [V Hocc]]. repeat split; try assumption.
    now apply not_own_is_free.
Qed.

Lemma jump_destinations_exact_witness :
  In (mkPos 2 5) (ChessRules.getValidMoves Examples.knightBoard (mkPos 1 7))
  /\ ~ In (mkPos 3 6) (ChessRules.getValidMoves Examples.knightBoard (mkPos 1 7)).
Proof.
  split.
  - apply (jump_destinations_exact Examples.knightBoard (mkPos 1 7)
             (ChessRules.mkCell "n" knight white) (mkPos 2 5) eq_refl
             (or_introl eq_refl)).
    split; [exists (mkPos 1 (-2)); split; [cbn; tauto | reflexivity]|].
    split; [reflexivity|]. intros occupant H. vm_compute in H. discriminate.
  - intros H.
    apply (jump_destinations_exact Examples.knightBoard (mkPos 1 7)
             (ChessRules.mkCell "n" knight white) (mkPos 3 6) eq_refl
             (or_introl eq_refl)) in H.
    destruct H as [_ [_ H]].
    now apply (H (ChessRules.mkCell "p" pawn white)).
Defined.

Lemma validateMove_jump (ps : list (string * Server.Player))
      (player : Server.Player) (jump : Position) :
  In jump (jumpsOf (Server.p_type player)) ->
  let np := mkPos (pos_x (Server.p_position player) + pos_x jump)
                  (pos_z (Server.p_position player) + pos_z jump) in
  ChessRules.isValidPosition np = true ->
  Server.validateMove ps player (Some np) = Some true.
Proof.
  intros Hin np V. unfold Server.validateMove.
  rewrite (on_board_passes_bounds np V). subst np. cbn [pos_x pos_z].
  destruct (Server.p_type player); cbn in Hin; try contradiction;
    repeat (destruct Hin as [<- | Hin];
            [cbn [pos_x pos_z]; f_equal;
             rewrite ?orb_true_iff, ?andb_true_iff, ?Z.eqb_eq, ?Z.leb_le; lia|]);
    contradiction.
Qed.

(** X22.  When the server's registry and the rule engine's board show the
    same position, every destination the rule engine lists for a piece,
    which are the squares the key handler of main.js lets the piece step
    on (canMove), is accepted by the server's move validation for that
    piece: a client that moves by the rule engine is never turned down. *)
Theorem rule_engine_moves_pass_the_server :
  forall (b : ChessRules.Board) (ps : list (string * Server.Player))
         (player : Server.Player) (piece : ChessRules.Cell) (d : Position),
    boardCovers b ps ->
    ChessRules.getPieceAt b (Server.p_position player) = Some piece ->
    Server.p_type player = ChessRules.cell_type piece ->
    Server.p_team player = ChessRules.cell_team piece ->
    RulesUpdate.canMove b (Server.p_position player) d = true ->
    Server.validateMove ps player (Some d) = Some true.
Proof.
  intros b ps player piece d [Hany Hopp] Hp Htype Hteam Hcan.
  assert (Hd : In d (ChessRules.getValidMoves b (Server.p_position player))).
  { unfold RulesUpdate.canMove in Hcan. apply existsb_exists in Hcan.
    destruct Hcan as [move [Hin E]]. apply pos_eqb_eq in E. now subst move. }
  clear Hcan.
  destruct (valid_moves_sound b _ piece d Hp Hd) as [V _].
  assert (Hkind : ChessRules.cell_type piece = pawn
                  \/ rayDirections (ChessRules.cell_type piece) <> []
                  \/ jumpsOf (ChessRules.cell_type piece) <> []
                  \/ ChessRules.cell_type piece = otherType)
    by (destruct (ChessRules.cell_type piece); cbn;
        first [now left | now (right; left) | now (right; right; left)
              | now (right; right; right)]).
  destruct Hkind as [Hpawn | [Hray | [Hjump | Hother]]].
  - (* pawn *)
    apply validateMove_pawn; [congruence|]. split; [assumption|].
    unfold ChessRules.getValidMoves in Hd.
    rewrite (piece_on_board b _ piece Hp), Hp, Hpawn in Hd. cbn [negb] in Hd.
    apply getPawnMoves_In in Hd. rewrite Hteam.
    assert (Hdir : ChessRules.direction (ChessRules.cell_team piece)
                   = match ChessRules.cell_team piece with
                     | white => -1 | black => 1 end)
      by (now destruct (ChessRules.cell_team piece)).
    rewrite Hdir in Hd.
    destruct Hd as [[-> _] | [[-> [Hrow _]] | [Hdiag [_ Ho]]]].
    + left. now split.
    + right; left. cbn [pos_x pos_z]. repeat split.
      unfold ChessRules.isStartingRow in Hrow.
      destruct (ChessRules.cell_team piece); now apply Z.eqb_eq in Hrow.
    + right; right. apply Hopp in Ho.
      destruct Hdiag as [-> | ->]; cbn [pos_x pos_z]; repeat split;
        solve [now left | now right | assumption].
  - (* rook, bishop, queen *)
    apply (ray_piece_moves b _ piece d Hp Hray) in Hd.
    destruct Hd as [dir [Hdir Hray']].
    apply castRay_In in Hray'.
    destruct Hray' as [j [Hj [-> [_ [Hempty _]]]]].
    rewrite <- Htype in Hdir.
    destruct (validateMove_along ps player dir j Hdir ltac:(lia) V)
      as [r [Hr Hblocked]].
    rewrite Hr. destruct r; [reflexivity|].
    destruct (proj1 Hblocked eq_refl) as [i [Hi Hat]].
    apply Hany in Hat. rewrite Hempty in Hat by lia. discriminate.
  - (* knight, king *)
    rewrite (jump_piece_moves b _ piece Hp Hjump) in Hd.
    apply offsetMoves_In in Hd. destruct Hd as [[jump [Hin ->]] _].
    rewrite <- Htype in Hin. now apply validateMove_jump.
  - unfold ChessRules.getValidMoves in Hd.
    rewrite (piece_on_board b _ piece Hp), Hp, Hother in Hd. contradiction.
Qed.

Lemma rule_engine_moves_pass_the_server_witness :
  RulesUpdate.canMove Examples.rookBoard (mkPos 0 0) (mkPos 0 3) = true
  /\ Server.validateMove (Server.players MoreExamples.rookAndBlackPawn)
                         Examples.whiteRook (Some (mkPos 0 3))
     = Some true.
Proof.
  assert (Hd : RulesUpdate.canMove Examples.rookBoard (mkPos 0 0) (mkPos 0 3)
               = true) by reflexivity.
  split; [exact Hd|].
  apply (rule_engine_moves_pass_the_server
           Examples.rookBoard (Server.players MoreExamples.rookAndBlackPawn)
           Examples.whiteRook (ChessRules.mkCell "r" rook white) (mkPos 0 3));
    try reflexivity; try exact Hd.
  split.
  - intros q H.
    assert (Hq : q = mkPos 0 0 \/ q = mkPos 0 3).
    { unfold Server.isAnyPieceAt in H. cbn [existsb Server.players
        MoreExamples.rookAndBlackPawn] in H. vm_compute Server.players in H.
      cbn [existsb snd Server.p_position] in H.
      rewrite !orb_true_iff in H.
      destruct H as [H | [H | H]]; [| | discriminate];
        apply pos_eqb_eq in H; auto. }
    destruct Hq as [-> | ->]; reflexivity.
  - intros [x z] team H.
    pose proof (opponent_occupied _ _ _ H) as Hocc.
    assert (V : ChessRules.isValidPosition (mkPos x z) = true).
    { unfold ChessRules.isPositionOccupied in Hocc.
      now destruct (ChessRules.isValidPosition (mkPos x z)). }
    apply isValidPosition_iff in V. cbn [pos_x pos_z] in V.
    assert (Hx : x = 0 \/ x = 1 \/ x = 2 \/ x = 3 \/ x = 4 \/ x = 5 \/ x = 6
                 \/ x = 7) by lia.
    assert (Hz : z = 0 \/ z = 1 \/ z = 2 \/ z = 3 \/ z = 4 \/ z = 5 \/ z = 6
                 \/ z = 7) by lia.
    clear V Hocc.
    repeat (destruct Hx as [-> | Hx]); try subst x;
      repeat (destruct Hz as [-> | Hz]); try subst z;
      vm_compute in H; try discriminate;
      destruct team; vm_compute in H; try discriminate; reflexivity.
Defined.

(** ** The cooldown gate of a piece *)

Lemma table_cooldown_pos (type : PieceType) :
  (0 < Pieces.ab_cooldown (Pieces.getAbilityDetails type))%Q.
Proof. destruct type; reflexivity. Qed.

(** X24.  useAbility is gated by the piece's own cooldown.  With a cooldown
    above 0 it leaves the piece as it is and returns nothing (and the
    variant that sends the message itself sends nothing).  Otherwise it
    returns the ability of the piece type and sets the cooldown to the
    type's fixed value (pawn 5, rook 10, knight 8, bishop 7, queen 12,
    king 15 seconds); that value is above 0 for every type, so a second use
    before any frame has passed is always refused. *)
Theorem an_accepted_use_starts_the_cooldown :
  forall (p : Pieces.ChessPiece) (target target' : Position)
         (socketDefined : bool),
    ((0 < Pieces.cp_cooldown p)%Q ->
     Pieces.useAbility p target = (p, None)
     /\ Pieces.useAbilityEmitting socketDefined p target = (p, None, []))
    /\ ((Pieces.cp_cooldown p <= 0)%Q ->
        let used := fst (Pieces.useAbility p target) in
        let fixed := match Pieces.cp_type p with
                     | pawn => 5 | rook => 10 | knight => 8 | bishop => 7
                     | queen => 12 | king => 15 | otherType => 5
                     end in
        snd (Pieces.useAbility p target)
        = Some (Pieces.getAbilityDetails (Pieces.cp_type p))
        /\ Pieces.cp_cooldown used = inject_Z fixed
        /\ fst (fst (Pieces.useAbilityEmitting socketDefined p target)) = used
        /\ Pieces.useAbility used target' = (used, None)
        /\ Pieces.useAbilityEmitting socketDefined used target'
           = (used, None, [])).
Proof.
  intros p target target' sd. split.
  - intros H. unfold Pieces.useAbility, Pieces.useAbilityEmitting.
    now rewrite (onCooldown_true p H).
  - intros H used fixed.
    assert (Hused : used = Pieces.setCooldown p
                             (Pieces.ab_cooldown
                                (Pieces.getAbilityDetails (Pieces.cp_type p)))).
    { subst used. unfold Pieces.useAbility. now rewrite (onCooldown_false p H). }
    assert (Hon : Pieces.onCooldown used = true).
    { apply onCooldown_true. rewrite Hused. apply table_cooldown_pos. }
    split; [|split; [|split; [|split]]].
    + unfold Pieces.useAbility. now rewrite (onCooldown_false p H).
    + rewrite Hused. subst fixed. cbn [Pieces.setCooldown Pieces.cp_cooldown].
      now destruct (Pieces.cp_type p).
    + rewrite Hused. unfold Pieces.useAbilityEmitting.
      now rewrite (onCooldown_false p H).
    + unfold Pieces.useAbility at 1. now rewrite Hon.
    + unfold Pieces.useAbilityEmitting. now rewrite Hon.
Qed.

Lemma an_accepted_use_starts_the_cooldown_witness :
  Pieces.useAbility Examples.coolingPawn (mkPos 4 6)
  = (Examples.coolingPawn, None)
  /\ Pieces.cp_cooldown
       (fst (Pieces.useAbility (Pieces.mkPiece "q" queen black 10 0) (mkPos 4 6)))
     = inject_Z 12.
Proof.
  split.
  - apply (proj1 (an_accepted_use_starts_the_cooldown
                    Examples.coolingPawn (mkPos 4 6) (mkPos 4 6) true)).
    reflexivity.
  - apply (proj2 (an_accepted_use_starts_the_cooldown
                    (Pieces.mkPiece "q" queen black 10 0) (mkPos 4 6)
                    (mkPos 4 6) true)).
    discriminate.
Defined.

(** ** Empty squares, loot drops and events *)

Section GameFacts.
Import Game GameEvents.

Lemma allSquares_onBoard (q : Position) :
  In q allSquares <-> onBoard q = true.
Proof.
  unfold allSquares, onBoard. rewrite in_flat_map.
  rewrite !andb_true_iff, !Z.leb_le, !Z.ltb_lt. split.
  - intros [x [Hx Hq]]. apply in_map_iff in Hq. destruct Hq as [z [<- Hz]].
    apply in_seq in Hx. apply in_seq in Hz. cbn [pos_x pos_z]. lia.
  - intros H. exists (Z.to_nat (pos_x q)). split; [apply in_seq; lia|].
    apply in_map_iff. exists (Z.to_nat (pos_z q)).
    split; [|apply in_seq; lia].
    destruct q as [x z]. cbn [pos_x pos_z] in *. f_equal; lia.
Qed.

Lemma firstn_In {A : Type} (n : nat) (l : list A) (x : A) :
  In x (firstn n l) -> In x l.
Proof.
  revert l. induction n as [|n IH]; intros [|h l]; cbn; try tauto.
  intros [H | H]; [now left | right; now apply IH].
Qed.

Lemma set_has_new {V : Type} (m : list (string * V)) (k : string) (v : V) :
  In (k, v) (JsMap.set m k v).
Proof. apply get_In, get_set_eq. Qed.

Lemma get_map_values {V : Type} (f : V -> V) (m : list (string * V))
      (k : string) :
  JsMap.get (map (fun kv => (fst kv, f (snd kv))) m) k
  = option_map f (JsMap.get m k).
Proof.
  induction m as [|[k0 v0] m IH]; cbn; [reflexivity|].
  now destruct (String.eqb k0 k).
Qed.

Lemma adjacent_is_one_step (q m : Position) :
  In m (adjacentSquares q) ->
  Z.abs (pos_x m - pos_x q) + Z.abs (pos_z m - pos_z q) = 1.
Proof.
  unfold adjacentSquares. cbn [In].
  intros [<- | [<- | [<- | [<- | []]]]]; cbn [pos_x pos_z]; lia.
Qed.

Lemma findEmptyPosition_Some (st : State) (probes : list Position)
      (position : Position) :
  Forall (fun q => onBoard q = true) probes ->
  findEmptyPosition st probes = Some position ->
  isPositionEmpty st position = true /\ onBoard position = true.
Proof.
  intros Hprobes. unfold findEmptyPosition.
  destruct (find (isPositionEmpty st) (firstn 20 probes)) as [found|] eqn:E1.
  - intros H. inversion H. subst found.
    apply find_some in E1. destruct E1 as [Hin He]. split; [assumption|].
    rewrite Forall_forall in Hprobes. apply Hprobes.
    exact (firstn_In _ _ _ Hin).
  - intros E2. apply find_some in E2. destruct E2 as [Hin He].
    split; [assumption|]. now apply allSquares_onBoard.
Qed.

Lemma findEmptyPosition_None (st : State) (probes : list Position) :
  findEmptyPosition st probes = None ->
  forall q, onBoard q = true -> isPositionEmpty st q = false.
Proof.
  unfold findEmptyPosition.
  destruct (find (isPositionEmpty st) (firstn 20 probes)); [discriminate|].
  intros E q Hq. apply (find_none _ _ E). now apply allSquares_onBoard.
Qed.

End GameFacts.

(** X25.  With its random squares drawn on the board, the search for an
    empty square returns a board square on which no player, entity or loot
    item stands, and it returns nothing only when no board square is empty:
    the random draws can miss, the sweep that follows cannot. *)
Theorem the_search_finds_an_empty_square :
  forall (st : Game.State) (probes : list Position),
    Forall (fun q => Game.onBoard q = true) probes ->
    match GameEvents.findEmptyPosition st probes with
    | Some position =>
        GameEvents.isPositionEmpty st position = true
        /\ Game.onBoard position = true
    | None =>
        forall q, Game.onBoard q = true -> GameEvents.isPositionEmpty st q = false
    end.
Proof.
  intros st probes Hprobes.
  destruct (GameEvents.findEmptyPosition st probes) as [position|] eqn:E.
  - exact (findEmptyPosition_Some st probes position Hprobes E).
  - exact (findEmptyPosition_None st probes E).
Qed.

Lemma the_search_finds_an_empty_square_witness :
  GameEvents.isPositionEmpty Examples.shieldGame (mkPos 0 0) = true
  /\ Game.onBoard (mkPos 0 0) = true.
Proof.
  exact (the_search_finds_an_empty_square
           Examples.shieldGame [mkPos 3 3; mkPos 0 0]
           ltac:(repeat constructor)).
Defined.

(** X26.  A loot drop on a board without an empty square changes nothing
    and announces nothing.  Otherwise the item is stored under its id on a
    board square that was empty, with a duration of 10 for a petal shield
    and 5 for the others; that square is no longer empty afterwards, and
    players and entities are as they were. *)
Theorem a_loot_drop_lands_on_an_empty_square :
  forall (socketDefined isEventLoot : bool) (probes : list Position)
         (lootType : Game.LootType) (lootId : string) (st : Game.State),
    Forall (fun q => Game.onBoard q = true) probes ->
    let st' := fst (GameEvents.spawnLoot socketDefined isEventLoot probes
                                         lootType lootId st) in
    let out := snd (GameEvents.spawnLoot socketDefined isEventLoot probes
                                         lootType lootId st) in
    ((forall q, Game.onBoard q = true -> GameEvents.isPositionEmpty st q = false)
     /\ st' = st /\ out = [])
    \/ (exists position,
           Game.onBoard position = true
           /\ GameEvents.isPositionEmpty st position = true
           /\ GameEvents.isPositionEmpty st' position = false
           /\ JsMap.get (Game.lootItems st') lootId
              = Some (Game.mkLoot lootId lootType position
                        (match lootType with Game.petalShield => 10 | _ => 5 end)
                        isEventLoot)
           /\ Game.players st' = Game.players st
           /\ Game.entities st' = Game.entities st
           /\ out = if socketDefined
                    then [GameEvents.mkLootSpawn lootId lootType position]
                    else []).
Proof.
  intros socketDefined isEventLoot probes lootType lootId st Hprobes.
  cbv zeta. unfold GameEvents.spawnLoot.
  destruct (GameEvents.findEmptyPosition st probes) as [position|] eqn:Hfind.
  - right. exists position.
    destruct (findEmptyPosition_Some st probes position Hprobes Hfind)
      as [He Hb].
    cbn [fst snd Game.players Game.entities Game.lootItems].
    repeat split; try assumption.
    + unfold GameEvents.isPositionEmpty in He |- *.
      cbn [Game.players Game.entities Game.lootItems].
      destruct (existsb _ (Game.players st)); [reflexivity|].
      destruct (existsb _ (Game.entities st)); [reflexivity|].
      apply negb_false_iff, existsb_exists.
      exists (lootId, Game.mkLoot lootId lootType position
                        (Game.lootDuration lootType) isEventLoot).
      split; [apply set_has_new|].
      cbn [snd Game.loot_position]. now apply pos_eqb_eq.
    + rewrite get_set_eq. now destruct lootType.
  - left. cbn [fst snd]. split; [|now split].
    exact (findEmptyPosition_None st probes Hfind).
Qed.

Lemma a_loot_drop_lands_on_an_empty_square_witness :
  JsMap.get
    (Game.lootItems
       (fst (GameEvents.spawnLoot true false [mkPos 3 3; mkPos 0 0]
                                  Game.petalShield "loot_2"
                                  Examples.shieldGame)))
    "loot_2"
  = Some (Game.mkLoot "loot_2" Game.petalShield (mkPos 0 0) 10 false).
Proof.
  destruct (a_loot_drop_lands_on_an_empty_square
              true false [mkPos 3 3; mkPos 0 0] Game.petalShield "loot_2"
              Examples.shieldGame ltac:(repeat constructor))
    as [[Hfull _] | [position [_ [_ [_ [Hget _]]]]]].
  - specialize (Hfull (mkPos 0 0) eq_refl). vm_compute in Hfull. discriminate.
  - reflexivity.
Defined.

(** X27.  The King's Call leaves no king above 20 HP: a king with at most
    15 HP gains exactly 5, one between 15 and 20 is set to 20, and one that
    had more than 20 is cut down to 20.  Pieces of the other types, and the
    type and position of every piece, are as they were. *)
Theorem kings_call_caps_kings_at_twenty :
  forall (st : Game.State) (id : string) (p : Game.Player),
    JsMap.get (Game.players st) id = Some p ->
    exists p',
      JsMap.get (Game.players (GameEvents.eventKingsCall st)) id = Some p'
      /\ Game.gp_type p' = Game.gp_type p
      /\ Game.gp_position p' = Game.gp_position p
      /\ (Game.gp_type p <> king -> p' = p)
      /\ (Game.gp_type p = king ->
          Game.gp_hp p' <= 20
          /\ (Game.gp_hp p <= 15 -> Game.gp_hp p' = Game.gp_hp p + 5)
          /\ (15 <= Game.gp_hp p -> Game.gp_hp p' = 20)).
Proof.
  intros st id p Hp. exists (GameEvents.kingsCall p).
  unfold GameEvents.eventKingsCall. cbn [Game.players].
  rewrite get_map_values, Hp. cbn [option_map].
  unfold GameEvents.kingsCall.
  destruct (Game.gp_type p) eqn:T; cbn [Game.gp_type Game.gp_position Game.gp_hp];
    rewrite ?T; repeat split; try congruence; try discriminate; lia.
Qed.

Lemma kings_call_caps_kings_at_twenty_witness :
  exists p',
    JsMap.get
      (Game.players
         (GameEvents.eventKingsCall
            (Game.mkState
               [("k"%string,
                 Game.mkPlayer "k" king (Some (mkPos 4 7)) 23
                               false false None false)]
               [] [] [])))
      "k"
    = Some p'
    /\ Game.gp_hp p' = 20.
Proof.
  destruct (kings_call_caps_kings_at_twenty
              (Game.mkState
                 [("k"%string,
                   Game.mkPlayer "k" king (Some (mkPos 4 7)) 23
                                 false false None false)]
                 [] [] [])
              "k" _ eq_refl) as [p' [Hget [_ [_ [_ Hking]]]]].
  exists p'. split; [exact Hget|].
  destruct (Hking eq_refl) as [_ [_ H]]. apply H. cbn. lia.
Defined.

(** X28.  A loot item is collected at most once: after a collect by a
    player the game knows, the item is no longer in the store, and a
    further collect of it, by that player or another, changes nothing and
    sends nothing. *)
Theorem loot_is_collected_once :
  forall (socketDefined : bool) (st : Game.State)
         (playerId otherId lootId : string) (player : Game.Player),
    JsMap.get (Game.players st) playerId = Some player ->
    let st' := Game.collectLoot socketDefined st playerId lootId in
    JsMap.get (Game.lootItems st') lootId = None
    /\ Game.collectLoot socketDefined st' otherId lootId = st'.
Proof.
  intros socketDefined st playerId otherId lootId player Hp st'.
  assert (Hgone : JsMap.get (Game.lootItems st') lootId = None).
  { subst st'. unfold Game.collectLoot. rewrite Hp.
    destruct (JsMap.get (Game.lootItems st) lootId) as [loot|] eqn:El.
    - cbn [Game.lootItems]. apply get_delete_eq.
    - exact El. }
  split; [exact Hgone|].
  unfold Game.collectLoot at 1. rewrite Hgone.
  now destruct (JsMap.get (Game.players st') otherId).
Qed.

Lemma loot_is_collected_once_witness :
  Game.collectLoot true
    (Game.collectLoot true Examples.shieldGame "w" "loot_1") "w" "loot_1"
  = Game.collectLoot true Examples.shieldGame "w" "loot_1".
Proof.
  destruct (loot_is_collected_once true Examples.shieldGame "w" "w" "loot_1"
                                   _ eq_refl) as [_ H].
  exact H.
Defined.

(** X29.  A move of a neutral entity either changes nothing or takes the
    entity exactly one square along a row or a column onto a board square;
    its health and the loot on the board are not touched, and nobody's
    position changes. *)
Theorem the_beast_moves_one_square_on_the_board :
  forall (socketDefined : bool) (pick : nat) (st : Game.State)
         (entityId : string) (entity : Game.Entity),
    JsMap.get (Game.entities st) entityId = Some entity ->
    let st' := Game.moveNeutralEntity socketDefined pick st entityId in
    st' = st
    \/ (exists entity',
           JsMap.get (Game.entities st') entityId = Some entity'
           /\ Game.onBoard (Game.en_position entity') = true
           /\ Z.abs (pos_x (Game.en_position entity')
                     - pos_x (Game.en_position entity))
              + Z.abs (pos_z (Game.en_position entity')
                       - pos_z (Game.en_position entity)) = 1
           /\ Game.en_hp entity' = Game.en_hp entity
           /\ Game.lootItems st' = Game.lootItems st
           /\ map (fun kv => Game.gp_position (snd kv)) (Game.players st')
              = map (fun kv => Game.gp_position (snd kv)) (Game.players st)).
Proof.
  intros socketDefined pick st entityId entity He st'. subst st'.
  unfold Game.moveNeutralEntity. rewrite He.
  destruct (nth_error _ pick) as [newPosition|] eqn:En; [|now left].
  right. apply nth_error_In, filter_In in En. destruct En as [Hadj Hb].
  eexists. cbn [Game.entities Game.lootItems Game.players].
  split; [apply get_set_eq|]. cbn [Game.en_position Game.en_hp].
  repeat split; try assumption.
  - now apply adjacent_is_one_step.
  - rewrite map_map. apply map_ext. intros [k p]. cbn [snd fst].
    now destruct (Game.onSquare p newPosition).
Qed.

Lemma the_beast_moves_one_square_on_the_board_witness :
  exists entity',
    JsMap.get
      (Game.entities (Game.moveNeutralEntity true 0 Examples.shieldGame "vine_1"))
      "vine_1"
    = Some entity'
    /\ Game.en_position entity' = mkPos 3 3.
Proof.
  destruct (the_beast_moves_one_square_on_the_board
              true 0%nat Examples.shieldGame "vine_1" _ eq_refl)
    as [Hsame | [entity' [Hget _]]].
  - vm_compute in Hsame. discriminate.
  - exists entity'. split; [exact Hget|].
    vm_compute in Hget. now inversion Hget.
Defined.

(** ** A whole session: request, confirmation, disconnect *)

(** X30.  A client that asks for a piece while its team still has a free
    starting square, confirms the piece it was given and disconnects
    without having moved leaves the reservations as they were before it
    asked, and its id is gone from the registry. *)
Theorem leaving_without_moving_frees_the_square :
  forall (now : Z) (sid : string) (randomType : PieceType)
         (randomPosition : Position) (hp : option Z) (st : Server.State)
         (t : Slots.Table) (a : Slots.Assigned) (square : Position),
    Slots.wellSized t ->
    snd (Slots.assignPieceFromTraditionalPosition t
           (if Nat.even (JsMap.size (Server.players st)) then white else black))
    = Some a ->
    Slots.as_position a = Some square ->
    let request := Slots.requestPieceAssignment sid randomType randomPosition
                                                (Server.players st) t in
    let confirmed :=
      Server.onConfirmPieceAssignment now sid
        (Server.mkConfirm sid (Slots.pa_type (snd request))
                          (Slots.pa_team (snd request)) square hp) st in
    let left := Slots.onDisconnect sid confirmed (fst request) in
    Slots.pa_position (snd request) = Some square
    /\ (forall tm ty j,
          Slots.taken (snd left) tm ty j = Slots.taken t tm ty j)
    /\ JsMap.get (Server.players (fst left)) sid = None.
Proof.
  intros now sid randomType randomPosition hp st t a square Hw Ha Hsq.
  cbv zeta. unfold Slots.requestPieceAssignment.
  destruct (Slots.assignPieceFromTraditionalPosition t _) as [t1 o] eqn:E.
  cbn [snd] in Ha. subst o.
  cbn [fst snd Slots.pa_type Slots.pa_team Slots.pa_position].
  split; [assumption|]. split.
  - intros tm ty j. unfold Slots.onDisconnect, Server.onConfirmPieceAssignment.
    cbn [snd Server.players Server.cd_id Server.cd_type Server.cd_team
         Server.cd_position].
    rewrite get_set_eq. cbn [Server.p_team Server.p_type Server.p_position].
    remember (if Nat.even (JsMap.size (Server.players st))
              then white else black) as team eqn:Hteam.
    clear Hteam.
    destruct (assignFrom_Some team Slots.pieceTypes t t1 a Hw E)
      as [_ [Hw1 [i [square' [Hpos [Hnth [Hfree Hall]]]]]]].
    assert (square' = square) by congruence. subst square'.
    destruct (t1 team (Slots.as_type a)) as [row|] eqn:Hrow.
    + rewrite (release_taken t1 team _ row i square Hw1 Hrow Hnth), Hall.
      destruct (team_eqb tm team && Slots.type_eqb ty (Slots.as_type a)
                && Nat.eqb j i) eqn:Eq; [|reflexivity].
      rewrite !andb_true_iff in Eq. destruct Eq as [[E1 E2] E3].
      apply team_eqb_eq in E1. apply type_eqb_eq in E2.
      apply Nat.eqb_eq in E3. subst tm ty j. now rewrite Hfree.
    + specialize (Hall team (Slots.as_type a) i).
      unfold Slots.taken at 1 in Hall. rewrite Hrow in Hall.
      rewrite (proj2 (team_eqb_eq _ _) eq_refl),
              (proj2 (type_eqb_eq _ _) eq_refl), Nat.eqb_refl in Hall.
      discriminate.
  - unfold Slots.onDisconnect, Server.onDisconnect. cbn [fst Server.players].
    apply get_delete_eq.
Qed.

Lemma leaving_without_moving_frees_the_square_witness :
  Slots.taken
    (snd (Slots.onDisconnect "w"
            (Server.onConfirmPieceAssignment 10 "w"
               (Server.mkConfirm "w" pawn white (mkPos 0 6) (Some 5))
               Server.initial)
            MoreExamples.firstWhiteTaken))
    white pawn 0
  = Slots.taken Slots.noneAssigned white pawn 0.
Proof.
  apply (leaving_without_moving_frees_the_square
           10 "w" knight (mkPos 3 3) (Some 5) Server.initial Slots.noneAssigned
           (Slots.mkAssigned pawn (Some (mkPos 0 6))) (mkPos 0 6)).
  - intros team type row H. discriminate.
  - reflexivity.
  - reflexivity.
Defined.

(** ** The path walk towards a target off the grid *)

Section WalkFacts.

Lemma Qeq_bool_inject (a b : Z) :
  Qeq_bool (inject_Z a) (inject_Z b) = (a =? b).
Proof.
  unfold Qeq_bool, inject_Z. cbn [Qnum Qden]. now rewrite !Z.mul_1_r.
Qed.

Lemma Qle_bool_inject (a b : Z) :
  Qle_bool (inject_Z a) (inject_Z b) = (a <=? b).
Proof.
  unfold Qle_bool, inject_Z. cbn [Qnum Qden]. now rewrite !Z.mul_1_r.
Qed.

Lemma dirOf_inject (a b : Z) :
  AnyNumber.dirOf a (inject_Z b) = Server.dirOf a b.
Proof.
  unfold AnyNumber.dirOf, Server.dirOf. rewrite !Qle_bool_inject.
  rewrite Z.gtb_ltb.
  destruct (Z.leb_spec b a), (Z.ltb_spec a b), (Z.leb_spec a b),
    (Z.ltb_spec b a); cbn; try reflexivity; lia.
Qed.

Lemma pathLoop_inject (ps : list (string * Server.Player))
      (dirX dirZ endX endZ : Z) (fuel : nat) :
  forall currX currZ,
    AnyNumber.pathLoop ps currX currZ dirX dirZ
                       (inject_Z endX) (inject_Z endZ) fuel
    = Server.pathLoop ps currX currZ dirX dirZ endX endZ fuel.
Proof.
  induction fuel as [|fuel IH]; intros currX currZ; cbn; [reflexivity|].
  rewrite !Qeq_bool_inject.
  destruct (negb _); [|reflexivity].
  destruct (Server.isAnyPieceAt ps _); [reflexivity | apply IH].
Qed.

Lemma fractional_never_met (q : Q) (k : Z) :
  AnyNumber.fractional q -> Qeq_bool (inject_Z k) q = false.
Proof.
  intros Hq. destruct (Qeq_bool (inject_Z k) q) eqn:E; [|reflexivity].
  apply Qeq_bool_iff in E. exfalso. apply (Hq k). now symmetry.
Qed.

(* with a fractional coordinate in the end, the loop never sees its exit *)
Lemma pathLoop_off_the_grid (ps : list (string * Server.Player))
      (dirX dirZ : Z) (endX endZ : Q) :
  AnyNumber.fractional endX \/ AnyNumber.fractional endZ ->
  forall (fuel : nat) (currX currZ : Z),
    AnyNumber.pathLoop ps currX currZ dirX dirZ endX endZ (S fuel)
    = if Server.isAnyPieceAt ps (mkPos currX currZ) then Some true
      else AnyNumber.pathLoop ps (currX + dirX) (currZ + dirZ) dirX dirZ
                              endX endZ fuel.
Proof.
  intros Hfrac fuel currX currZ. cbn [AnyNumber.pathLoop].
  assert (E : Qeq_bool (inject_Z currX) endX
              && Qeq_bool (inject_Z currZ) endZ = false).
  { destruct Hfrac as [H | H].
    - now rewrite (fractional_never_met endX currX H).
    - rewrite (fractional_never_met endZ currZ H). apply andb_false_r. }
  now rewrite E.
Qed.

End WalkFacts.

(** X31.  isPathBlocked, given a start on a square and an end that is any
    number.  Towards an end on a square the walk is, turn for turn, the
    loop of the board model.  Towards an end with a coordinate that is not
    an integer the walk steps from square to square and never meets its
    end: it returns true when some piece stands on a square it visits, the
    first such square ending it, and when no piece does it never returns,
    however many turns the loop is given. *)
Theorem path_walk_off_the_grid_never_arrives :
  forall (ps : list (string * Server.Player)) (start_ : Position),
    (forall (end_ : Position) (fuel : nat),
        let dirX := Server.dirOf (pos_x start_) (pos_x end_) in
        let dirZ := Server.dirOf (pos_z start_) (pos_z end_) in
        AnyNumber.isPathBlocked ps start_ (inject_Z (pos_x end_))
                                (inject_Z (pos_z end_)) fuel
        = Server.pathLoop ps (pos_x start_ + dirX) (pos_z start_ + dirZ)
                          dirX dirZ (pos_x end_) (pos_z end_) fuel)
    /\ (forall (endX endZ : Q),
          AnyNumber.fractional endX \/ AnyNumber.fractional endZ ->
          let dirX := AnyNumber.dirOf (pos_x start_) endX in
          let dirZ := AnyNumber.dirOf (pos_z start_) endZ in
          let visited (n : nat) :=
            mkPos (pos_x start_ + (Z.of_nat n + 1) * dirX)
                  (pos_z start_ + (Z.of_nat n + 1) * dirZ) in
          (forall n,
              Server.isAnyPieceAt ps (visited n) = true ->
              (forall m, (m < n)%nat ->
                         Server.isAnyPieceAt ps (visited m) = false) ->
              forall fuel, (n < fuel)%nat ->
                AnyNumber.isPathBlocked ps start_ endX endZ fuel = Some true)
          /\ ((forall n, Server.isAnyPieceAt ps (visited n) = false) ->
              forall fuel,
                AnyNumber.isPathBlocked ps start_ endX endZ fuel = None)).
Proof.
  intros ps start_. split.
  - intros end_ fuel. unfold AnyNumber.isPathBlocked.
    cbv zeta. rewrite !dirOf_inject. apply pathLoop_inject.
  - intros endX endZ Hfrac dirX dirZ visited.
    assert (Hwalk : forall (fuel k : nat),
               (forall m, (m < k)%nat ->
                          Server.isAnyPieceAt ps (visited m) = false) ->
               AnyNumber.isPathBlocked ps start_ endX endZ (k + fuel)
               = AnyNumber.pathLoop ps (pos_x (visited k)) (pos_z (visited k))
                                    dirX dirZ endX endZ fuel).
    { intros fuel k. revert fuel. induction k as [|k IH]; intros fuel Hfree.
      - unfold AnyNumber.isPathBlocked, visited. cbn [pos_x pos_z Nat.add].
        fold dirX dirZ. f_equal; lia.
      - replace (S k + fuel)%nat with (k + S fuel)%nat by lia.
        rewrite IH by (intros m Hm; apply Hfree; lia).
        rewrite (pathLoop_off_the_grid ps dirX dirZ endX endZ Hfrac).
        replace (mkPos (pos_x (visited k)) (pos_z (visited k)))
          with (visited k) by reflexivity.
        rewrite (Hfree k) by lia.
        unfold visited. cbn [pos_x pos_z]. f_equal; lia. }
    split.
    + intros n Hhit Hfree fuel Hfuel.
      replace fuel with (n + S (fuel - S n))%nat by lia.
      rewrite (Hwalk _ n Hfree).
      rewrite (pathLoop_off_the_grid ps dirX dirZ endX endZ Hfrac).
      replace (mkPos (pos_x (visited n)) (pos_z (visited n)))
        with (visited n) by reflexivity.
      now rewrite Hhit.
    + intros Hfree fuel.
      replace fuel with (fuel + 0)%nat by lia.
      rewrite (Hwalk _ fuel) by (intros m _; apply Hfree).
      reflexivity.
Qed.

(* the white pawn "a" alone on (0,6): a walk from its square up the file
   towards z = 5/2 is still going after a thousand turns *)
Lemma path_walk_off_the_grid_never_arrives_witness :
  AnyNumber.isPathBlocked (Server.players Examples.oneWhitePawn) (mkPos 0 6)
                          0 (5 # 2) 1000
  = None.
Proof.
  apply (proj2 (path_walk_off_the_grid_never_arrives
                  (Server.players Examples.oneWhitePawn) (mkPos 0 6))
               0%Q (5 # 2)%Q).
  - right. intros k H. unfold Qeq, inject_Z in H. cbn in H. lia.
  - intros n.
    change (AnyNumber.dirOf (pos_x (mkPos 0 6)) 0) with 0.
    change (AnyNumber.dirOf (pos_z (mkPos 0 6)) (5 # 2)) with (-1).
    change (Server.players Examples.oneWhitePawn)
      with [("a"%string,
             Server.mkPlayer "a" pawn white (mkPos 0 6) 5 10 false None false)].
    unfold Server.isAnyPieceAt, pos_eqb.
    cbn [existsb snd Server.p_position pos_x pos_z].
    rewrite orb_false_r. apply andb_false_iff. right. apply Z.eqb_neq. lia.
Defined.
